(** * exceljs-stream-utils: the streaming transform pipeline of [src/index.ts]

    A shallow embedding of the time-zone clock, the cell normalizer, the row
    materializer, the row writer and the batch processor, with the properties
    of the specification stated and settled against it.

    Conventions.  A JavaScript Number that the program only ever uses as an
    integer or NaN (time values, calendar fields) is an [option Z], [None]
    being NaN.  A Number read from a cell or an option is a [JsNumber]: a
    rational for a finite double (rounding is not modelled), or NaN or an
    infinity.  A thrown exception is the [Throw] branch of [res]. *)

From Stdlib Require Import ZArith QArith Qabs Qround List String Ascii Bool Lia Arith.
From Stdlib Require Import DecimalString.
Import ListNotations.

Local Open Scope string_scope.
Local Open Scope Z_scope.

Set Implicit Arguments.

(* ------------------------------------------------------------------ *)
(** ** Exceptions *)

Inductive Error : Type :=
| RangeError (msg : string)   (* thrown by the platform (Intl, Date) *)
| TypeError (msg : string)    (* thrown by the platform (property of null) *)
| PlainError (msg : string).  (* [new Error(msg)] thrown by index.ts *)

Inductive res (A : Type) : Type :=
| Return (a : A)
| Throw (e : Error).
Arguments Return {A} a.
Arguments Throw {A} e.

Definition bind {A B : Type} (c : res A) (k : A -> res B) : res B :=
  match c with
  | Return a => k a
  | Throw e => Throw e
  end.

Notation "x <- c ;; k" := (bind c (fun x => k))
  (at level 61, c at next level, right associativity).
Notation "c ;;; k" := (bind c (fun _ => k))
  (at level 61, right associativity).

Definition isThrow {A : Type} (c : res A) : bool :=
  match c with Throw _ => true | Return _ => false end.

(* ------------------------------------------------------------------ *)
(** ** Numbers *)

Inductive JsNumber : Type :=
| NFinite (q : Q)
| NNaN
| NPosInf
| NNegInf.

Definition numOfZ (z : Z) : JsNumber := NFinite (inject_Z z).

(** [a <= b] and [a >= b] of JavaScript: false as soon as one side is NaN. *)
Definition numLe (a b : JsNumber) : bool :=
  match a, b with
  | NNaN, _ | _, NNaN => false
  | NNegInf, _ => true
  | _, NPosInf => true
  | NFinite x, NFinite y => Qle_bool x y
  | _, _ => false
  end.

Definition numGe (a b : JsNumber) : bool := numLe b a.

Definition numAdd (a b : JsNumber) : JsNumber :=
  match a, b with
  | NNaN, _ | _, NNaN => NNaN
  | NPosInf, NNegInf | NNegInf, NPosInf => NNaN
  | NPosInf, _ | _, NPosInf => NPosInf
  | NNegInf, _ | _, NNegInf => NNegInf
  | NFinite x, NFinite y => NFinite (x + y)%Q
  end.

(** Product with a positive finite constant (the only product index.ts has). *)
Definition numMulPos (a : JsNumber) (k : Z) : JsNumber :=
  match a with
  | NFinite x => NFinite (x * inject_Z k)%Q
  | other => other
  end.

(** Arithmetic on integer-or-NaN Numbers. *)
Definition intSub (a b : option Z) : option Z :=
  match a, b with
  | Some x, Some y => Some (x - y)
  | _, _ => None
  end.

(** [a === b] on integer-or-NaN Numbers: NaN is different from itself. *)
Definition intStrictEq (a b : option Z) : bool :=
  match a, b with
  | Some x, Some y => x =? y
  | _, _ => false
  end.

(* ------------------------------------------------------------------ *)
(** ** Dates *)

Definition maxTimeValue : Z := 8640000000000000.
Definition msPerDay : Z := 24 * 60 * 60 * 1000.

(** A [Date] object: its time value is an integer within the range of
    [maxTimeValue], or NaN (an invalid Date). *)
Inductive Date : Type :=
| ValidDate (t : Z)
| InvalidDate.

Definition getTime (d : Date) : option Z :=
  match d with
  | ValidDate t => Some t
  | InvalidDate => None
  end.

Definition inTimeRange (t : Z) : bool := Z.abs t <=? maxTimeValue.

(** TimeClip on an integer-or-NaN Number, [new Date(n)]. *)
Definition newDate (n : option Z) : Date :=
  match n with
  | Some t => if inTimeRange t then ValidDate t else InvalidDate
  | None => InvalidDate
  end.

Definition truncQ (q : Q) : Z := Z.quot (Qnum q) (Z.pos (Qden q)).

(** TimeClip on any Number: the range is tested before the truncation. *)
Definition newDateOfNumber (n : JsNumber) : Date :=
  match n with
  | NFinite q =>
      if Qle_bool (Qabs q) (inject_Z maxTimeValue)
      then ValidDate (truncQ q) else InvalidDate
  | _ => InvalidDate
  end.

(** *** The proleptic Gregorian calendar of ECMAScript *)

Module Calendar.

(** Days from 1970-01-01 to the first of month [m] (1..12) of year [y],
    plus [d - 1]. *)
Definition daysFromCivil (y m d : Z) : Z :=
  let y' := if m <=? 2 then y - 1 else y in
  let era := y' / 400 in
  let yoe := y' - era * 400 in
  let mp := if m <=? 2 then m + 9 else m - 3 in
  let doy := (153 * mp + 2) / 5 + d - 1 in
  let doe := yoe * 365 + yoe / 4 - yoe / 100 + doy in
  era * 146097 + doe - 719468.

(** Year, month (1..12) and day of month of a day number. *)
Definition civilFromDays (z : Z) : Z * Z * Z :=
  let z' := z + 719468 in
  let era := z' / 146097 in
  let doe := z' - era * 146097 in
  let yoe := (doe - doe / 1460 + doe / 36524 - doe / 146096) / 365 in
  let doy := doe - (365 * yoe + yoe / 4 - yoe / 100) in
  let mp := (5 * doy + 2) / 153 in
  let d := doy - (153 * mp + 2) / 5 + 1 in
  let m := if mp <? 10 then mp + 3 else mp - 9 in
  let y := yoe + era * 400 in
  (if m <=? 2 then y + 1 else y, m, d).

(** MakeDay: the month may lie outside 0..11 and the day outside the
    month. *)
Definition MakeDay (year month date : Z) : Z :=
  let ym := year + month / 12 in
  let mn := month mod 12 in
  daysFromCivil ym (mn + 1) 1 + date - 1.

Definition MakeTime (hour min sec ms : Z) : Z :=
  hour * 3600000 + min * 60000 + sec * 1000 + ms.

Definition MakeDate (day time : Z) : Z := day * msPerDay + time.

(** [Date.UTC(year, month, day, hour, minute, second, ms)] on integers: a
    year in 0..99 stands for 1900 + year, and the result is clipped. *)
Definition DateUTC (year month day hour minute second ms : Z) : option Z :=
  let yr := if (0 <=? year) && (year <=? 99) then 1900 + year else year in
  let t := MakeDate (MakeDay yr month day) (MakeTime hour minute second ms) in
  if inTimeRange t then Some t else None.

Definition Day (t : Z) : Z := t / msPerDay.
Definition getUTCFullYear (t : Z) : Z := fst (fst (civilFromDays (Day t))).
(** 0-based, as [Date.prototype.getUTCMonth]. *)
Definition getUTCMonth (t : Z) : Z := snd (fst (civilFromDays (Day t))) - 1.
Definition getUTCDate (t : Z) : Z := snd (civilFromDays (Day t)).
Definition getUTCHours (t : Z) : Z := (t / 3600000) mod 24.
Definition getUTCMinutes (t : Z) : Z := (t / 60000) mod 60.
Definition getUTCSeconds (t : Z) : Z := (t / 1000) mod 60.
Definition getUTCMilliseconds (t : Z) : Z := t mod 1000.

End Calendar.

(* ------------------------------------------------------------------ *)
(** ** TimeZoneClock *)

Record DateTimeParts : Type := mkParts {
  year : Z;
  month : Z;
  day : Z;
  hour : Z;
  minute : Z;
  second : Z;
  millisecond : Z
}.

(** What [Number(values.get(type))] gives for the six fields the formatter
    is asked for: an integer, or NaN when the field is absent or unreadable. *)
Record FormattedParts : Type := mkFormatted {
  fYear : option Z;
  fMonth : option Z;
  fDay : option Z;
  fHour : option Z;
  fMinute : option Z;
  fSecond : option Z
}.

(** The platform's [Intl.DateTimeFormat] and its time-zone database: which
    zone identifiers it resolves, and the fields [formatToParts] shows for a
    valid time value in a zone. *)
Record IntlHost : Type := mkIntl {
  supportsTimeZone : string -> bool;
  formatToParts : string -> Z -> FormattedParts
}.

Module TimeZoneClock.
Section WithIntl.

Variable intl : IntlHost.

Definition assertValidDate (date : Date) (label : string) : res unit :=
  match getTime date with
  | None => Throw (PlainError ("Invalid " ++ label))
  | Some _ => Return tt
  end.

Definition assertValidTimeZone (timeZone : string) : res unit :=
  if supportsTimeZone intl timeZone then Return tt
  else Throw (PlainError ("Invalid time zone: " ++ timeZone)).

(** [getTimeZoneFormatter]: the constructor of the formatter throws a
    RangeError on a zone it cannot resolve.  The formatter cache only saves
    the construction: a cached formatter is the one a fresh construction
    would give, so it is not part of the state. *)
Definition getTimeZoneFormatter (timeZone : string) : res (Z -> FormattedParts) :=
  if supportsTimeZone intl timeZone then Return (formatToParts intl timeZone)
  else Throw (RangeError ("Invalid time zone specified: " ++ timeZone)).

Definition getTimeZoneParts (date : Date) (timeZone : string) : res DateTimeParts :=
  formatter <- getTimeZoneFormatter timeZone ;;
  match date with
  | InvalidDate => Throw (RangeError "Invalid time value")
  | ValidDate t =>
      let parts := formatter t in
      match fYear parts, fMonth parts, fDay parts,
            fHour parts, fMinute parts, fSecond parts with
      | Some y, Some mo, Some d, Some h, Some mi, Some s =>
          Return (mkParts y mo d h mi s (Calendar.getUTCMilliseconds t))
      | _, _, _, _, _, _ =>
          Throw (PlainError ("Unable to parse date parts for time zone: " ++ timeZone))
      end
  end.

Definition toUtcMillis (parts : DateTimeParts) : option Z :=
  Calendar.DateUTC (year parts) (month parts - 1) (day parts)
                   (hour parts) (minute parts) (second parts) (millisecond parts).

Definition getTimeZoneOffsetMs (date : Date) (timeZone : string) : res (option Z) :=
  zoned <- getTimeZoneParts date timeZone ;;
  Return (intSub (toUtcMillis zoned) (getTime date)).

(** The [for] loop of [localDateTimeInZoneToUtc], with [attempts] rounds
    left; [break] returns the current [guess]. *)
Fixpoint guessLoop (attempts : nat) (timeZone : string)
         (localAsUtc guess : option Z) : res (option Z) :=
  match attempts with
  | O => Return guess
  | S attempts' =>
      offset <- getTimeZoneOffsetMs (newDate guess) timeZone ;;
      let next := intSub localAsUtc offset in
      if intStrictEq next guess then Return guess
      else guessLoop attempts' timeZone localAsUtc next
  end.

Definition localDateTimeInZoneToUtc (parts : DateTimeParts) (timeZone : string)
  : res Date :=
  let localAsUtc := toUtcMillis parts in
  guess <- guessLoop 4 timeZone localAsUtc localAsUtc ;;
  Return (newDate guess).

(** The iteration as the specification words it, to compare with
    [guessLoop]: the candidate is the current guess minus the offset. *)
Fixpoint specGuessLoop (attempts : nat) (timeZone : string)
         (guess : option Z) : res (option Z) :=
  match attempts with
  | O => Return guess
  | S attempts' =>
      offset <- getTimeZoneOffsetMs (newDate guess) timeZone ;;
      let candidate := intSub guess offset in
      if intStrictEq candidate guess then Return candidate
      else specGuessLoop attempts' timeZone candidate
  end.

Definition specToUtcInstant (parts : DateTimeParts) (timeZone : string) : res Date :=
  guess <- specGuessLoop 4 timeZone (toUtcMillis parts) ;;
  Return (newDate guess).

(** The iteration [localDateTimeInZoneToUtc] runs, as a relation: from
    [guess], with [attempts] rounds left, it ends in a result after a
    number of offset lookups.  The candidate of a round is [localAsUtc]
    minus the offset found at the guess. *)
Inductive Iterates (timeZone : string) (localAsUtc : option Z)
  : nat -> option Z -> nat -> res (option Z) -> Prop :=
  | iterates_cap : forall guess,
    Iterates timeZone localAsUtc 0 guess 0 (Return guess)
  | iterates_throw : forall attempts guess e,
    getTimeZoneOffsetMs (newDate guess) timeZone = Throw e ->
    Iterates timeZone localAsUtc (S attempts) guess 1 (Throw e)
  | iterates_converge : forall attempts guess offset,
    getTimeZoneOffsetMs (newDate guess) timeZone = Return offset ->
    intStrictEq (intSub localAsUtc offset) guess = true ->
    Iterates timeZone localAsUtc (S attempts) guess 1 (Return guess)
  | iterates_again : forall attempts guess offset lookups result,
    getTimeZoneOffsetMs (newDate guess) timeZone = Return offset ->
    intStrictEq (intSub localAsUtc offset) guess = false ->
    Iterates timeZone localAsUtc attempts (intSub localAsUtc offset) lookups result ->
    Iterates timeZone localAsUtc (S attempts) guess (S lookups) result.

(** The UTC getters of a valid date, as [replaceDateTimeZoneByUserTimeZone]
    reads them. *)
Definition utcPartsOf (t : Z) : DateTimeParts :=
  mkParts (Calendar.getUTCFullYear t) (Calendar.getUTCMonth t + 1)
          (Calendar.getUTCDate t) (Calendar.getUTCHours t)
          (Calendar.getUTCMinutes t) (Calendar.getUTCSeconds t)
          (Calendar.getUTCMilliseconds t).

Definition replaceDateTimeZoneByUserTimeZone (date : Date) (timeZone : string)
  : res Date :=
  assertValidDate date "date" ;;;
  assertValidTimeZone timeZone ;;;
  match date with
  | ValidDate t => localDateTimeInZoneToUtc (utcPartsOf t) timeZone
  | InvalidDate => Throw (PlainError "Invalid date")
  end.

Definition reinterpretDateToTimeZone (date : Date) (timeZone : string) : res Date :=
  replaceDateTimeZoneByUserTimeZone date timeZone.

End WithIntl.
End TimeZoneClock.

(** A zone database built from an offset function (milliseconds east of UTC
    at a UTC instant): the formatter shows the calendar fields of the shifted
    instant, in the 0..23 hour cycle. *)
Definition fieldsOfOffset (offsetAt : Z -> Z) (t : Z) : FormattedParts :=
  let l := t + offsetAt t in
  mkFormatted (Some (Calendar.getUTCFullYear l)) (Some (Calendar.getUTCMonth l + 1))
              (Some (Calendar.getUTCDate l)) (Some (Calendar.getUTCHours l))
              (Some (Calendar.getUTCMinutes l)) (Some (Calendar.getUTCSeconds l)).

Definition hourMs : Z := 3600000.

(** Asia/Manila: eight hours east of UTC, no transitions (since 1990). *)
Definition manilaOffset (t : Z) : Z := 8 * hourMs.

(** America/New_York around the end of daylight time in 2024: UTC-4 before
    2024-11-03T06:00:00Z, UTC-5 from then on. *)
Definition newYorkFallBack2024 : Z := 1730613600000.
Definition newYorkOffset (t : Z) : Z :=
  if t <? newYorkFallBack2024 then -4 * hourMs else -5 * hourMs.

Definition sampleIntl : IntlHost :=
  mkIntl
    (fun z => (z =? "Asia/Manila")%string || (z =? "America/New_York")%string)
    (fun z => if (z =? "Asia/Manila")%string then fieldsOfOffset manilaOffset
              else fieldsOfOffset newYorkOffset).

(* ------------------------------------------------------------------ *)
(** ** Values *)

(** The values a cell, a header or a field of a row object can hold.  An
    object is the list of its own enumerable string-keyed properties, in the
    order [Object.keys] lists them. *)
Local Unset Elimination Schemes.
Inductive JsValue : Type :=
| VUndefined
| VNull
| VBool (b : bool)
| VNumber (n : JsNumber)
| VBigInt (z : Z)
| VString (s : string)
| VDate (d : Date)
| VArray (items : list JsValue)
| VObject (props : list (string * JsValue)).
Local Set Elimination Schemes.

Definition Props : Type := list (string * JsValue).

(** [value == null] *)
Definition isNullish (v : JsValue) : bool :=
  match v with
  | VUndefined | VNull => true
  | _ => false
  end.

(** [value === ''] *)
Definition isEmptyString (v : JsValue) : bool :=
  match v with
  | VString s => (s =? "")%string
  | _ => false
  end.

Fixpoint getProp (k : string) (props : Props) : option JsValue :=
  match props with
  | [] => None
  | (k', v) :: rest => if (k' =? k)%string then Some v else getProp k rest
  end.

Definition hasProp (k : string) (props : Props) : bool :=
  match getProp k props with Some _ => true | None => false end.

Definition keysOf (props : Props) : list string := map fst props.

(** [timeZone ? ... : ...]: an absent or empty string is falsy. *)
Definition truthyString (s : option string) : option string :=
  match s with
  | Some z => if (z =? "")%string then None else Some z
  | None => None
  end.

(* ------------------------------------------------------------------ *)
(** ** CellNormalizer *)

(** A cell of the reader: its value, and its number format when it is a
    string ([typeof cell.numFmt === 'string']). *)
Record Cell : Type := mkCell {
  cellValue : JsValue;
  numFmt : option string
}.

Definition isDateLetter (c : ascii) : bool :=
  existsb (Ascii.eqb c)
          ["d"; "m"; "y"; "h"; "s"; "D"; "M"; "Y"; "H"; "S"]%char.

(** [/[dmyhs]/i.test(fmt)] *)
Fixpoint testDateFormat (fmt : string) : bool :=
  match fmt with
  | EmptyString => false
  | String c rest => isDateLetter c || testDateFormat rest
  end.

(** [typeof cell.numFmt === 'string' && /[dmyhs]/i.test(cell.numFmt)] *)
Definition hasDateFormat (fmt : option string) : bool :=
  match fmt with
  | Some f => testDateFormat f
  | None => false
  end.

Definition numOfTime (t : option Z) : JsNumber :=
  match t with Some z => numOfZ z | None => NNaN end.

(** [new Date(epoch.getTime() + serial * MS_PER_DAY)].  The product and the
    sum are exact here, where the program rounds each of them to a double:
    the two agree on the integer serials (every value met on the way to a
    valid Date is an integer below 2^53); on a serial with a fraction the
    program can be a millisecond off. *)
Definition excelSerialToDate (serial : JsNumber) (date1904 : bool) : Date :=
  let epoch := if date1904 then Calendar.DateUTC 1904 0 1 0 0 0 0
               else Calendar.DateUTC 1899 11 30 0 0 0 0 in
  newDateOfNumber (numAdd (numOfTime epoch) (numMulPos serial msPerDay)).

Module CellNormalizer.
Section WithIntl.

Variable intl : IntlHost.

(** [typeof value === 'object' && 'result' in value], for a value that is
    neither null nor a Date: the cached result when the key is there. *)
Definition resultIn (value : JsValue) : option JsValue :=
  match value with
  | VObject props => getProp "result" props
  | _ => None
  end.

(** [x ?? null] *)
Definition orNull (v : JsValue) : JsValue :=
  if isNullish v then VNull else v.

Definition normalizeCellValue (cell : Cell) (parseDates date1904 : bool)
           (timeZone : option string) : res JsValue :=
  let value := cellValue cell in
  if isNullish value then Return VNull
  else match value with
  | VDate d =>
      match truthyString timeZone with
      | Some tz =>
          d' <- TimeZoneClock.reinterpretDateToTimeZone intl d tz ;;
          Return (VDate d')
      | None => Return value
      end
  | _ =>
    match resultIn value with
    | Some result => Return (orNull result)
    | None =>
      match value with
      | VNumber serial =>
          if parseDates && hasDateFormat (numFmt cell) then
            let date := excelSerialToDate serial date1904 in
            match truthyString timeZone with
            | Some tz =>
                d' <- TimeZoneClock.reinterpretDateToTimeZone intl date tz ;;
                Return (VDate d')
            | None => Return (VDate date)
            end
          else Return value
      | _ => Return value
      end
    end
  end.

End WithIntl.
End CellNormalizer.

(* ------------------------------------------------------------------ *)
(** ** Strings *)

Module Str.

(** White space of the ASCII range, as [String.prototype.trim] strips it
    (the white space beyond that range is not modelled). *)
Definition isWhiteSpace (c : ascii) : bool :=
  let n := nat_of_ascii c in
  ((9 <=? n) && (n <=? 13))%nat || (n =? 32)%nat.

Fixpoint trimStart (s : string) : string :=
  match s with
  | String c rest => if isWhiteSpace c then trimStart rest else s
  | EmptyString => EmptyString
  end.

Fixpoint rev (s acc : string) : string :=
  match s with
  | String c rest => rev rest (String c acc)
  | EmptyString => acc
  end.

Definition trim (s : string) : string :=
  rev (trimStart (rev (trimStart s) "")) "".

(** [s.split(sep)] for a non-empty [sep]: [skip] characters of a separator
    just matched are still to be passed over, [cur] is the current item,
    in reverse. *)
Fixpoint splitGo (sep : string) (s : string) (skip : nat) (cur : string)
  : list string :=
  match s with
  | EmptyString => [rev cur ""]
  | String c rest =>
      match skip with
      | S k => splitGo sep rest k cur
      | O =>
          if String.prefix sep s
          then rev cur "" :: splitGo sep rest (String.length sep - 1) ""
          else splitGo sep rest 0 (String c cur)
      end
  end.

Fixpoint chars (s : string) : list string :=
  match s with
  | EmptyString => []
  | String c rest => String c EmptyString :: chars rest
  end.

Definition split (s sep : string) : list string :=
  if (sep =? "")%string then chars s else splitGo sep s 0 "".

Definition ofNat (n : nat) : string := NilZero.string_of_uint (Nat.to_uint n).
Definition ofZ (z : Z) : string := NilZero.string_of_int (Z.to_int z).

Fixpoint zeros (n : nat) : string :=
  match n with O => "" | S k => String "0" (zeros k) end.

Definition padStart (width : nat) (s : string) : string :=
  (zeros (width - String.length s) ++ s)%string.

End Str.

(** [Date.prototype.toISOString] of a valid time value. *)
Definition toISOString (t : Z) : string :=
  let y := Calendar.getUTCFullYear t in
  let sign := if y <? 0 then "-" else "+" in
  let yearText :=
    if (0 <=? y) && (y <=? 9999) then Str.padStart 4 (Str.ofZ y)
    else String.append sign (Str.padStart 6 (Str.ofZ (Z.abs y))) in
  (yearText ++ "-" ++ Str.padStart 2 (Str.ofZ (Calendar.getUTCMonth t + 1))
   ++ "-" ++ Str.padStart 2 (Str.ofZ (Calendar.getUTCDate t))
   ++ "T" ++ Str.padStart 2 (Str.ofZ (Calendar.getUTCHours t))
   ++ ":" ++ Str.padStart 2 (Str.ofZ (Calendar.getUTCMinutes t))
   ++ ":" ++ Str.padStart 2 (Str.ofZ (Calendar.getUTCSeconds t))
   ++ "." ++ Str.padStart 3 (Str.ofZ (Calendar.getUTCMilliseconds t)) ++ "Z")%string.

(* ------------------------------------------------------------------ *)
(** ** Row objects *)

(** A row object ([Record<string, unknown>]): its properties in the order
    of [Object.keys], array-index keys first in ascending order, then the
    other keys in the order they were created. *)
Definition RowObject : Type := Props.

Definition digitOf (c : ascii) : option N :=
  let n := N_of_ascii c in
  if ((48 <=? n) && (n <=? 57))%N then Some (n - 48)%N else None.

Fixpoint parseDigits (s : string) (acc : N) : option N :=
  match s with
  | EmptyString => Some acc
  | String c rest =>
      match digitOf c with
      | Some d => parseDigits rest (acc * 10 + d)%N
      | None => None
      end
  end.

(** The array index a property key denotes, when it is the canonical decimal
    text of an integer below 2^32 - 1. *)
Definition arrayIndexOf (k : string) : option N :=
  match k with
  | EmptyString => None
  | String c rest =>
      if Ascii.eqb c "0"
      then (if (rest =? "")%string then Some 0%N else None)
      else match parseDigits k 0 with
           | Some n => if (n <=? 4294967294)%N then Some n else None
           | None => None
           end
  end.

Fixpoint replaceProp (k : string) (v : JsValue) (props : Props) : Props :=
  match props with
  | [] => []
  | (k', v') :: rest =>
      if (k' =? k)%string then (k', v) :: rest
      else (k', v') :: replaceProp k v rest
  end.

Fixpoint insertIndexProp (n : N) (k : string) (v : JsValue) (props : Props) : Props :=
  match props with
  | [] => [(k, v)]
  | (k', v') :: rest =>
      match arrayIndexOf k' with
      | Some n' =>
          if (n' <? n)%N then (k', v') :: insertIndexProp n k v rest
          else (k, v) :: props
      | None => (k, v) :: props
      end
  end.

(** [obj[k] = v] on an object that has the key [k] among its own
    properties, or that inherits no accessor under [k]: the property is
    replaced in place, or created at the place its key has in the order of
    [Object.keys]. *)
Definition setProp (k : string) (v : JsValue) (obj : Props) : Props :=
  if hasProp k obj then replaceProp k v obj
  else match arrayIndexOf k with
       | Some n => insertIndexProp n k v obj
       | None => (obj ++ [(k, v)])%list
       end.

(** The one name under which [Object.prototype] has an accessor that an
    assignment can reach. *)
Definition protoKey : string := "__proto__".

(** The setter of that accessor, called with [v]: it replaces the prototype
    of the object when [v] is an object or null, and does nothing for any
    other value.  The result tells whether the object inherits the accessor
    afterwards: not with the prototype null, and not below a prototype that
    has a property [__proto__] of its own. *)
Definition inheritsProtoAfter (v : JsValue) : bool :=
  match v with
  | VNull => false
  | VObject props => negb (hasProp protoKey props)
  | _ => true
  end.

(** [obj[k] = v] on an object that began as an object literal.  [inherits]
    tells whether the object inherits the accessor [__proto__]: then, for
    this key and an object that has no such property of its own, the
    assignment calls the setter and creates no property.  The result is
    whether the accessor is inherited afterwards, and the own properties of
    the object (its prototype is not part of a [RowObject]). *)
Definition assignProp (inherits : bool) (k : string) (v : JsValue) (obj : Props)
  : bool * Props :=
  if (k =? protoKey)%string && negb (hasProp k obj) && inherits
  then (inheritsProtoAfter v, obj)
  else (inherits, setProp k v obj).

(** The property key of a column name read from the header array: a hole
    reads as [undefined], whose key is the text "undefined". *)
Definition propertyKey (columnName : option string) : string :=
  match columnName with
  | Some s => s
  | None => "undefined"
  end.

(* ------------------------------------------------------------------ *)
(** ** The reader's rows *)

(** [row.values]: an array that may have holes ([None]), index 0 unused; or
    something that is not an array. *)
Inductive RowValues : Type :=
| ValuesArray (a : list (option JsValue))
| ValuesNotArray.

Record Row : Type := mkRow {
  number : Z;
  values : RowValues;
  getCell : nat -> Cell   (* by 1-based column *)
}.

(** A worksheet of the streaming reader: its name when [worksheet.name] is a
    string, and its rows in order. *)
Record Worksheet : Type := mkWorksheet {
  name : option string;
  rows : list Row
}.

Definition Workbook : Type := list Worksheet.

Record XlsxReadOptions : Type := mkReadOptions {
  sheetName : option string;
  headerRowNumber : option JsNumber;
  trimHeaders : option bool;
  trimTextValues : option bool;
  trimTextColumns : option (list string);
  arrayColumns : option (list string);
  arrayDelimiter : option string;
  trimArrayItems : option bool;
  removeEmptyArrayItems : option bool;
  skipEmptyRows : option bool;
  normalizeHeader : option (string -> nat -> string);
  parseDates : option bool;
  date1904 : option bool;
  timeZone : option string
}.

Definition defaultReadOptions : XlsxReadOptions :=
  mkReadOptions None None None None None None None None None None None None None None.

(** [const { x = d } = opts] *)
Definition orDefault {A : Type} (d : A) (o : option A) : A :=
  match o with Some a => a | None => d end.

(** [set.has(columnName)] for a set of strings. *)
Definition setHas (set : list string) (columnName : option string) : bool :=
  match columnName with
  | Some s => existsb (String.eqb s) set
  | None => false
  end.

(** [a === b] on Numbers. *)
Definition numStrictEq (a b : JsNumber) : bool :=
  match a, b with
  | NFinite x, NFinite y => Qeq_bool x y
  | NPosInf, NPosInf | NNegInf, NNegInf => true
  | _, _ => false
  end.

(** What the platform does and index.ts only calls: the text of a Number
    ([`${value}`]), and the UTC time value of a local time value (the
    abstract operation UTC(t) behind [new Date(y, m, d, ...)], which depends
    on the zone the process runs in). *)
Record JsHost : Type := mkHost {
  numberToString : JsNumber -> string;
  utcOfLocal : Z -> Z
}.

(* ------------------------------------------------------------------ *)
(** ** RowMaterializer *)

Module RowMaterializer.
Section WithHost.

Variable intl : IntlHost.
Variable host : JsHost.

Definition isEmptyValue (value : JsValue) : bool :=
  isNullish value || isEmptyString value.

(** [values.every(...)]: the callback is not called on a hole. *)
Definition isEmptyRow (values : list (option JsValue)) : bool :=
  forallb (fun slot => match slot with
                       | Some value => isEmptyValue value
                       | None => true
                       end) values.

(** [values.slice(1)] keeps the holes. *)
Definition getRowValues (row : Row) : list (option JsValue) :=
  match values row with
  | ValuesArray a => tl a
  | ValuesNotArray => []
  end.

(** [part.text] of an element of a rich text: a string, or not one. *)
Definition richTextPart (part : JsValue) : res string :=
  match part with
  | VUndefined | VNull =>
      Throw (TypeError "Cannot read properties of undefined (reading 'text')")
  | VObject props =>
      match getProp "text" props with
      | Some (VString s) => Return s
      | _ => Return ""
      end
  | _ => Return ""
  end.

Fixpoint richTextJoin (parts : list JsValue) : res string :=
  match parts with
  | [] => Return ""
  | part :: rest =>
      s <- richTextPart part ;;
      r <- richTextJoin rest ;;
      Return (s ++ r)%string
  end.

Fixpoint headerValueToString (value : JsValue) : res string :=
  match value with
  | VUndefined | VNull => Return ""
  | VString s => Return s
  | VNumber n => Return (numberToString host n)
  | VBool b => Return (if b then "true" else "false")
  | VBigInt z => Return (Str.ofZ z)
  | VDate (ValidDate t) => Return (toISOString t)
  | VDate InvalidDate => Throw (RangeError "Invalid time value")
  | VArray _ => Return ""
  | VObject props =>
      match getProp "text" props with
      | Some (VString s) => Return s
      | _ =>
        match getProp "richText" props with
        | Some (VArray parts) => richTextJoin parts
        | _ =>
          (fix withResult (ps : list (string * JsValue)) : res string :=
             match ps with
             | [] => Return ""
             | (k, result) :: ps' =>
                 if (k =? "result")%string
                 then match result with
                      | VUndefined => Return ""
                      | _ => headerValueToString result
                      end
                 else withResult ps'
             end) props
        end
      end
  end.

Definition maybeTrimTextValue (value : JsValue) (trimTextValues : bool) : JsValue :=
  match value with
  | VString s => if trimTextValues then VString (Str.trim s) else value
  | _ => value
  end.

Definition shouldTrimColumn (trimTextValues : bool) (trimTextColumns : list string)
           (columnName : option string) : bool :=
  if trimTextValues then true else setHas trimTextColumns columnName.

Definition maybeConvertToArray (value : JsValue) (shouldConvert : bool)
           (delimiter : string) (trimItems removeEmpty : bool) : JsValue :=
  if negb shouldConvert then value
  else if isEmptyValue value then VArray []
  else match value with
  | VArray _ => value
  | VString s =>
      let items := Str.split s delimiter in
      let items := if trimItems then map Str.trim items else items in
      let items := if removeEmpty
                   then filter (fun item => (0 <? String.length item)%nat) items
                   else items in
      VArray (map VString items)
  | _ => VArray [value]
  end.

Section WithOptions.

Variable opts : XlsxReadOptions.

Definition optHeaderRowNumber : JsNumber := orDefault (numOfZ 1) (headerRowNumber opts).
Definition optTrimHeaders : bool := orDefault true (trimHeaders opts).
Definition optTrimTextValues : bool := orDefault false (trimTextValues opts).
Definition optTrimTextColumns : list string := orDefault [] (trimTextColumns opts).
Definition optArrayColumns : list string := orDefault [] (arrayColumns opts).
Definition optArrayDelimiter : string := orDefault "," (arrayDelimiter opts).
Definition optTrimArrayItems : bool := orDefault true (trimArrayItems opts).
Definition optRemoveEmptyArrayItems : bool := orDefault true (removeEmptyArrayItems opts).
Definition optSkipEmptyRows : bool := orDefault true (skipEmptyRows opts).
Definition optNormalizeHeader : string -> nat -> string :=
  orDefault (fun header _ => header) (normalizeHeader opts).
Definition optParseDates : bool := orDefault true (parseDates opts).
Definition optDate1904 : bool := orDefault false (date1904 opts).

(** The callback of [values.map] on the header row. *)
Definition headerOf (value : JsValue) (index : nat) : res string :=
  header <- headerValueToString value ;;
  let header := if optTrimHeaders then Str.trim header else header in
  let header := optNormalizeHeader header index in
  Return (if (header =? "")%string
          then ("column_" ++ Str.ofNat (index + 1))%string else header).

(** [values.map(...)] from position [index] on: a hole stays a hole. *)
Fixpoint mapHeaders (values : list (option JsValue)) (index : nat)
  : res (list (option string)) :=
  match values with
  | [] => Return []
  | None :: rest =>
      hs <- mapHeaders rest (S index) ;;
      Return (None :: hs)
  | Some value :: rest =>
      h <- headerOf value index ;;
      hs <- mapHeaders rest (S index) ;;
      Return (Some h :: hs)
  end.

(** One round of the loop over the header array: the value stored under
    [columnName] for the cell of column [i + 1]. *)
Definition columnValue (row : Row) (i : nat) (columnName : option string)
  : res JsValue :=
  let cell := getCell row (i + 1) in
  normalizedValue <- CellNormalizer.normalizeCellValue intl cell optParseDates optDate1904
                                        (timeZone opts) ;;
  let trimmedValue :=
    maybeTrimTextValue normalizedValue
      (shouldTrimColumn optTrimTextValues optTrimTextColumns columnName) in
  Return (maybeConvertToArray trimmedValue (setHas optArrayColumns columnName)
            optArrayDelimiter optTrimArrayItems optRemoveEmptyArrayItems).

(** The loop [for (let i = 0; i < headers.length; i += 1)], from round
    [i] on, over the headers still to visit: [obj] has the own properties
    of the object so far, and [inherits] tells whether it still inherits
    the accessor [__proto__]. *)
Fixpoint fillObject (row : Row) (headers : list (option string)) (i : nat)
         (inherits : bool) (obj : RowObject) : res RowObject :=
  match headers with
  | [] => Return obj
  | columnName :: rest =>
      v <- columnValue row i columnName ;;
      let (inherits', obj') := assignProp inherits (propertyKey columnName) v obj in
      fillObject row rest (S i) inherits' obj'
  end.

(** The body of the loop over the rows of a worksheet: the header array
    after the row, and the object the row yields, if any. *)
Definition rowStep (headers : option (list (option string))) (row : Row)
  : res (option (list (option string)) * option RowObject) :=
  let values := getRowValues row in
  if optSkipEmptyRows && isEmptyRow values then Return (headers, None)
  else if numStrictEq (numOfZ (number row)) optHeaderRowNumber then
    hs <- mapHeaders values 0 ;;
    Return (Some hs, None)
  else match headers with
       | None => Return (None, None)
       | Some hs =>
           obj <- fillObject row hs 0 true [] ;;
           Return (headers, Some obj)
       end.

(** What a generator has done when it stops: the objects it yielded, in
    order, and the exception it stopped on, if any. *)
Definition Yielded : Type := (list RowObject * option Error)%type.

Fixpoint sheetLoop (headers : option (list (option string))) (rs : list Row)
  : Yielded :=
  match rs with
  | [] => ([], None)
  | row :: rest =>
      match rowStep headers row with
      | Throw e => ([], Some e)
      | Return (headers', None) => sheetLoop headers' rest
      | Return (headers', Some obj) =>
          let (objs, failure) := sheetLoop headers' rest in
          (obj :: objs, failure)
      end
  end.

Fixpoint workbookLoop (sheets : list Worksheet) : Yielded :=
  match sheets with
  | [] => ([], None)
  | worksheet :: rest =>
      let skip :=
        match truthyString (sheetName opts) with
        | Some wanted =>
            match name worksheet with
            | Some current => negb (current =? wanted)%string
            | None => true
            end
        | None => false
        end in
      if skip then workbookLoop rest
      else match sheetLoop None (rows worksheet) with
           | (objs, Some e) => (objs, Some e)
           | (objs, None) =>
               let (objs', failure) := workbookLoop rest in
               ((objs ++ objs')%list, failure)
           end
  end.

Definition xlsxToObjects (input : Workbook) : Yielded :=
  match (match truthyString (timeZone opts) with
         | Some tz => TimeZoneClock.assertValidTimeZone intl tz
         | None => Return tt
         end) with
  | Throw e => ([], Some e)
  | Return _ => workbookLoop input
  end.

End WithOptions.

End WithHost.
End RowMaterializer.

(** A row of the reader given by its cells, column 1 first: [getCell] finds
    the cell or makes an empty one, and [values] has the value of every cell
    that is not null, at the index of its column. *)
Definition emptyCell : Cell := mkCell VNull None.

Fixpoint stripTrailingHoles (a : list (option JsValue)) : list (option JsValue) :=
  match a with
  | [] => []
  | slot :: rest =>
      match slot, stripTrailingHoles rest with
      | None, [] => []
      | _, rest' => slot :: rest'
      end
  end.

Definition rowOfCells (n : Z) (cells : list Cell) : Row :=
  let slots := map (fun c => if isNullish (cellValue c) then None
                             else Some (cellValue c)) cells in
  mkRow n
        (ValuesArray (match stripTrailingHoles slots with
                      | [] => []
                      | slots' => None :: slots'
                      end))
        (fun col => match col with
                    | O => emptyCell
                    | S i => nth i cells emptyCell
                    end).

(** [row.values] and [row.getCell] show the same cells: the value at an
    index of the array is the value of the cell of that column, and a column
    without an entry (a hole, or beyond the end) has a cell without a
    value. *)
Definition sameCells (row : Row) : Prop :=
  forall i,
    match nth_error (RowMaterializer.getRowValues row) i with
    | Some (Some v) => cellValue (getCell row (i + 1)) = v
    | _ => isNullish (cellValue (getCell row (i + 1))) = true
    end.

(** A value that is null, the empty string or the empty array. *)
Definition isBlank (v : JsValue) : bool :=
  match v with
  | VNull => true
  | VString s => (s =? "")%string
  | VArray [] => true
  | _ => false
  end.

(** A platform for the samples: it prints the integers that they use, and
    runs in UTC. *)
Definition sampleHost : JsHost :=
  mkHost (fun n => match n with
                   | NFinite q => Str.ofZ (truncQ q)
                   | NNaN => "NaN"
                   | NPosInf => "Infinity"
                   | NNegInf => "-Infinity"
                   end)
         (fun t => t).

(* ------------------------------------------------------------------ *)
(** ** RowWriter *)

Record XlsxWriteColumn : Type := mkColumn {
  header : string;
  key : string;
  width : option JsNumber
}.

Record XlsxWriteOptions : Type := mkWriteOptions {
  wSheetName : option string;
  columns : option (list XlsxWriteColumn);
  useStyles : option bool;
  useSharedStrings : option bool;
  wTimeZone : option string;
  dateColumns : option (list string)
}.

Inductive ExcelOutput : Type :=
| OutputPath (filename : string)
| OutputStream (stream : nat).

(** What [objectsToXlsx] does to the outside, in order: a pull on the row
    iterator (with the row it gave, if any), and the calls on the workbook
    writer and on its sheet.  The calls on the sink are taken to succeed: a
    failure of the workbook writer, of a row or of a commit is not
    modelled. *)
Inductive WriteEvent : Type :=
| IteratorNext (row : option RowObject)
| NewWorkbookWriter (output : ExcelOutput) (useStyles useSharedStrings : bool)
| AddWorksheet (sheetName : string)
| SetColumns (columns : list XlsxWriteColumn)
| AddRowCommit (row : RowObject)
| SheetCommit
| WorkbookCommit.

Definition isSinkEvent (ev : WriteEvent) : bool :=
  match ev with
  | IteratorNext _ => false
  | _ => true
  end.

Module RowWriter.
Section WithHost.

Variable intl : IntlHost.
Variable host : JsHost.

(** [new Date(year, monthIndex, day, hours, minutes, seconds, ms)]: the
    fields are read in the zone of the process. *)
Definition newLocalDate (y mo d h mi s ms : Z) : Date :=
  let yr := if (0 <=? y) && (y <=? 99) then 1900 + y else y in
  newDate (Some (utcOfLocal host
    (Calendar.MakeDate (Calendar.MakeDay yr mo d) (Calendar.MakeTime h mi s ms)))).

Definition utcDateToExcelLocalDate (dateUtc : Date) (timeZone : string) : res Date :=
  TimeZoneClock.assertValidDate dateUtc "date" ;;;
  TimeZoneClock.assertValidTimeZone intl timeZone ;;;
  userDate <- TimeZoneClock.getTimeZoneParts intl dateUtc timeZone ;;
  match dateUtc with
  | ValidDate t =>
      Return (newLocalDate (year userDate) (month userDate - 1) (day userDate)
                           (hour userDate) (minute userDate) (second userDate)
                           (Calendar.getUTCMilliseconds t))
  | InvalidDate => Throw (PlainError "Invalid date")
  end.

Definition shouldConvertDateColumn (columnName : string) (dateColumnsSet : list string)
  : bool :=
  if (List.length dateColumnsSet =? 0)%nat then true
  else existsb (String.eqb columnName) dateColumnsSet.

(** The loop over [Object.entries(row)]: every key is already in the copy,
    so an assignment replaces the value in place. *)
Fixpoint convertEntries (entries : Props) (timeZone : string)
         (dateColumnsSet : list string) (converted : RowObject) : res RowObject :=
  match entries with
  | [] => Return converted
  | (columnName, value) :: rest =>
      match value with
      | VDate d =>
          if shouldConvertDateColumn columnName dateColumnsSet then
            d' <- utcDateToExcelLocalDate d timeZone ;;
            convertEntries rest timeZone dateColumnsSet
                           (setProp columnName (VDate d') converted)
          else convertEntries rest timeZone dateColumnsSet converted
      | _ => convertEntries rest timeZone dateColumnsSet converted
      end
  end.

Definition mapRowForExcelWrite (row : RowObject) (timeZone : option string)
           (dateColumnsSet : list string) : res RowObject :=
  match truthyString timeZone with
  | None => Return row
  | Some tz => convertEntries row tz dateColumnsSet row
  end.

Definition inferColumnsFromRow (row : RowObject) : list XlsxWriteColumn :=
  map (fun k => mkColumn k k None) (keysOf row).

Definition noColumnsError : Error :=
  PlainError "Unable to determine columns. Provide `columns` or include at least one row with keys.".

(** [new Set(dateColumns)]: the members, once each. *)
Definition setOf (l : list string) : list string := nodup string_dec l.

(** The [while (true)] loop over the rest of the iterator. *)
Fixpoint writeRest (rest : list RowObject) (timeZone : option string)
         (dateColumnsSet : list string) : list WriteEvent * res unit :=
  match rest with
  | [] => ([IteratorNext None; SheetCommit; WorkbookCommit], Return tt)
  | row :: rest' =>
      match mapRowForExcelWrite row timeZone dateColumnsSet with
      | Throw e => ([IteratorNext (Some row)], Throw e)
      | Return mapped =>
          let (events, result) := writeRest rest' timeZone dateColumnsSet in
          (IteratorNext (Some row) :: AddRowCommit mapped :: events, result)
      end
  end.

Definition objectsToXlsx (output : ExcelOutput) (rows : list RowObject)
           (opts : XlsxWriteOptions) : list WriteEvent * res unit :=
  let sheetName := orDefault "Sheet1" (wSheetName opts) in
  let useStyles := orDefault false (useStyles opts) in
  let useSharedStrings := orDefault false (useSharedStrings opts) in
  let timeZone := wTimeZone opts in
  let dateColumnsSet := setOf (orDefault [] (dateColumns opts)) in
  match (match truthyString timeZone with
         | Some tz => TimeZoneClock.assertValidTimeZone intl tz
         | None => Return tt
         end) with
  | Throw e => ([], Throw e)
  | Return _ =>
      let firstRowResult := hd_error rows in
      let resolvedColumns :=
        match columns opts with
        | Some (c :: cs) => Some (c :: cs)
        | _ => match firstRowResult with
               | None => None
               | Some first => Some (inferColumnsFromRow first)
               end
        end in
      match resolvedColumns with
      | None | Some [] => ([IteratorNext firstRowResult], Throw noColumnsError)
      | Some resolved =>
          let opened := [IteratorNext firstRowResult;
                         NewWorkbookWriter output useStyles useSharedStrings;
                         AddWorksheet sheetName;
                         SetColumns resolved] in
          match firstRowResult with
          | None =>
              let (events, result) := writeRest [] timeZone dateColumnsSet in
              ((opened ++ events)%list, result)
          | Some first =>
              match mapRowForExcelWrite first timeZone dateColumnsSet with
              | Throw e => (opened, Throw e)
              | Return mapped =>
                  let (events, result) := writeRest (tl rows) timeZone dateColumnsSet in
                  ((opened ++ AddRowCommit mapped :: events)%list, result)
              end
          end
      end
  end.

(** The check of the [timeZone] option passes: the option is absent or
    empty, or names a zone the platform resolves. *)
Definition zoneAccepted (timeZone : option string) : bool :=
  match truthyString timeZone with
  | Some tz => supportsTimeZone intl tz
  | None => true
  end.

(** The column schema as the specification words it: the [columns] option
    when it is not empty, else the keys of the first row, if there is one. *)
Definition specColumns (opts : XlsxWriteOptions) (rows : list RowObject)
  : option (list XlsxWriteColumn) :=
  match columns opts with
  | Some (c :: cs) => Some (c :: cs)
  | _ => option_map inferColumnsFromRow (hd_error rows)
  end.

(** The schemas given to the sheet in the course of a write. *)
Fixpoint columnsSetOn (events : list WriteEvent) : list (list XlsxWriteColumn) :=
  match events with
  | [] => []
  | SetColumns cols :: rest => cols :: columnsSetOn rest
  | _ :: rest => columnsSetOn rest
  end.

End WithHost.
End RowWriter.

(* ------------------------------------------------------------------ *)
(** ** BatchProcessor *)

(** [runBatch] runs on the job queue of the platform: promises, their
    reactions and the microtask queue are modelled as far as [runBatch]
    uses them.  An invocation is the promise
    [Promise.resolve().then(() => handler(item))]; it is named by the order
    of its creation in the window. *)
Module BatchProcessor.

Inductive Outcome : Type :=
| Fulfilled
| Rejected (e : Error).

(** What the call [handler(item)] does at once: it returns a value that is
    not a promise, it throws, or it returns a promise that is settled
    later. *)
Inductive HandlerResult : Type :=
| HandlerReturns
| HandlerThrows (e : Error)
| HandlerPromise.

(** A reaction registered on an invocation: the callback of
    [promise.finally], or the element function of the race or wait-all
    numbered [k]. *)
Inductive Reaction : Type :=
| OnFinally
| OnAggregate (k : nat).

(** A job of the microtask queue. *)
Inductive Job : Type :=
| CallHandler (i : nat)
| React (i : nat) (r : Reaction) (o : Outcome)
| Resume.

(** The moves of the platform: the synchronous code of [runBatch] runs up
    to its next loop head or [await]; the first job of the queue runs; the
    promise a handler returned is settled. *)
Inductive Choice : Type :=
| RunMain
| RunJob
| Settle (i : nat) (o : Outcome).

Section Window.

Variable T : Type.
Variable handler : T -> HandlerResult.
Variable concurrency : JsNumber.

Record Invocation : Type := mkInvocation {
  item : T;
  started : bool;               (* [handler(item)] has been called *)
  settled : option Outcome;
  reactions : list Reaction     (* registered, the promise still pending *)
}.

(** Where the body of [runBatch] stands. *)
Inductive Main : Type :=
| InLoop (rest : list T)
    (* in [for (const item of items)], [rest] still to launch *)
| AwaitRace (k : nat) (raced : list nat) (rest : list T)
    (* at [await Promise.race(inFlight)], called on [raced] *)
| AwaitAll (k : nat) (remaining : nat)
    (* at [await Promise.all(inFlight)], [remaining] not yet fulfilled *)
| Waking (o : Outcome) (rest : option (list T))
    (* the awaited promise is settled, the continuation is queued *)
| Done (o : Outcome).
    (* the promise of [runBatch] is settled *)

Record State : Type := mkState {
  invocations : list Invocation;
  inFlight : list nat;          (* the Set, in insertion order *)
  queue : list Job;
  main : Main;
  nextAggregate : nat;
  unhandledRejections : list Error
    (* of the promises [promise.finally(...)] returns, which nobody awaits *)
}.

Definition initial (items : list T) : State :=
  mkState [] [] [] (InLoop items) 0 [].

Definition withMain (m : Main) (s : State) : State :=
  mkState (invocations s) (inFlight s) (queue s) m
          (nextAggregate s) (unhandledRejections s).

Definition enqueue (jobs : list Job) (s : State) : State :=
  mkState (invocations s) (inFlight s) (queue s ++ jobs)%list (main s)
          (nextAggregate s) (unhandledRejections s).

Fixpoint updateAt (i : nat) (f : Invocation -> Invocation)
         (invs : list Invocation) : list Invocation :=
  match invs, i with
  | [], _ => []
  | inv :: rest, O => f inv :: rest
  | inv :: rest, S i' => inv :: updateAt i' f rest
  end.

Definition withInvocations (invs : list Invocation) (s : State) : State :=
  mkState invs (inFlight s) (queue s) (main s)
          (nextAggregate s) (unhandledRejections s).

(** The promise of invocation [i] is settled: its reactions are queued
    in the order of their registration. *)
Definition settleInvocation (i : nat) (o : Outcome) (s : State) : State :=
  match nth_error (invocations s) i with
  | None => s
  | Some inv =>
      match settled inv with
      | Some _ => s   (* a promise is settled once *)
      | None =>
          enqueue (map (fun r => React i r o) (reactions inv))
            (withInvocations
               (updateAt i (fun inv => mkInvocation (item inv) (started inv) (Some o) [])
                         (invocations s)) s)
      end
  end.

(** [promise.then(...)] by the aggregate [k] on invocation [j]: queued at
    once when [j] is settled, registered otherwise. *)
Definition subscribeOne (k : nat) (s : State) (j : nat) : State :=
  match nth_error (invocations s) j with
  | None => s
  | Some inv =>
      match settled inv with
      | Some o => enqueue [React j (OnAggregate k) o] s
      | None =>
          withInvocations
            (updateAt j (fun inv => mkInvocation (item inv) (started inv) (settled inv)
                                      (reactions inv ++ [OnAggregate k])%list)
                      (invocations s)) s
      end
  end.

Definition subscribe (k : nat) (ids : list nat) (s : State) : State :=
  fold_left (subscribeOne k) ids s.

(** One round of the loop, [Promise.race] included when the set is full;
    or, the items exhausted, [Promise.all]. *)
Definition mainStep (s : State) : State :=
  match main s with
  | InLoop (x :: rest) =>
      let i := List.length (invocations s) in
      let s1 := mkState (invocations s ++ [mkInvocation x false None [OnFinally]])%list
                        (inFlight s ++ [i])%list
                        (queue s ++ [CallHandler i])%list
                        (main s) (nextAggregate s) (unhandledRejections s) in
      if numGe (numOfZ (Z.of_nat (List.length (inFlight s1)))) concurrency then
        let k := nextAggregate s1 in
        let s2 := subscribe k (inFlight s1) s1 in
        mkState (invocations s2) (inFlight s2) (queue s2)
                (AwaitRace k (inFlight s1) rest) (S k) (unhandledRejections s2)
      else withMain (InLoop rest) s1
  | InLoop [] =>
      let k := nextAggregate s in
      let s2 := subscribe k (inFlight s) s in
      match inFlight s with
      | [] =>
          mkState (invocations s2) (inFlight s2) (queue s2 ++ [Resume])%list
                  (Waking Fulfilled None) (S k) (unhandledRejections s2)
      | _ =>
          mkState (invocations s2) (inFlight s2) (queue s2)
                  (AwaitAll k (List.length (inFlight s))) (S k)
                  (unhandledRejections s2)
      end
  | _ => s
  end.

(** The element function of the aggregate [k] runs with outcome [o]. *)
Definition aggregateReaction (k : nat) (o : Outcome) (s : State) : State :=
  match main s with
  | AwaitRace k' _ rest =>
      if (k =? k')%nat
      then enqueue [Resume] (withMain (Waking o (Some rest)) s)
      else s
  | AwaitAll k' remaining =>
      if (k =? k')%nat then
        match o with
        | Rejected e => enqueue [Resume] (withMain (Waking (Rejected e) None) s)
        | Fulfilled =>
            match (remaining - 1)%nat with
            | O => enqueue [Resume] (withMain (Waking Fulfilled None) s)
            | S r => withMain (AwaitAll k' (S r)) s
            end
        end
      else s
  | _ => s
  end.

Definition runJob (j : Job) (s : State) : State :=
  match j with
  | CallHandler i =>
      match nth_error (invocations s) i with
      | None => s
      | Some inv =>
          let s1 := withInvocations
                      (updateAt i (fun inv => mkInvocation (item inv) true (settled inv)
                                                (reactions inv))
                                (invocations s)) s in
          match handler (item inv) with
          | HandlerReturns => settleInvocation i Fulfilled s1
          | HandlerThrows e => settleInvocation i (Rejected e) s1
          | HandlerPromise => s1
          end
      end
  | React i OnFinally o =>
      mkState (invocations s) (remove Nat.eq_dec i (inFlight s)) (queue s) (main s)
              (nextAggregate s)
              (match o with
               | Rejected e => (unhandledRejections s ++ [e])%list
               | Fulfilled => unhandledRejections s
               end)
  | React i (OnAggregate k) o => aggregateReaction k o s
  | Resume =>
      match main s with
      | Waking Fulfilled (Some rest) => withMain (InLoop rest) s
      | Waking Fulfilled None => withMain (Done Fulfilled) s
      | Waking (Rejected e) _ => withMain (Done (Rejected e)) s
      | _ => s
      end
  end.

Definition inSynchronousCode (s : State) : bool :=
  match main s with InLoop _ => true | _ => false end.

Definition jobStep (s : State) : State :=
  if inSynchronousCode s then s
  else match queue s with
       | [] => s
       | j :: q =>
           runJob j (mkState (invocations s) (inFlight s) q (main s)
                             (nextAggregate s) (unhandledRejections s))
       end.

(** The promise that the handler of invocation [i] returned is settled:
    only between jobs, and only for a handler that is running. *)
Definition settleStep (i : nat) (o : Outcome) (s : State) : State :=
  if inSynchronousCode s then s
  else match nth_error (invocations s) i with
       | Some inv =>
           match started inv, settled inv with
           | true, None => settleInvocation i o s
           | _, _ => s
           end
       | None => s
       end.

Definition step (s : State) (c : Choice) : State :=
  match c with
  | RunMain => mainStep s
  | RunJob => jobStep s
  | Settle i o => settleStep i o s
  end.

Definition run (s : State) (schedule : list Choice) : State :=
  fold_left step schedule s.

(** The invocations whose handler has been called and whose promise is
    still pending. *)
Definition isLive (inv : Invocation) : bool :=
  started inv && match settled inv with None => true | Some _ => false end.

Definition liveCount (s : State) : nat :=
  List.length (filter isLive (invocations s)).

Definition isPending (inv : Invocation) : bool :=
  match settled inv with None => true | Some _ => false end.

Definition allCompleted (s : State) : bool :=
  forallb (fun inv => negb (isPending inv)) (invocations s).

(** *** The invariant of a window *)

(** The aggregates named in the queue and in the registered reactions have
    been created: their number is below [next]. *)
Definition jobFresh (next : nat) (j : Job) : Prop :=
  match j with
  | React _ (OnAggregate k) _ => (k < next)%nat
  | _ => True
  end.

Definition isElementReaction (next : nat) (r : Reaction) : Prop :=
  match r with
  | OnAggregate k => (k < next)%nat
  | OnFinally => False
  end.

(** Running the queue from the set [fl]: when the element function of an
    aggregate runs for an invocation, the callback of its [finally] has
    run before, so that the invocation is no longer in the set. *)
Fixpoint removedFirst (fl : list nat) (q : list Job) : Prop :=
  match q with
  | [] => True
  | React i OnFinally _ :: q' => removedFirst (remove Nat.eq_dec i fl) q'
  | React i (OnAggregate _) _ :: q' => ~ In i fl /\ removedFirst fl q'
  | _ :: q' => removedFirst fl q'
  end.

(** The set [fl] after the queue [q] has run. *)
Fixpoint flightAfter (fl : list nat) (q : list Job) : list nat :=
  match q with
  | [] => fl
  | React i OnFinally _ :: q' => flightAfter (remove Nat.eq_dec i fl) q'
  | _ :: q' => flightAfter fl q'
  end.

(** An invocation in a state: pending, it is in the set and the callback of
    [finally] is the first of its reactions, the others being element
    functions; settled, it has no reaction left, and it is out of the set
    or the job of its [finally] is in the queue. *)
Definition invocationOK (next : nat) (fl : list nat) (q : list Job)
           (j : nat) (inv : Invocation) : Prop :=
  match settled inv with
  | None =>
      In j fl
      /\ exists rs, reactions inv = OnFinally :: rs
                    /\ Forall (isElementReaction next) rs
  | Some _ =>
      reactions inv = []
      /\ (In j fl -> exists o, In (React j OnFinally o) q)
  end.

(** The part of the invariant that does not depend on the place of the
    body: on the invocations, the set and the queue, [next] aggregates
    having been created. *)
Record Core (next : nat) (invs : list Invocation) (fl : list nat) (q : list Job)
  : Prop := mkCore {
  core_nodup : NoDup fl;
  core_known : forall j, In j fl -> (j < List.length invs)%nat;
  core_each : forall j inv, nth_error invs j = Some inv -> invocationOK next fl q j inv;
  core_jobs : forall i r o, In (React i r o) q ->
                exists inv, nth_error invs i = Some inv /\ settled inv <> None;
  core_fresh : Forall (jobFresh next) q;
  core_order : removedFirst fl q
}.

Definition sizeOf (l : list nat) : Z := Z.of_nat (List.length l).

(** The invocations that the aggregate [k] has an element function for are
    among [raced]. *)
Definition racedOnly (k : nat) (raced : list nat) (invs : list Invocation)
           (q : list Job) : Prop :=
  (forall i o, In (React i (OnAggregate k) o) q -> In i raced)
  /\ (forall j inv, nth_error invs j = Some inv ->
                    In (OnAggregate k) (reactions inv) -> In j raced).

(** What the place of the body adds, for the cap [cap]. *)
Definition mainOK (cap : Z) (m : Main) (invs : list Invocation) (fl : list nat)
           (q : list Job) : Prop :=
  match m with
  | InLoop _ => sizeOf fl < cap
  | Waking _ (Some _) => sizeOf fl < cap
  | AwaitRace k raced _ =>
      incl fl raced /\ NoDup raced /\ sizeOf raced <= cap
      /\ racedOnly k raced invs q
  | _ => sizeOf fl <= cap
  end.

Definition Invariant (cap : Z) (s : State) : Prop :=
  Core (nextAggregate s) (invocations s) (inFlight s) (queue s)
  /\ mainOK cap (main s) (invocations s) (inFlight s) (queue s).

(** *** Whose failure a rejection is *)

(** An invocation of the window has failed with [e]. *)
Definition failedWith (invs : list Invocation) (e : Error) : Prop :=
  exists j inv, nth_error invs j = Some inv /\ settled inv = Some (Rejected e).

(** A rejection that is queued, or that the body has been woken with or has
    ended on, is the failure of an invocation of the window. *)
Definition Blame (s : State) : Prop :=
  (forall i r e, In (React i r (Rejected e)) (queue s) ->
                 failedWith (invocations s) e)
  /\ match main s with
     | Waking (Rejected e) _ => failedWith (invocations s) e
     | Done (Rejected e) => failedWith (invocations s) e
     | _ => True
     end.

(** The state around a call of [Promise.race] or [Promise.all] numbered
    [k], on the promises [raced]. *)
Definition subscribing (k : nat) (raced : list nat) (s : State) : Prop :=
  Core (S k) (invocations s) (inFlight s) (queue s)
  /\ racedOnly k raced (invocations s) (queue s).

(** The outcomes of [invs] are those of [invs'] too. *)
Definition keeps (invs invs' : list Invocation) : Prop :=
  forall j inv o, nth_error invs j = Some inv -> settled inv = Some o ->
    exists inv', nth_error invs' j = Some inv' /\ settled inv' = Some o.

(** The rejections queued are failures of invocations of [invs]. *)
Definition queueBlame (invs : list Invocation) (q : list Job) : Prop :=
  forall i r e, In (React i r (Rejected e)) q -> failedWith invs e.

End Window.

Arguments InLoop {T} rest.
Arguments AwaitRace {T} k raced rest.
Arguments AwaitAll {T} k remaining.
Arguments Waking {T} o rest.
Arguments Done {T} o.

End BatchProcessor.

(** *** processXlsxLarge *)

Record ProcessLargeOptions : Type := mkProcessOptions {
  batchSize : option JsNumber;
  concurrency : option JsNumber;
  readOpts : XlsxReadOptions
}.

(** How the promise of an [async] function ends. *)
Inductive Completion : Type :=
| Resolves
| Rejects (e : Error)
| StaysPending.

(** What [processXlsxLarge] does to its source and to its windows, in
    order. *)
Inductive ProcessEvent : Type :=
| OpenReader                            (* [xlsxToObjects(input, readOpts)] *)
| ReaderNext (row : option RowObject)   (* a row pulled, or the end *)
| ReaderThrows (e : Error)
| RunBatch (items : list RowObject).

Module Processor.
Section WithHost.

Variable intl : IntlHost.
Variable host : JsHost.
Variable handler : RowObject -> BatchProcessor.HandlerResult.

(** The platform's part in a run: the moves it makes during the window
    numbered [w]. *)
Variable schedule : nat -> list BatchProcessor.Choice.

(** [await runBatch(batch)] for the window numbered [w]. *)
Definition runBatch (concurrency : JsNumber) (w : nat) (items : list RowObject)
  : Completion :=
  match BatchProcessor.main
          (BatchProcessor.run handler concurrency
             (BatchProcessor.initial items) (schedule w)) with
  | BatchProcessor.Done BatchProcessor.Fulfilled => Resolves
  | BatchProcessor.Done (BatchProcessor.Rejected e) => Rejects e
  | _ => StaysPending
  end.

(** The loop [for await (const row of xlsxToObjects(...))] and the last
    partial batch, over what the generator still has to give. *)
Fixpoint consume (batchSize concurrency : JsNumber) (source : list RowObject)
         (failure : option Error) (batch : list RowObject) (w : nat)
  : list ProcessEvent * Completion :=
  match source with
  | [] =>
      match failure with
      | Some e => ([ReaderThrows e], Rejects e)
      | None =>
          if (0 <? List.length batch)%nat
          then ([ReaderNext None; RunBatch batch], runBatch concurrency w batch)
          else ([ReaderNext None], Resolves)
      end
  | row :: rest =>
      let batch' := (batch ++ [row])%list in
      if numGe (numOfZ (Z.of_nat (List.length batch'))) batchSize then
        match runBatch concurrency w batch' with
        | Resolves =>
            let (events, result) :=
              consume batchSize concurrency rest failure [] (S w) in
            (ReaderNext (Some row) :: RunBatch batch' :: events, result)
        | other => ([ReaderNext (Some row); RunBatch batch'], other)
        end
      else
        let (events, result) :=
          consume batchSize concurrency rest failure batch' w in
        (ReaderNext (Some row) :: events, result)
  end.

Definition processXlsxLarge (input : Workbook) (opts : ProcessLargeOptions)
  : list ProcessEvent * Completion :=
  let batchSize := orDefault (numOfZ 2000) (batchSize opts) in
  let concurrency := orDefault (numOfZ 8) (concurrency opts) in
  if numLe batchSize (numOfZ 0)
  then ([], Rejects (PlainError "batchSize must be > 0"))
  else if numLe concurrency (numOfZ 0)
  then ([], Rejects (PlainError "concurrency must be > 0"))
  else
    let (objs, failure) :=
      RowMaterializer.xlsxToObjects intl host (readOpts opts) input in
    let (events, result) := consume batchSize concurrency objs failure [] 0 in
    (OpenReader :: events, result).

End WithHost.
End Processor.

(* ------------------------------------------------------------------ *)
(** ** Notions for the further properties *)

(** The UTC year of a time value is not one of 0..99, the years that
    [Date.UTC] and [new Date(y, ...)] read as 1900 + y. *)
Definition plainYear (t : Z) : bool :=
  negb ((0 <=? Calendar.getUTCFullYear t) && (Calendar.getUTCFullYear t <=? 99)).

(** A time value that [Date.UTC] gives back from its own UTC fields: it is
    in the range of a Date and its year is read as it is. *)
Definition convertible (t : Z) : bool := inTimeRange t && plainYear t.

(** A time value in the range of a Date whose UTC year is 100 or later:
    [Date.UTC] reads such a year as it is, and a formatter prints it as it
    is (it prints the year of the era for the years before 1). *)
Definition fromYear100 (t : Z) : bool :=
  inTimeRange t && (100 <=? Calendar.getUTCFullYear t).

(** At the instant [t] the formatter of the zone shows the wall clock of
    UTC plus [offset]: the calendar fields of [t + offset], the hour in
    0..23. *)
Definition showsOffset (intl : IntlHost) (timeZone : string) (offset t : Z) : Prop :=
  formatToParts intl timeZone t = fieldsOfOffset (fun _ => offset) t.

(** The days from 1899-12-30 and from 1904-01-01 to 1970-01-01. *)
Definition serialOfUnixEpoch (date1904 : bool) : Z :=
  if date1904 then 24107 else 25569.

(** [Array.isArray(value)] *)
Definition isArrayValue (v : JsValue) : bool :=
  match v with VArray _ => true | _ => false end.

(** [getWorksheetName(worksheet) === wanted] *)
Definition sheetNamed (wanted : string) (worksheet : Worksheet) : bool :=
  match name worksheet with
  | Some current => (current =? wanted)%string
  | None => false
  end.


(** The windows that [processXlsxLarge] has run, in order. *)
Fixpoint batchesOf (events : list ProcessEvent) : list (list RowObject) :=
  match events with
  | [] => []
  | RunBatch items :: rest => items :: batchesOf rest
  | _ :: rest => batchesOf rest
  end.

(** *** What a window keeps *)

Section WindowShape.

Import BatchProcessor.

Variable T : Type.

(** What holds of the invocations of a window, of its in-flight set, of its
    queue and of the rejections nobody handles, at every point of a run: a
    pending invocation is in the set and has the callback of its [finally]
    registered; a reaction job is the job of a settled invocation; a
    settled invocation has had its handler called; and a failure has the
    job of its [finally] callback in the queue, or has been rejected again
    by the promise that [finally] returned. *)
Record Sound (invs : list (Invocation T)) (fl : list nat) (q : list Job)
       (unhandled : list Error) : Prop := mkSound {
  sound_pending : forall j inv, nth_error invs j = Some inv -> settled inv = None ->
                    In j fl /\ In OnFinally (reactions inv);
  sound_jobs : forall i r o, In (React i r o) q ->
                 exists inv, nth_error invs i = Some inv /\ settled inv <> None;
  sound_started : forall j inv, nth_error invs j = Some inv -> settled inv <> None ->
                    started inv = true;
  sound_reported : forall j inv e, nth_error invs j = Some inv ->
                     settled inv = Some (Rejected e) ->
                     In (React j OnFinally (Rejected e)) q \/ In e unhandled
}.

Definition SoundState (s : State T) : Prop :=
  Sound (invocations s) (inFlight s) (queue s) (unhandledRejections s).

Definition isElementJob (k : nat) (j : Job) : bool :=
  match j with
  | React _ (OnAggregate k') _ => (k' =? k)%nat
  | _ => false
  end.

Definition isElementOf (k : nat) (r : Reaction) : bool :=
  match r with
  | OnAggregate k' => (k' =? k)%nat
  | OnFinally => false
  end.

(** The element functions of the aggregate [k] that have not run: those in
    the queue, and those registered on pending invocations. *)
Definition queuedFor (k : nat) (q : list Job) : nat :=
  List.length (filter (isElementJob k) q).

Definition registeredFor (k : nat) (invs : list (Invocation T)) : nat :=
  list_sum (map (fun inv => List.length (filter (isElementOf k) (reactions inv))) invs).

Definition waitingFor (k : nat) (s : State T) : nat :=
  (queuedFor k (queue s) + registeredFor k (invocations s))%nat.

(** What the place of the body says about the items of the window: the
    items launched and the items still to launch make up the window; the
    wait-all has an element function to run for every pending invocation,
    and counts at least those that have not run; and once the wait-all is
    fulfilled no invocation is pending. *)
Definition placeOK (items : list T) (s : State T) : Prop :=
  match main s with
  | InLoop rest | AwaitRace _ _ rest | Waking _ (Some rest) =>
      (map (@item T) (invocations s) ++ rest)%list = items
  | AwaitAll k remaining =>
      map (@item T) (invocations s) = items
      /\ (waitingFor k s <= remaining)%nat
      /\ forall j inv, nth_error (invocations s) j = Some inv -> settled inv = None ->
                       In (OnAggregate k) (reactions inv)
  | Waking Fulfilled None | Done Fulfilled =>
      map (@item T) (invocations s) = items
      /\ forall j inv, nth_error (invocations s) j = Some inv -> settled inv <> None
  | Waking (Rejected _) None | Done (Rejected _) => True
  end.

Definition Barrier (items : list T) (s : State T) : Prop :=
  (forall k, (nextAggregate s <= k)%nat -> waitingFor k s = 0%nat)
  /\ placeOK items s.

(** The invocations whose handler is still to be called by a job of the
    queue, in the order of the queue. *)
Fixpoint callsQueued (q : list Job) : list nat :=
  match q with
  | [] => []
  | CallHandler i :: q' => i :: callsQueued q'
  | _ :: q' => callsQueued q'
  end.

Fixpoint increasing (l : list nat) : Prop :=
  match l with
  | [] => True
  | a :: l' => (forall b, In b l' -> (a < b)%nat) /\ increasing l'
  end.

(** The handlers are called in the order of the items: the calls still
    queued are in increasing order and come after every call made, and an
    invocation whose handler has not been called has its call queued. *)
Definition InOrder (s : State T) : Prop :=
  increasing (callsQueued (queue s))
  /\ (forall i, In i (callsQueued (queue s)) -> (i < List.length (invocations s))%nat)
  /\ (forall i j inv, In i (callsQueued (queue s)) ->
        nth_error (invocations s) j = Some inv -> started inv = true -> (j < i)%nat)
  /\ (forall j inv, nth_error (invocations s) j = Some inv -> started inv = false ->
        In j (callsQueued (queue s))).

(** The same invocations as far as the calls of the handlers go. *)
Definition sameCalls (invs invs' : list (Invocation T)) : Prop :=
  List.length invs' = List.length invs
  /\ forall j inv', nth_error invs' j = Some inv' ->
        exists inv, nth_error invs j = Some inv /\ started inv' = started inv.

End WindowShape.

(* ------------------------------------------------------------------ *)
(** ** Sample inputs *)

(** The wall-clock reading 2024-01-01 12:00:00.000. *)
Definition noon2024 : DateTimeParts := mkParts 2024 1 1 12 0 0 0.

(** 2024-11-03T06:30:00Z, half an hour after the end of daylight time in
    New York. *)
Definition halfPastFallBack : Z := newYorkFallBack2024 + 1800000.

(** A formula cell with a cached result. *)
Definition formulaCell (result : JsValue) (fmt : option string) : Cell :=
  mkCell (VObject [("formula", VString "A1+1"); ("result", result)]) fmt.

Definition serial45000 : JsNumber := NFinite (45000 # 1).

(** 2023-03-15T00:00:00Z, the date of the serial 45000. *)
Definition march15 : Date := ValidDate 1678838400000.

(** A serial of 10^12 days lies beyond the range of a Date. *)
Definition hugeSerial : JsNumber := NFinite (1000000000000 # 1).

Definition textCell (s : string) : Cell := mkCell (VString s) None.

(** A sheet with a header row that names two columns alike, a row of empty
    cells, and a data row that is longer than the header. *)
Definition headerRow : Row := rowOfCells 1 [textCell "id"; textCell "name"; textCell "id"].
Definition blankRow : Row := rowOfCells 2 [textCell ""; emptyCell; textCell ""].
Definition dataRow : Row :=
  rowOfCells 3 [textCell "7"; textCell "Ann"; textCell "8"; textCell "extra"].
Definition sampleBook : Workbook :=
  [mkWorksheet (Some "Sheet1") [headerRow; blankRow; dataRow]].
Definition sampleHeaders : list (option string) := [Some "id"; Some "name"; Some "id"].
Definition sampleObject : RowObject := [("id", VString "8"); ("name", VString "Ann")].

(** A sheet whose second column is named [__proto__]. *)
Definition protoHeaderRow : Row := rowOfCells 1 [textCell "id"; textCell "__proto__"].
Definition protoDataRow : Row := rowOfCells 2 [textCell "1"; textCell "x"].
Definition protoBook : Workbook :=
  [mkWorksheet (Some "Sheet1") [protoHeaderRow; protoDataRow]].

(** A sheet with two columns of different names and one data row. *)
Definition plainBook : Workbook :=
  [mkWorksheet (Some "Sheet1")
     [rowOfCells 1 [textCell "id"; textCell "name"];
      rowOfCells 2 [textCell "9"; textCell "Bob"]]].

(** The row of empty cells at the header row number. *)
Definition blankFirstRow : Row := rowOfCells 1 [textCell ""; emptyCell; textCell ""].

Definition keepEmptyRows : XlsxReadOptions :=
  mkReadOptions None None None None None None None None None (Some false)
                None None None None.

(** A handler that fails at once on the row with [id] 8 and returns a
    promise on any other row. *)
Definition boom : Error := PlainError "boom".
Definition failingHandler (row : RowObject) : BatchProcessor.HandlerResult :=
  match getProp "id" row with
  | Some (VString "8") => BatchProcessor.HandlerThrows boom
  | _ => BatchProcessor.HandlerPromise
  end.
Definition otherObject : RowObject := [("id", VString "9"); ("name", VString "Bob")].

(** The moves of the platform for a window of two rows under a cap of 8:
    both rows are launched, the wait-all starts, the two handlers are
    called, the failure of the first goes through its [finally] callback
    and the wait-all, and the body resumes. *)
Definition wideSchedule : list BatchProcessor.Choice :=
  [BatchProcessor.RunMain; BatchProcessor.RunMain; BatchProcessor.RunMain;
   BatchProcessor.RunJob; BatchProcessor.RunJob; BatchProcessor.RunJob;
   BatchProcessor.RunJob; BatchProcessor.RunJob].

(** The same under a cap of 1: the first row is launched and raced, its
    handler is called and fails, and the body resumes. *)
Definition narrowSchedule : list BatchProcessor.Choice :=
  [BatchProcessor.RunMain; BatchProcessor.RunJob; BatchProcessor.RunJob;
   BatchProcessor.RunJob; BatchProcessor.RunJob].

(** A concurrency of 2.5. *)
Definition twoAndAHalf : JsNumber := NFinite (5 # 2).

(** Three rows are launched (the third starts the wait for a free slot)
    and the three handlers are called. *)
Definition threeCallsSchedule : list BatchProcessor.Choice :=
  [BatchProcessor.RunMain; BatchProcessor.RunMain; BatchProcessor.RunMain;
   BatchProcessor.RunJob; BatchProcessor.RunJob; BatchProcessor.RunJob].

(** A handler that returns at once on the row with [id] 9, fails at once on
    the row with [id] 8, and returns a promise on any other row. *)
Definition unevenHandler (row : RowObject) : BatchProcessor.HandlerResult :=
  match getProp "id" row with
  | Some (VString "9") => BatchProcessor.HandlerReturns
  | Some (VString "8") => BatchProcessor.HandlerThrows boom
  | _ => BatchProcessor.HandlerPromise
  end.

(** The moves of the platform for a window of three rows under a cap of 2,
    no promise being settled from outside: two rows are launched and raced;
    the jobs run in the order of the queue (the two handler calls, then for
    each invocation its [finally] callback and the element function of the
    race), and the body resumes; the third row is launched, the wait-all
    starts, its handler is called, its [finally] callback and the element
    function of the wait-all run, and the body resumes. *)
Definition lostFailureSchedule : list BatchProcessor.Choice :=
  [BatchProcessor.RunMain; BatchProcessor.RunMain;
   BatchProcessor.RunJob; BatchProcessor.RunJob; BatchProcessor.RunJob;
   BatchProcessor.RunJob; BatchProcessor.RunJob; BatchProcessor.RunJob;
   BatchProcessor.RunJob;
   BatchProcessor.RunMain; BatchProcessor.RunMain;
   BatchProcessor.RunJob; BatchProcessor.RunJob; BatchProcessor.RunJob;
   BatchProcessor.RunJob].

(** *** More sample inputs *)

(** 2024-01-01T12:00:00Z. *)
Definition noonUtc2024 : Z := 1704110400000.

(** A row object with a Date, and what it is written as under Asia/Manila
    by a process that runs in UTC. *)
Definition datedObject : RowObject :=
  [("id", VString "8"); ("due", VDate (ValidDate noonUtc2024))].
Definition datedObjectInManila : RowObject :=
  [("id", VString "8"); ("due", VDate (ValidDate (noonUtc2024 + 8 * hourMs)))].

(** The options that make [name] an array column. *)
Definition nameArrayOptions : XlsxReadOptions :=
  mkReadOptions None None None None None (Some ["name"]) None None None None
                None None None None.

(** The options that ask for a sheet the sample workbook does not have. *)
Definition otherSheetOptions : XlsxReadOptions :=
  mkReadOptions (Some "Other") None None None None None None None None None
                None None None None.

(** A workbook whose third row holds an invalid Date, read under a time
    zone: the reader yields the object of the second row and fails on the
    third. *)
Definition brokenBook : Workbook :=
  [mkWorksheet (Some "Sheet1")
     [headerRow; dataRow; rowOfCells 4 [mkCell (VDate InvalidDate) None]]].

Definition brokenOptions : ProcessLargeOptions :=
  mkProcessOptions (Some (numOfZ 2)) None
    (mkReadOptions None None None None None None None None None None
                   None None None (Some "Asia/Manila")).


Definition oneRowBatches : ProcessLargeOptions :=
  mkProcessOptions (Some (numOfZ 1)) None defaultReadOptions.

(** A handler that returns at once, and the moves of the platform that take
    a window of one row to its end under a cap of 8: the row is launched,
    the wait-all starts, the handler is called, its [finally] callback and
    the element function of the wait-all run, and the body resumes. *)
Definition quietHandler (row : RowObject) : BatchProcessor.HandlerResult :=
  BatchProcessor.HandlerReturns.

Definition calmSchedule : list BatchProcessor.Choice :=
  [BatchProcessor.RunMain; BatchProcessor.RunMain; BatchProcessor.RunJob;
   BatchProcessor.RunJob; BatchProcessor.RunJob; BatchProcessor.RunJob].

(* ================================================================== *)
(** * Properties *)

(** ** TimeZoneClock *)

Section ClockFacts.

Variable intl : IntlHost.

Lemma guessLoop_iterates : forall attempts timeZone localAsUtc guess,
  exists lookups,
    TimeZoneClock.Iterates intl timeZone localAsUtc attempts guess lookups
      (TimeZoneClock.guessLoop intl attempts timeZone localAsUtc guess)
    /\ (lookups <= attempts)%nat.
Proof.
  induction attempts as [|attempts IH]; intros timeZone localAsUtc guess; simpl.
  - exists 0%nat. split; [constructor | lia].
  - destruct (TimeZoneClock.getTimeZoneOffsetMs intl (newDate guess) timeZone)
      as [offset|e] eqn:Hoff; simpl.
    + destruct (intStrictEq (intSub localAsUtc offset) guess) eqn:Heq.
      * exists 1%nat. split; [|lia].
        eapply TimeZoneClock.iterates_converge; eauto.
      * destruct (IH timeZone localAsUtc (intSub localAsUtc offset))
          as [lookups [Hit Hle]].
        exists (S lookups). split; [|lia].
        eapply TimeZoneClock.iterates_again; eauto.
    + exists 1%nat. split; [|lia].
      apply TimeZoneClock.iterates_throw; assumption.
Qed.

Lemma iterates_deterministic : forall timeZone localAsUtc attempts guess lookups result,
  TimeZoneClock.Iterates intl timeZone localAsUtc attempts guess lookups result ->
  forall lookups' result',
    TimeZoneClock.Iterates intl timeZone localAsUtc attempts guess lookups' result' ->
    lookups' = lookups /\ result' = result.
Proof.
  induction 1; intros lookups' result' H'; inversion H'; subst;
    repeat match goal with
    | [ H1 : ?x = Return ?o1, H2 : ?x = Return ?o2 |- _ ] =>
        assert (o1 = o2) by congruence; subst o2; clear H2
    | [ H1 : ?x = Throw ?o1, H2 : ?x = Throw ?o2 |- _ ] =>
        assert (o1 = o2) by congruence; subst o2; clear H2
    end;
    try (split; reflexivity); try congruence.
  match goal with
  | [ H : TimeZoneClock.Iterates _ _ _ _ _ _ _ |- _ ] =>
      destruct (IHIterates _ _ H) as [-> ->]
  end.
  split; reflexivity.
Qed.

(** C1 (amended): [localDateTimeInZoneToUtc] starts from the wall-clock
    fields read as UTC ([localAsUtc]); a round looks up the offset at the
    guess and takes [localAsUtc - offset] as the candidate (the initial
    value minus the offset, not the guess minus the offset); it stops on
    the guess when the candidate equals it, goes on with the candidate
    otherwise, and makes at most 4 offset lookups; a failing lookup is
    the result.  The run and its result are unique. *)
Theorem localDateTimeInZoneToUtc_iteration : forall parts timeZone,
  let localAsUtc := TimeZoneClock.toUtcMillis parts in
  exists lookups result,
    TimeZoneClock.Iterates intl timeZone localAsUtc 4 localAsUtc lookups result
    /\ (lookups <= 4)%nat
    /\ TimeZoneClock.localDateTimeInZoneToUtc intl parts timeZone
       = (guess <- result ;; Return (newDate guess))
    /\ (forall lookups' result',
          TimeZoneClock.Iterates intl timeZone localAsUtc 4 localAsUtc lookups' result' ->
          lookups' = lookups /\ result' = result).
Proof.
  intros parts timeZone localAsUtc.
  destruct (guessLoop_iterates 4 timeZone localAsUtc localAsUtc) as [lookups [Hit Hle]].
  exists lookups, (TimeZoneClock.guessLoop intl 4 timeZone localAsUtc localAsUtc).
  repeat split; try assumption.
  - eapply iterates_deterministic; eauto.
  - eapply iterates_deterministic; eauto.
Qed.

(** C2 (amended): when the offset that the zone shows at [t] is shown
    again at the first instant the iteration probes ([t + offset], the
    wall-clock fields of [t] read as UTC), or else at the second one (that
    instant minus the offset found there), the wall-clock fields of [t]
    convert back to [t]. *)
Theorem zone_round_trip : forall timeZone t offset probed,
  inTimeRange t = true ->
  TimeZoneClock.getTimeZoneOffsetMs intl (ValidDate t) timeZone = Return (Some offset) ->
  TimeZoneClock.getTimeZoneOffsetMs intl (newDate (Some (t + offset))) timeZone
    = Return (Some probed) ->
  probed = offset
  \/ (probed <> 0
      /\ TimeZoneClock.getTimeZoneOffsetMs intl
           (newDate (Some (t + offset - probed))) timeZone = Return (Some offset)) ->
  (parts <- TimeZoneClock.getTimeZoneParts intl (ValidDate t) timeZone ;;
   TimeZoneClock.localDateTimeInZoneToUtc intl parts timeZone)
  = Return (ValidDate t).
Proof.
  intros timeZone t offset probed Hrange Hat Hfirst Hcases.
  pose proof Hat as Hat'.
  unfold TimeZoneClock.getTimeZoneOffsetMs in Hat.
  destruct (TimeZoneClock.getTimeZoneParts intl (ValidDate t) timeZone)
    as [parts|e] eqn:Hparts; simpl in Hat; [|discriminate].
  simpl.
  destruct (TimeZoneClock.toUtcMillis parts) as [l|] eqn:Hl; simpl in Hat;
    [|discriminate].
  assert (l = t + offset) by (injection Hat; lia). subst l.
  assert (Hnew : newDate (Some t) = ValidDate t)
    by (unfold newDate; rewrite Hrange; reflexivity).
  unfold TimeZoneClock.localDateTimeInZoneToUtc. rewrite Hl.
  cbn [TimeZoneClock.guessLoop]. rewrite Hfirst. cbn [bind intSub intStrictEq].
  destruct Hcases as [->|[Hnz Hsecond]].
  - replace (t + offset - offset) with t by lia.
    destruct (t =? t + offset) eqn:Hfix.
    + apply Z.eqb_eq in Hfix. cbn [bind]. rewrite <- Hfix, Hnew. reflexivity.
    + rewrite Hnew, Hat'. cbn [bind intSub intStrictEq].
      replace (t + offset - offset) with t by lia.
      rewrite Z.eqb_refl. cbn [bind]. rewrite Hnew. reflexivity.
  - assert (Hmove : (t + offset - probed =? t + offset) = false)
      by (apply Z.eqb_neq; lia).
    rewrite Hmove, Hsecond. cbn [bind intSub intStrictEq].
    replace (t + offset - offset) with t by lia.
    destruct (t =? t + offset - probed) eqn:Hfix.
    + apply Z.eqb_eq in Hfix. cbn [bind]. rewrite <- Hfix, Hnew. reflexivity.
    + rewrite Hnew, Hat'. cbn [bind intSub intStrictEq].
      replace (t + offset - offset) with t by lia.
      rewrite Z.eqb_refl. cbn [bind]. rewrite Hnew. reflexivity.
Qed.

End ClockFacts.

(** C1: on the wall-clock reading 2024-01-01 12:00 in Asia/Manila, the code
    returns 04:00 UTC of that day, and the iteration as the specification
    words it ends a day earlier. *)
Lemma spec_iteration_differs :
  TimeZoneClock.localDateTimeInZoneToUtc sampleIntl noon2024 "Asia/Manila"
    = Return (ValidDate 1704081600000)
  /\ TimeZoneClock.specToUtcInstant sampleIntl noon2024 "Asia/Manila"
    = Return (ValidDate 1703995200000)
  /\ TimeZoneClock.localDateTimeInZoneToUtc sampleIntl noon2024 "Asia/Manila"
    <> TimeZoneClock.specToUtcInstant sampleIntl noon2024 "Asia/Manila".
Proof.
  assert (H1 : TimeZoneClock.localDateTimeInZoneToUtc sampleIntl noon2024 "Asia/Manila"
               = Return (ValidDate 1704081600000)) by (vm_compute; reflexivity).
  assert (H2 : TimeZoneClock.specToUtcInstant sampleIntl noon2024 "Asia/Manila"
               = Return (ValidDate 1703995200000)) by (vm_compute; reflexivity).
  split; [exact H1|]. split; [exact H2|].
  rewrite H1, H2. discriminate.
Qed.

(** C2: half an hour after the end of daylight time in New York
    (2024-11-03T06:30:00Z) no change of offset occurs: the offset is the
    same a millisecond before and after, and the zone keeps it from the
    transition on.  The wall clock reads 01:30, and converts back to
    05:30:00Z, an hour before the instant. *)
Lemma round_trip_fails_after_fall_back :
  let offsetAt t := TimeZoneClock.getTimeZoneOffsetMs sampleIntl (ValidDate t) "America/New_York" in
  inTimeRange halfPastFallBack = true
  /\ offsetAt (halfPastFallBack - 1) = Return (Some (-5 * hourMs))
  /\ offsetAt halfPastFallBack = Return (Some (-5 * hourMs))
  /\ offsetAt (halfPastFallBack + 1) = Return (Some (-5 * hourMs))
  /\ (forall u, newYorkFallBack2024 <= u -> newYorkOffset u = -5 * hourMs)
  /\ (parts <- TimeZoneClock.getTimeZoneParts sampleIntl (ValidDate halfPastFallBack)
                 "America/New_York" ;;
      TimeZoneClock.localDateTimeInZoneToUtc sampleIntl parts "America/New_York")
     = Return (ValidDate (halfPastFallBack - hourMs))
  /\ ValidDate (halfPastFallBack - hourMs) <> ValidDate halfPastFallBack.
Proof.
  cbv zeta.
  split; [vm_compute; reflexivity|].
  split; [vm_compute; reflexivity|].
  split; [vm_compute; reflexivity|].
  split; [vm_compute; reflexivity|].
  split.
  { intros u Hu. unfold newYorkOffset.
    destruct (u <? newYorkFallBack2024) eqn:Hlt; [|reflexivity].
    apply Z.ltb_lt in Hlt. lia. }
  split; [vm_compute; reflexivity|].
  vm_compute. discriminate.
Qed.

(** A run of [zone_round_trip]: 2024-11-03T10:30:00Z in New York, four
    and a half hours after the end of daylight time; the first probe falls
    before the transition and the second after it. *)
Lemma zone_round_trip_witness :
  (parts <- TimeZoneClock.getTimeZoneParts sampleIntl
              (ValidDate (newYorkFallBack2024 + 16200000)) "America/New_York" ;;
   TimeZoneClock.localDateTimeInZoneToUtc sampleIntl parts "America/New_York")
  = Return (ValidDate (newYorkFallBack2024 + 16200000)).
Proof.
  apply (@zone_round_trip sampleIntl "America/New_York"
           (newYorkFallBack2024 + 16200000) (-5 * hourMs) (-4 * hourMs)).
  - vm_compute. reflexivity.
  - vm_compute. reflexivity.
  - vm_compute. reflexivity.
  - right. split; [discriminate | vm_compute; reflexivity].
Defined.

(** ** CellNormalizer *)

Section NormalizerFacts.

Variable intl : IntlHost.

(** C5 (amended): for a formula cell that carries a cached result,
    [normalizeCellValue] returns that result as it is, null when it is
    undefined or null, whatever the options, the number format and the
    formula; the result is not normalized again. *)
Theorem normalizeCellValue_formula_result :
  forall props fmt result parseDates date1904 timeZone,
    getProp "result" props = Some result ->
    CellNormalizer.normalizeCellValue intl (mkCell (VObject props) fmt)
                                      parseDates date1904 timeZone
    = Return (CellNormalizer.orNull result).
Proof.
  intros props fmt result parseDates date1904 timeZone Hresult.
  unfold CellNormalizer.normalizeCellValue. cbn.
  rewrite Hresult. reflexivity.
Qed.

Lemma reinterpret_invalid : forall tz,
  TimeZoneClock.reinterpretDateToTimeZone intl InvalidDate tz
  = Throw (PlainError "Invalid date").
Proof. reflexivity. Qed.

(** C6 (amended): a numeric cell whose serial cannot form a finite
    timestamp is returned as the raw number only when dates are not parsed
    or the format has none of the letters d, m, y, h, s; otherwise
    [normalizeCellValue] returns the invalid Date when no time zone is
    configured, and fails with [Invalid date] when one is.
    [normalizeCellValue] fails only under a configured time zone, and only
    on a Date or on a number that dates are parsed for and whose format has
    one of these letters: the format decides between the raw number and a
    failure. *)
Theorem normalizeCellValue_unformable_serial :
  forall serial fmt parseDates date1904 timeZone,
    excelSerialToDate serial date1904 = InvalidDate ->
    CellNormalizer.normalizeCellValue intl (mkCell (VNumber serial) fmt)
                                      parseDates date1904 timeZone
    = (if parseDates && hasDateFormat fmt
       then match truthyString timeZone with
            | Some _ => Throw (PlainError "Invalid date")
            | None => Return (VDate InvalidDate)
            end
       else Return (VNumber serial))
    /\ (forall cell,
          isThrow (CellNormalizer.normalizeCellValue intl cell parseDates
                                                     date1904 timeZone) = true ->
          truthyString timeZone <> None
          /\ match cellValue cell with
             | VDate _ => True
             | VNumber _ => parseDates && hasDateFormat (numFmt cell) = true
             | _ => False
             end).
Proof.
  intros serial fmt parseDates date1904 timeZone Hinvalid. split.
  - unfold CellNormalizer.normalizeCellValue. cbn.
    destruct (parseDates && hasDateFormat fmt); [|reflexivity].
    rewrite Hinvalid.
    destruct (truthyString timeZone); [|reflexivity].
    rewrite reinterpret_invalid. reflexivity.
  - intros [value cellFmt]. unfold CellNormalizer.normalizeCellValue. cbn.
    destruct value; cbn; try discriminate.
    + destruct (parseDates && hasDateFormat cellFmt); [|discriminate].
      destruct (truthyString timeZone); [|discriminate].
      intros _. split; [discriminate | reflexivity].
    + destruct (truthyString timeZone); [|discriminate].
      intros _. split; [discriminate | exact I].
    + destruct (getProp "result" props); discriminate.
Qed.

End NormalizerFacts.

(** C5: a cached serial 45000 under a date format stays a number, where the
    plain cell becomes a Date; a cached Date is not reinterpreted in the
    configured zone, where the plain cell is. *)
Lemma formula_result_not_normalized :
  (CellNormalizer.normalizeCellValue sampleIntl
     (formulaCell (VNumber serial45000) (Some "yyyy-mm-dd")) true false None
   = Return (VNumber serial45000)
   /\ CellNormalizer.normalizeCellValue sampleIntl
        (mkCell (VNumber serial45000) (Some "yyyy-mm-dd")) true false None
      = Return (VDate march15))
  /\ (CellNormalizer.normalizeCellValue sampleIntl
        (formulaCell (VDate march15) None) true false (Some "Asia/Manila")
      = Return (VDate march15)
      /\ CellNormalizer.normalizeCellValue sampleIntl
           (mkCell (VDate march15) None) true false (Some "Asia/Manila")
         = Return (VDate (ValidDate (1678838400000 - 8 * hourMs)))).
Proof.
  split; split; vm_compute; reflexivity.
Qed.

Lemma normalizeCellValue_formula_result_witness :
  CellNormalizer.normalizeCellValue sampleIntl
    (formulaCell (VNumber serial45000) (Some "yyyy-mm-dd")) true false (Some "Asia/Manila")
  = Return (VNumber serial45000).
Proof.
  apply (@normalizeCellValue_formula_result sampleIntl
           [("formula", VString "A1+1"); ("result", VNumber serial45000)]
           (Some "yyyy-mm-dd") (VNumber serial45000) true false (Some "Asia/Manila")).
  reflexivity.
Defined.

(** C6: the date-formatted serial 10^12 is not returned as the raw number:
    without a time zone the result is an invalid Date, with one the call
    fails.  The call fails as well under the number format [[Red]0.00],
    whose colour name has the letter d, where under [0.00] it returns the
    number. *)
Lemma unformable_serial_not_raw :
  CellNormalizer.normalizeCellValue sampleIntl
    (mkCell (VNumber hugeSerial) (Some "yyyy-mm-dd")) true false None
  = Return (VDate InvalidDate)
  /\ CellNormalizer.normalizeCellValue sampleIntl
       (mkCell (VNumber hugeSerial) (Some "yyyy-mm-dd")) true false (Some "Asia/Manila")
     = Throw (PlainError "Invalid date")
  /\ Return (VDate InvalidDate) <> Return (VNumber hugeSerial)
  /\ @Throw JsValue (PlainError "Invalid date") <> Return (VNumber hugeSerial)
  /\ CellNormalizer.normalizeCellValue sampleIntl
       (mkCell (VNumber hugeSerial) (Some "[Red]0.00")) true false (Some "Asia/Manila")
     = Throw (PlainError "Invalid date")
  /\ CellNormalizer.normalizeCellValue sampleIntl
       (mkCell (VNumber hugeSerial) (Some "0.00")) true false (Some "Asia/Manila")
     = Return (VNumber hugeSerial).
Proof.
  split; [vm_compute; reflexivity|].
  split; [vm_compute; reflexivity|].
  split; [discriminate|]. split; [discriminate|].
  split; vm_compute; reflexivity.
Qed.

Lemma normalizeCellValue_unformable_serial_witness :
  CellNormalizer.normalizeCellValue sampleIntl
    (mkCell (VNumber hugeSerial) (Some "0.00")) true false (Some "Asia/Manila")
  = Return (VNumber hugeSerial).
Proof.
  apply (proj1 (@normalizeCellValue_unformable_serial sampleIntl hugeSerial
                  (Some "0.00") true false (Some "Asia/Manila") eq_refl)).
Defined.

(** ** Row objects *)

Section PropsFacts.

Lemma hasProp_In : forall k o, hasProp k o = true <-> In k (keysOf o).
Proof.
  intros k o. unfold hasProp.
  induction o as [|[k' v'] o IH]; simpl.
  - split; [discriminate | tauto].
  - destruct (k' =? k)%string eqn:E.
    + apply String.eqb_eq in E. split; auto.
    + apply String.eqb_neq in E. rewrite IH.
      split; [auto | intros [H|H]; [congruence | auto]].
Qed.

Lemma keysOf_replaceProp : forall k v o, keysOf (replaceProp k v o) = keysOf o.
Proof.
  intros k v o. induction o as [|[k' v'] o IH]; simpl; [reflexivity|].
  destruct (k' =? k)%string; simpl; [reflexivity | f_equal; exact IH].
Qed.

Lemma getProp_replaceProp_same : forall k v o,
  In k (keysOf o) -> getProp k (replaceProp k v o) = Some v.
Proof.
  intros k v o. induction o as [|[k' v'] o IH]; simpl; [tauto|].
  intros Hin. destruct (k' =? k)%string eqn:E; simpl; rewrite E; [reflexivity|].
  apply String.eqb_neq in E. destruct Hin as [H|H]; [congruence | auto].
Qed.

Lemma getProp_replaceProp_other : forall k k' v o,
  k' <> k -> getProp k' (replaceProp k v o) = getProp k' o.
Proof.
  intros k k' v o Hne. induction o as [|[k0 v0] o IH]; simpl; [reflexivity|].
  destruct (k0 =? k)%string eqn:E; simpl.
  - apply String.eqb_eq in E. subst k0.
    assert (E' : (k =? k')%string = false) by (apply String.eqb_neq; congruence).
    rewrite E'. reflexivity.
  - destruct (k0 =? k')%string; [reflexivity | exact IH].
Qed.

Lemma keysOf_insertIndexProp : forall n k v o x,
  In x (keysOf (insertIndexProp n k v o)) <-> x = k \/ In x (keysOf o).
Proof.
  intros n k v o x. induction o as [|[k' v'] o IH]; simpl.
  - intuition.
  - destruct (arrayIndexOf k') as [n'|]; [destruct (n' <? n)%N|]; simpl;
      try rewrite IH; intuition.
Qed.

Lemma getProp_insertIndexProp_same : forall n k v o,
  ~ In k (keysOf o) -> getProp k (insertIndexProp n k v o) = Some v.
Proof.
  intros n k v o. induction o as [|[k' v'] o IH]; simpl; intros Hnin.
  - rewrite String.eqb_refl. reflexivity.
  - destruct (arrayIndexOf k') as [n'|]; [destruct (n' <? n)%N|]; simpl;
      try (rewrite String.eqb_refl; reflexivity).
    assert (E : (k' =? k)%string = false) by (apply String.eqb_neq; intuition).
    rewrite E. apply IH. intuition.
Qed.

Lemma getProp_insertIndexProp_other : forall n k k' v o,
  k' <> k -> getProp k' (insertIndexProp n k v o) = getProp k' o.
Proof.
  intros n k k' v o Hne.
  assert (E : (k =? k')%string = false) by (apply String.eqb_neq; congruence).
  induction o as [|[k0 v0] o IH]; simpl.
  - rewrite E. reflexivity.
  - destruct (arrayIndexOf k0) as [n'|]; [destruct (n' <? n)%N|]; simpl;
      try (rewrite E; reflexivity).
    destruct (k0 =? k')%string; [reflexivity | exact IH].
Qed.

Lemma NoDup_insertIndexProp : forall n k v o,
  NoDup (keysOf o) -> ~ In k (keysOf o) ->
  NoDup (keysOf (insertIndexProp n k v o)).
Proof.
  intros n k v o. induction o as [|[k' v'] o IH]; simpl; intros Hnd Hnin.
  - constructor; [tauto | constructor].
  - destruct (arrayIndexOf k') as [n'|]; [destruct (n' <? n)%N|]; simpl;
      try (constructor; [simpl; exact Hnin | exact Hnd]).
    inversion Hnd; subst. constructor.
    + rewrite keysOf_insertIndexProp. intuition.
    + apply IH; intuition.
Qed.

Lemma getProp_app_new : forall k v o,
  ~ In k (keysOf o) -> getProp k (o ++ [(k, v)])%list = Some v.
Proof.
  intros k v o. induction o as [|[k' v'] o IH]; simpl; intros Hnin.
  - rewrite String.eqb_refl. reflexivity.
  - assert (E : (k' =? k)%string = false) by (apply String.eqb_neq; intuition).
    rewrite E. apply IH. intuition.
Qed.

Lemma getProp_app_other : forall k k' v o,
  k' <> k -> getProp k' (o ++ [(k, v)])%list = getProp k' o.
Proof.
  intros k k' v o Hne.
  assert (E : (k =? k')%string = false) by (apply String.eqb_neq; congruence).
  induction o as [|[k0 v0] o IH]; simpl.
  - rewrite E. reflexivity.
  - destruct (k0 =? k')%string; [reflexivity | exact IH].
Qed.

Lemma NoDup_snoc : forall (A : Type) (l : list A) (a : A),
  NoDup l -> ~ In a l -> NoDup (l ++ [a])%list.
Proof.
  intros A l a. induction l as [|b l IH]; simpl; intros Hnd Hnin.
  - constructor; [tauto | constructor].
  - inversion Hnd; subst. constructor.
    + rewrite in_app_iff. simpl. intuition.
    + apply IH; intuition.
Qed.

Lemma setProp_keys : forall k v o x,
  In x (keysOf (setProp k v o)) <-> x = k \/ In x (keysOf o).
Proof.
  intros k v o x. unfold setProp.
  destruct (hasProp k o) eqn:Hhas.
  - rewrite keysOf_replaceProp. apply hasProp_In in Hhas.
    split; [auto | intros [->|H]; auto].
  - destruct (arrayIndexOf k).
    + apply keysOf_insertIndexProp.
    + unfold keysOf. rewrite map_app, in_app_iff. simpl. intuition.
Qed.

Lemma setProp_NoDup : forall k v o,
  NoDup (keysOf o) -> NoDup (keysOf (setProp k v o)).
Proof.
  intros k v o Hnd. unfold setProp.
  destruct (hasProp k o) eqn:Hhas.
  - rewrite keysOf_replaceProp. exact Hnd.
  - assert (Hnin : ~ In k (keysOf o)).
    { intros Hin. apply hasProp_In in Hin. congruence. }
    destruct (arrayIndexOf k).
    + apply NoDup_insertIndexProp; assumption.
    + unfold keysOf in *. rewrite map_app. simpl.
      apply NoDup_snoc; assumption.
Qed.

Lemma getProp_setProp_same : forall k v o, getProp k (setProp k v o) = Some v.
Proof.
  intros k v o. unfold setProp.
  destruct (hasProp k o) eqn:Hhas.
  - apply getProp_replaceProp_same. apply hasProp_In. exact Hhas.
  - assert (Hnin : ~ In k (keysOf o)).
    { intros Hin. apply hasProp_In in Hin. congruence. }
    destruct (arrayIndexOf k).
    + apply getProp_insertIndexProp_same. exact Hnin.
    + apply getProp_app_new. exact Hnin.
Qed.

Lemma getProp_setProp_other : forall k k' v o,
  k' <> k -> getProp k' (setProp k v o) = getProp k' o.
Proof.
  intros k k' v o Hne. unfold setProp.
  destruct (hasProp k o).
  - apply getProp_replaceProp_other. exact Hne.
  - destruct (arrayIndexOf k).
    + apply getProp_insertIndexProp_other. exact Hne.
    + apply getProp_app_other. exact Hne.
Qed.

End PropsFacts.

Lemma setProp_In : forall k v o k' v',
  In (k', v') (setProp k v o) -> (k', v') = (k, v) \/ In (k', v') o.
Proof.
  intros k v o k' v'. unfold setProp.
  destruct (hasProp k o).
  - induction o as [|[k0 v0] o IH]; simpl; [tauto|].
    destruct (k0 =? k)%string eqn:E; simpl.
    + apply String.eqb_eq in E. subst k0.
      intros [H|H]; [left; congruence | right; right; exact H].
    + intros [H|H]; [right; left; exact H|].
      destruct (IH H) as [H'|H']; [left; exact H' | right; right; exact H'].
  - destruct (arrayIndexOf k) as [n|].
    + induction o as [|[k0 v0] o IH]; simpl.
      * intros [H|H]; [left; congruence | tauto].
      * destruct (arrayIndexOf k0) as [n'|]; [destruct (n' <? n)%N|]; simpl;
          try (intros [H|H]; [left; congruence | right; exact H]).
        intros [H|H]; [right; left; exact H|].
        destruct (IH H) as [H'|H']; [left; exact H' | right; right; exact H'].
    + rewrite in_app_iff. simpl.
      intros [H|[H|H]]; [right; exact H | left; congruence | tauto].
Qed.

Lemma assignProp_cases : forall b k v o,
  (k = protoKey /\ ~ In k (keysOf o) /\ b = true
   /\ assignProp b k v o = (inheritsProtoAfter v, o))
  \/ assignProp b k v o = (b, setProp k v o).
Proof.
  intros b k v o. unfold assignProp.
  destruct (k =? protoKey)%string eqn:Ek; cbn [andb]; [|right; reflexivity].
  destruct (hasProp k o) eqn:Hhas; cbn [negb andb]; [right; reflexivity|].
  destruct b; [|right; reflexivity].
  left. apply String.eqb_eq in Ek.
  split; [exact Ek|]. split; [|split; reflexivity].
  intros Hin. apply hasProp_In in Hin. congruence.
Qed.

Lemma assignProp_plain : forall b k v o,
  k <> protoKey -> assignProp b k v o = (b, setProp k v o).
Proof.
  intros b k v o Hne. unfold assignProp.
  apply String.eqb_neq in Hne. rewrite Hne. reflexivity.
Qed.

Lemma assignProp_keys : forall b k v o x,
  In x (keysOf (snd (assignProp b k v o))) -> x = k \/ In x (keysOf o).
Proof.
  intros b k v o x.
  destruct (assignProp_cases b k v o) as [[_ [_ [_ ->]]]| ->]; simpl.
  - auto.
  - apply setProp_keys.
Qed.

Lemma assignProp_keeps : forall b k v o x,
  In x (keysOf o) -> In x (keysOf (snd (assignProp b k v o))).
Proof.
  intros b k v o x Hin.
  destruct (assignProp_cases b k v o) as [[_ [_ [_ ->]]]| ->]; simpl.
  - exact Hin.
  - apply setProp_keys. right. exact Hin.
Qed.

Lemma assignProp_NoDup : forall b k v o,
  NoDup (keysOf o) -> NoDup (keysOf (snd (assignProp b k v o))).
Proof.
  intros b k v o Hnd.
  destruct (assignProp_cases b k v o) as [[_ [_ [_ ->]]]| ->]; simpl.
  - exact Hnd.
  - apply setProp_NoDup. exact Hnd.
Qed.

Lemma assignProp_In : forall b k v o k' v',
  In (k', v') (snd (assignProp b k v o)) -> (k', v') = (k, v) \/ In (k', v') o.
Proof.
  intros b k v o k' v'.
  destruct (assignProp_cases b k v o) as [[_ [_ [_ ->]]]| ->]; simpl.
  - auto.
  - apply setProp_In.
Qed.

Lemma getProp_assignProp_other : forall b k k' v o,
  k' <> k -> getProp k' (snd (assignProp b k v o)) = getProp k' o.
Proof.
  intros b k k' v o Hne.
  destruct (assignProp_cases b k v o) as [[_ [_ [_ ->]]]| ->]; simpl.
  - reflexivity.
  - apply getProp_setProp_other. exact Hne.
Qed.

(** ** RowMaterializer *)

Section RowFacts.

Variable intl : IntlHost.
Variable host : JsHost.
Variable opts : XlsxReadOptions.

Local Abbreviation columnValue := (RowMaterializer.columnValue intl opts).
Local Abbreviation fillObject := (RowMaterializer.fillObject intl opts).
Local Abbreviation rowStep := (RowMaterializer.rowStep intl host opts).
Local Abbreviation sheetLoop := (RowMaterializer.sheetLoop intl host opts).
Local Abbreviation mapHeaders := (RowMaterializer.mapHeaders host opts).

Lemma fillObject_spec : forall row hs i b obj obj',
  fillObject row hs i b obj = Return obj' ->
  (forall k, In k (keysOf obj') -> In k (keysOf obj) \/ In k (map propertyKey hs))
  /\ (forall k, In k (keysOf obj) -> In k (keysOf obj'))
  /\ (forall k, In k (map propertyKey hs) -> k <> protoKey -> In k (keysOf obj'))
  /\ (NoDup (keysOf obj) -> NoDup (keysOf obj'))
  /\ (forall k, ~ In k (map propertyKey hs) -> getProp k obj' = getProp k obj)
  /\ (forall j name,
        nth_error hs j = Some name ->
        propertyKey name <> protoKey ->
        (forall j' name', (j < j')%nat -> nth_error hs j' = Some name' ->
                          propertyKey name' <> propertyKey name) ->
        exists v, columnValue row (i + j) name = Return v
                  /\ getProp (propertyKey name) obj' = Some v).
Proof.
  intros row hs. induction hs as [|c rest IH]; intros i b obj obj' Hfill.
  - simpl in Hfill. injection Hfill as <-.
    split; [intros k Hk; left; exact Hk|]. split; [intros k Hk; exact Hk|].
    split; [intros k []|]. split; [intros Hnd; exact Hnd|].
    split; [reflexivity|]. intros j name Hj. destruct j; discriminate.
  - simpl in Hfill.
    destruct (columnValue row i c) as [v|e] eqn:Hv; cbn [bind] in Hfill; [|discriminate].
    destruct (assignProp b (propertyKey c) v obj) as [b1 obj1] eqn:Hassign.
    assert (Hobj1 : obj1 = snd (assignProp b (propertyKey c) v obj))
      by (rewrite Hassign; reflexivity).
    destruct (IH _ _ _ _ Hfill) as [Hsub [Hold [Hnew [Hnd [Hother Hlast]]]]].
    split; [|split; [|split; [|split; [|split]]]].
    + intros k Hin. apply Hsub in Hin. destruct Hin as [Hin|Hin].
      * rewrite Hobj1 in Hin. apply assignProp_keys in Hin. simpl.
        destruct Hin as [->|Hin]; auto.
      * simpl. auto.
    + intros k Hin. apply Hold. rewrite Hobj1. apply assignProp_keeps. exact Hin.
    + intros k Hin Hne. simpl in Hin. destruct Hin as [Heq|Hin].
      * apply Hold. subst k.
        rewrite (assignProp_plain b v obj Hne) in Hassign.
        injection Hassign as _ <-. apply setProp_keys. left. reflexivity.
      * apply Hnew; assumption.
    + intros Hobj. apply Hnd. rewrite Hobj1. apply assignProp_NoDup. exact Hobj.
    + intros k Hnin. simpl in Hnin.
      rewrite Hother by tauto. rewrite Hobj1.
      apply getProp_assignProp_other. intros ->. tauto.
    + intros j name Hj Hplain Hlater. destruct j as [|j].
      * simpl in Hj. injection Hj as ->.
        exists v. split; [rewrite Nat.add_0_r; exact Hv|].
        rewrite Hother.
        -- rewrite (assignProp_plain b v obj Hplain) in Hassign.
           injection Hassign as _ <-. apply getProp_setProp_same.
        -- intros Hin. apply in_map_iff in Hin. destruct Hin as [name' [Heq Hin]].
           apply In_nth_error in Hin. destruct Hin as [j' Hj'].
           apply (Hlater (S j') name'); [lia | exact Hj' | exact Heq].
      * simpl in Hj.
        destruct (Hlast j name Hj Hplain) as [v' [Hv' Hget]].
        -- intros j' name' Hlt Hj'. apply (Hlater (S j') name'); [lia | exact Hj'].
        -- exists v'. split; [|exact Hget].
           replace (i + S j)%nat with (S i + j)%nat by lia. exact Hv'.
Qed.

Lemma fillObject_proto : forall row hs i obj obj',
  fillObject row hs i true obj = Return obj' ->
  ~ In protoKey (keysOf obj) ->
  (count_occ string_dec (map propertyKey hs) protoKey <= 1)%nat ->
  ~ In protoKey (keysOf obj').
Proof.
  intros row hs. induction hs as [|c rest IH]; intros i obj obj' Hfill Hnin Hcount.
  - simpl in Hfill. injection Hfill as <-. exact Hnin.
  - simpl in Hfill.
    destruct (columnValue row i c) as [v|e] eqn:Hv; cbn [bind] in Hfill; [|discriminate].
    cbn [map] in Hcount.
    destruct (string_dec (propertyKey c) protoKey) as [Heq|Hne].
    + rewrite count_occ_cons_eq in Hcount by exact Heq.
      assert (Hrest : ~ In protoKey (map propertyKey rest)).
      { apply count_occ_not_In with (eq_dec := string_dec). lia. }
      assert (Hassign : assignProp true (propertyKey c) v obj
                        = (inheritsProtoAfter v, obj)).
      { unfold assignProp. rewrite Heq, String.eqb_refl.
        destruct (hasProp protoKey obj) eqn:Hhas; [|reflexivity].
        apply hasProp_In in Hhas. contradiction. }
      rewrite Hassign in Hfill.
      destruct (fillObject_spec _ _ _ _ _ Hfill) as [Hsub _].
      intros Hin. apply Hsub in Hin. tauto.
    + rewrite count_occ_cons_neq in Hcount by exact Hne.
      rewrite (assignProp_plain true v obj Hne) in Hfill.
      apply (IH _ _ _ Hfill); [|exact Hcount].
      intros Hin. apply setProp_keys in Hin. destruct Hin as [Hin|Hin]; [|tauto].
      apply Hne. symmetry. exact Hin.
Qed.

Lemma fillObject_cells : forall row row' hs i b obj,
  (forall c, (i < c <= i + List.length hs)%nat -> getCell row' c = getCell row c) ->
  fillObject row' hs i b obj = fillObject row hs i b obj.
Proof.
  intros row row' hs. induction hs as [|c rest IH]; intros i b obj Hcells.
  - reflexivity.
  - simpl. unfold RowMaterializer.columnValue.
    rewrite (Hcells (i + 1)%nat) by (simpl; lia).
    destruct (CellNormalizer.normalizeCellValue intl (getCell row (i + 1))
                (RowMaterializer.optParseDates opts) (RowMaterializer.optDate1904 opts)
                (timeZone opts)); cbn [bind]; [|reflexivity].
    match goal with
    | [ |- context [assignProp ?b0 ?k ?v ?o] ] => destruct (assignProp b0 k v o)
    end.
    apply IH. intros c' Hc'. apply Hcells. simpl. lia.
Qed.

Lemma rowStep_cases : forall headers row,
  rowStep headers row = Return (headers, None)
  \/ (exists hs', numStrictEq (numOfZ (number row))
                              (RowMaterializer.optHeaderRowNumber opts) = true
                  /\ mapHeaders (RowMaterializer.getRowValues row) 0 = Return hs'
                  /\ rowStep headers row = Return (Some hs', None))
  \/ (exists e, rowStep headers row = Throw e)
  \/ (exists hs obj, headers = Some hs
                     /\ fillObject row hs 0 true [] = Return obj
                     /\ rowStep headers row = Return (headers, Some obj)).
Proof.
  intros headers row. unfold RowMaterializer.rowStep.
  destruct (RowMaterializer.optSkipEmptyRows opts &&
            RowMaterializer.isEmptyRow (RowMaterializer.getRowValues row));
    [left; reflexivity|].
  destruct (numStrictEq (numOfZ (number row)) (RowMaterializer.optHeaderRowNumber opts)).
  - destruct (mapHeaders (RowMaterializer.getRowValues row) 0) as [hs'|e] eqn:Hmap; simpl.
    + right. left. exists hs'. repeat split.
    + right. right. left. exists e. reflexivity.
  - destruct headers as [hs|]; [|left; reflexivity].
    destruct (fillObject row hs 0 true []) as [obj|e] eqn:Hfill; simpl.
    + right. right. right. exists hs, obj. repeat split. exact Hfill.
    + right. right. left. exists e. reflexivity.
Qed.

Lemma sheetLoop_emitted : forall all rs headers obj,
  incl rs all ->
  (forall hs, headers = Some hs ->
     exists hrow, In hrow all
                  /\ numStrictEq (numOfZ (number hrow))
                       (RowMaterializer.optHeaderRowNumber opts) = true
                  /\ mapHeaders (RowMaterializer.getRowValues hrow) 0 = Return hs) ->
  In obj (fst (sheetLoop headers rs)) ->
  exists hs hrow row,
    In hrow all
    /\ numStrictEq (numOfZ (number hrow))
         (RowMaterializer.optHeaderRowNumber opts) = true
    /\ mapHeaders (RowMaterializer.getRowValues hrow) 0 = Return hs
    /\ In row all
    /\ fillObject row hs 0 true [] = Return obj.
Proof.
  intros all rs. induction rs as [|row rest IH]; intros headers obj Hincl Hhead Hin.
  - simpl in Hin. tauto.
  - assert (Hrow : In row all) by (apply Hincl; left; reflexivity).
    assert (Hrest : incl rest all) by (intros x Hx; apply Hincl; right; exact Hx).
    simpl in Hin.
    destruct (rowStep_cases headers row)
      as [Hs | [[hs' [Hnum [Hmap Hs]]] | [[e Hs] | [hs [o [Hh [Hfill Hs]]]]]]];
      rewrite Hs in Hin.
    + apply (IH headers obj Hrest Hhead Hin).
    + apply (IH (Some hs') obj Hrest); [|exact Hin].
      intros hs0 Heq. injection Heq as <-. exists row. repeat split; assumption.
    + simpl in Hin. tauto.
    + destruct (sheetLoop headers rest) as [objs failure] eqn:Hloop.
      simpl in Hin. destruct Hin as [<-|Hin].
      * destruct (Hhead hs Hh) as [hrow [Hhrow [Hnum Hmap]]].
        exists hs, hrow, row. repeat split; assumption.
      * apply (IH headers obj Hrest Hhead). rewrite Hloop. exact Hin.
Qed.

Lemma xlsxToObjects_emitted : forall input obj,
  In obj (fst (RowMaterializer.xlsxToObjects intl host opts input)) ->
  exists worksheet hs hrow row,
    In worksheet input
    /\ In hrow (rows worksheet)
    /\ numStrictEq (numOfZ (number hrow))
         (RowMaterializer.optHeaderRowNumber opts) = true
    /\ mapHeaders (RowMaterializer.getRowValues hrow) 0 = Return hs
    /\ In row (rows worksheet)
    /\ fillObject row hs 0 true [] = Return obj.
Proof.
  intros input obj. unfold RowMaterializer.xlsxToObjects.
  destruct (match truthyString (timeZone opts) with
            | Some tz => TimeZoneClock.assertValidTimeZone intl tz
            | None => Return tt
            end); [|simpl; tauto].
  induction input as [|worksheet rest IH]; simpl; [tauto|].
  match goal with
  | [ |- In obj (fst (if ?skip then _ else _)) -> _ ] => destruct skip
  end.
  - intros Hin. destruct (IH Hin) as [ws [hs [hrow [row [Hws H]]]]].
    exists ws, hs, hrow, row. split; [right; exact Hws | exact H].
  - destruct (sheetLoop None (rows worksheet)) as [objs [e|]] eqn:Hloop.
    + simpl. intros Hin.
      destruct (@sheetLoop_emitted (rows worksheet) (rows worksheet) None obj)
        as [hs [hrow [row H]]].
      * apply incl_refl.
      * intros hs Heq. discriminate.
      * rewrite Hloop. exact Hin.
      * exists worksheet, hs, hrow, row. split; [left; reflexivity | exact H].
    + destruct (RowMaterializer.workbookLoop intl host opts rest) as [objs' failure].
      simpl. intros Hin. apply in_app_or in Hin. destruct Hin as [Hin|Hin].
      * destruct (@sheetLoop_emitted (rows worksheet) (rows worksheet) None obj)
          as [hs [hrow [row H]]].
        -- apply incl_refl.
        -- intros hs Heq. discriminate.
        -- rewrite Hloop. exact Hin.
        -- exists worksheet, hs, hrow, row. split; [left; reflexivity | exact H].
      * destruct (IH Hin) as [ws [hs [hrow [row [Hws H]]]]].
        exists ws, hs, hrow, row. split; [right; exact Hws | exact H].
Qed.

(** C10 (amended): an object that [xlsxToObjects] yields comes from a row
    of a sheet and the header array [hs] that a header row of that sheet
    resolved to.  Its keys are names of [hs] (a hole of the array reads as
    undefined and gives the key "undefined"), each once, and every name of
    [hs] other than [__proto__] is a key; [__proto__] is no key when at most
    one column has this name.  The value under a name other than
    [__proto__] is the value of the last column that has this name; and
    only the cells of the columns 1 to the length of [hs] are read: a row
    that has the same cells there yields the same object. *)
Theorem emitted_row_keys : forall input obj,
  In obj (fst (RowMaterializer.xlsxToObjects intl host opts input)) ->
  exists worksheet hs hrow row,
    In worksheet input
    /\ In hrow (rows worksheet)
    /\ mapHeaders (RowMaterializer.getRowValues hrow) 0 = Return hs
    /\ In row (rows worksheet)
    /\ (forall k, In k (keysOf obj) -> In k (map propertyKey hs))
    /\ (forall k, In k (map propertyKey hs) -> k <> protoKey -> In k (keysOf obj))
    /\ ((count_occ string_dec (map propertyKey hs) protoKey <= 1)%nat ->
        ~ In protoKey (keysOf obj))
    /\ NoDup (keysOf obj)
    /\ (forall j name,
          nth_error hs j = Some name ->
          propertyKey name <> protoKey ->
          (forall j' name', (j < j')%nat -> nth_error hs j' = Some name' ->
                            propertyKey name' <> propertyKey name) ->
          exists v, columnValue row j name = Return v
                    /\ getProp (propertyKey name) obj = Some v)
    /\ (forall row',
          (forall c, (1 <= c <= List.length hs)%nat -> getCell row' c = getCell row c) ->
          fillObject row' hs 0 true [] = Return obj).
Proof.
  intros input obj Hin.
  destruct (xlsxToObjects_emitted input obj Hin)
    as [worksheet [hs [hrow [row [Hws [Hhrow [_ [Hmap [Hrow Hfill]]]]]]]]].
  exists worksheet, hs, hrow, row.
  destruct (fillObject_spec row hs 0 true [] Hfill)
    as [Hsub [_ [Hnew [Hnd [_ Hlast]]]]].
  split; [exact Hws|]. split; [exact Hhrow|]. split; [exact Hmap|].
  split; [exact Hrow|]. split; [|split; [|split; [|split; [|split]]]].
  - intros k H. apply Hsub in H. simpl in H. tauto.
  - exact Hnew.
  - intros Hcount. apply (fillObject_proto row hs 0 [] Hfill); [simpl; tauto | exact Hcount].
  - apply Hnd. constructor.
  - exact Hlast.
  - intros row' Hcells. rewrite <- Hfill.
    apply fillObject_cells. intros c Hc. apply Hcells. lia.
Qed.

Lemma sameCells_empty : forall row,
  sameCells row ->
  RowMaterializer.isEmptyRow (RowMaterializer.getRowValues row) = true ->
  forall i, RowMaterializer.isEmptyValue (cellValue (getCell row (i + 1))) = true.
Proof.
  intros row Hsame Hempty i. specialize (Hsame i).
  unfold RowMaterializer.isEmptyRow in Hempty. rewrite forallb_forall in Hempty.
  destruct (nth_error (RowMaterializer.getRowValues row) i) as [[v|]|] eqn:Hnth.
  - rewrite Hsame. apply nth_error_In in Hnth. apply (Hempty _ Hnth).
  - unfold RowMaterializer.isEmptyValue. rewrite Hsame. reflexivity.
  - unfold RowMaterializer.isEmptyValue. rewrite Hsame. reflexivity.
Qed.

Lemma columnValue_blank : forall row i name,
  RowMaterializer.isEmptyValue (cellValue (getCell row (i + 1))) = true ->
  exists v, columnValue row i name = Return v /\ isBlank v = true.
Proof.
  intros row i name Hempty.
  unfold RowMaterializer.columnValue, CellNormalizer.normalizeCellValue.
  destruct (cellValue (getCell row (i + 1))) as [| | | | |s| | |] eqn:Hv;
    try discriminate; cbn.
  - unfold RowMaterializer.maybeConvertToArray.
    destruct (setHas _ name); cbn; eexists; split; reflexivity.
  - unfold RowMaterializer.maybeConvertToArray.
    destruct (setHas _ name); cbn; eexists; split; reflexivity.
  - cbn in Hempty. apply String.eqb_eq in Hempty. subst s.
    unfold RowMaterializer.maybeConvertToArray.
    destruct (RowMaterializer.shouldTrimColumn _ _ name);
      destruct (setHas _ name); cbn; eexists; split; reflexivity.
Qed.

Lemma fillObject_blank : forall row hs i b obj,
  (forall j, RowMaterializer.isEmptyValue (cellValue (getCell row (j + 1))) = true) ->
  (forall k v, In (k, v) obj -> isBlank v = true) ->
  exists obj', fillObject row hs i b obj = Return obj'
               /\ (forall k v, In (k, v) obj' -> isBlank v = true).
Proof.
  intros row hs. induction hs as [|c rest IH]; intros i b obj Hcells Hobj.
  - exists obj. split; [reflexivity | exact Hobj].
  - simpl. destruct (columnValue_blank row i c (Hcells i)) as [v [Hv Hblank]].
    rewrite Hv. cbn [bind].
    destruct (assignProp b (propertyKey c) v obj) as [b1 obj1] eqn:Hassign.
    apply IH; [exact Hcells|].
    intros k' v' Hin.
    assert (Hin' : In (k', v') (snd (assignProp b (propertyKey c) v obj)))
      by (rewrite Hassign; exact Hin).
    apply assignProp_In in Hin'. destruct Hin' as [Heq|Hin'].
    + injection Heq as _ ->. exact Hblank.
    + apply (Hobj _ _ Hin').
Qed.

(** C7 (amended): a row whose raw values are all null or the empty string
    (a hole of the array counts as empty).  With [skipEmptyRows] the row is
    passed over before the test for the header row: it yields nothing and
    leaves the header array as it was, whatever its number.  Without
    [skipEmptyRows] the row is classified as any other row: at the header
    row number it becomes the header and yields nothing; before a header is
    resolved it yields nothing; as a data row (a header array is in force,
    the row is not at the header row number) it yields an object that has
    only null, empty-string or empty-array values, under keys that are
    names of the header array, every name other than [__proto__] among
    them. *)
Theorem empty_row_policy : forall headers row rest,
  RowMaterializer.isEmptyRow (RowMaterializer.getRowValues row) = true ->
  (RowMaterializer.optSkipEmptyRows opts = true ->
     rowStep headers row = Return (headers, None)
     /\ sheetLoop headers (row :: rest) = sheetLoop headers rest)
  /\ (RowMaterializer.optSkipEmptyRows opts = false ->
      (numStrictEq (numOfZ (number row)) (RowMaterializer.optHeaderRowNumber opts) = true ->
       rowStep headers row
       = (hs <- mapHeaders (RowMaterializer.getRowValues row) 0 ;; Return (Some hs, None)))
      /\ (numStrictEq (numOfZ (number row)) (RowMaterializer.optHeaderRowNumber opts) = false ->
          headers = None ->
          rowStep headers row = Return (None, None))
      /\ (forall hs,
            headers = Some hs ->
            numStrictEq (numOfZ (number row)) (RowMaterializer.optHeaderRowNumber opts) = false ->
            sameCells row ->
            exists obj,
              rowStep headers row = Return (headers, Some obj)
              /\ (forall k, In k (keysOf obj) -> In k (map propertyKey hs))
              /\ (forall k, In k (map propertyKey hs) -> k <> protoKey ->
                            In k (keysOf obj))
              /\ (forall k v, In (k, v) obj -> isBlank v = true)
              /\ fst (sheetLoop headers (row :: rest))
                 = obj :: fst (sheetLoop headers rest))).
Proof.
  intros headers row rest Hempty. split.
  - intros Hskip.
    assert (Hstep : rowStep headers row = Return (headers, None)).
    { unfold RowMaterializer.rowStep. rewrite Hskip, Hempty. reflexivity. }
    split; [exact Hstep|]. simpl. rewrite Hstep. reflexivity.
  - intros Hskip. split; [|split].
    + intros Hnumber. unfold RowMaterializer.rowStep.
      rewrite Hskip, Hnumber. reflexivity.
    + intros Hnumber Hheaders. unfold RowMaterializer.rowStep.
      rewrite Hskip, Hnumber, Hheaders. reflexivity.
    + intros hs Hheaders Hnumber Hsame.
      destruct (fillObject_blank row hs 0 true [] (sameCells_empty Hsame Hempty))
        as [obj [Hfill Hblank]]; [intros k v []|].
      exists obj.
      assert (Hstep : rowStep headers row = Return (headers, Some obj)).
      { unfold RowMaterializer.rowStep. rewrite Hskip, Hnumber, Hheaders. simpl.
        rewrite Hfill. reflexivity. }
      destruct (fillObject_spec row hs 0 true [] Hfill) as [Hsub [_ [Hnew _]]].
      split; [exact Hstep|]. split; [|split; [exact Hnew|split; [exact Hblank|]]].
      * intros k H. apply Hsub in H. simpl in H. tauto.
      * simpl. rewrite Hstep.
        destruct (sheetLoop headers rest). reflexivity.
Qed.

End RowFacts.

(** ** RowWriter *)

Section WriterFacts.

Variable intl : IntlHost.
Variable host : JsHost.

Lemma writeRest_no_columns : forall rest timeZone dateColumnsSet,
  RowWriter.columnsSetOn (fst (RowWriter.writeRest intl host rest timeZone dateColumnsSet)) = [].
Proof.
  intros rest timeZone dateColumnsSet. induction rest as [|row rest IH]; simpl.
  - reflexivity.
  - destruct (RowWriter.mapRowForExcelWrite intl host row timeZone dateColumnsSet);
      simpl; [|reflexivity].
    destruct (RowWriter.writeRest intl host rest timeZone dateColumnsSet). exact IH.
Qed.

Lemma columnsSetOn_app : forall a b,
  RowWriter.columnsSetOn (a ++ b)%list
  = (RowWriter.columnsSetOn a ++ RowWriter.columnsSetOn b)%list.
Proof.
  intros a b. induction a as [|ev a IH]; simpl; [reflexivity|].
  destruct ev; simpl; rewrite IH; reflexivity.
Qed.

(** C8 (amended): for a write whose [timeZone] option passes its check
    (the check comes first), the sheet is given one column schema: the
    [columns] option when it is not empty, otherwise the columns inferred
    from the keys of the first row, in the order of the keys; and when that
    leaves no column (no row, or a first row without keys) the write fails
    with the no-columns error, having pulled on the row iterator once and
    done nothing on the sink. *)
Theorem column_resolution : forall output rows opts,
  RowWriter.zoneAccepted intl (wTimeZone opts) = true ->
  let run := RowWriter.objectsToXlsx intl host output rows opts in
  match RowWriter.specColumns opts rows with
  | Some (c :: cs) =>
      RowWriter.columnsSetOn (fst run) = [c :: cs]
      /\ exists later,
           fst run = ([IteratorNext (hd_error rows);
                       NewWorkbookWriter output (orDefault false (useStyles opts))
                                         (orDefault false (useSharedStrings opts));
                       AddWorksheet (orDefault "Sheet1" (wSheetName opts));
                       SetColumns (c :: cs)] ++ later)%list
  | _ =>
      run = ([IteratorNext (hd_error rows)], Throw RowWriter.noColumnsError)
      /\ filter isSinkEvent (fst run) = []
  end
  /\ (forall first, map key (RowWriter.inferColumnsFromRow first) = keysOf first)
  /\ (match columns opts with Some (_ :: _) => False | _ => True end ->
      rows = [] ->
      run = ([IteratorNext None], Throw RowWriter.noColumnsError)).
Proof.
  intros output rows opts Hzone run.
  assert (Hrun : run = RowWriter.objectsToXlsx intl host output rows opts) by reflexivity.
  unfold RowWriter.objectsToXlsx in Hrun.
  unfold RowWriter.zoneAccepted in Hzone.
  assert (Hcheck : (match truthyString (wTimeZone opts) with
                    | Some tz => TimeZoneClock.assertValidTimeZone intl tz
                    | None => Return tt
                    end) = Return tt).
  { destruct (truthyString (wTimeZone opts)); [|reflexivity].
    unfold TimeZoneClock.assertValidTimeZone. rewrite Hzone. reflexivity. }
  rewrite Hcheck in Hrun. clear Hcheck.
  split; [|split].
  - unfold RowWriter.specColumns.
    assert (Hres :
      (match columns opts with
       | Some (c :: cs) => Some (c :: cs)
       | _ => match hd_error rows with
              | None => None
              | Some first => Some (RowWriter.inferColumnsFromRow first)
              end
       end) =
      (match columns opts with
       | Some (c :: cs) => Some (c :: cs)
       | _ => option_map RowWriter.inferColumnsFromRow (hd_error rows)
       end)).
    { destruct (columns opts) as [[|c cs]|]; destruct (hd_error rows); reflexivity. }
    rewrite Hres in Hrun. clear Hres.
    destruct (match columns opts with
              | Some (c :: cs) => Some (c :: cs)
              | _ => option_map RowWriter.inferColumnsFromRow (hd_error rows)
              end) as [[|c cs]|].
    + rewrite Hrun. split; reflexivity.
    + destruct (hd_error rows) as [first|].
      * destruct (RowWriter.mapRowForExcelWrite intl host first (wTimeZone opts) _)
          as [mapped|e].
        -- destruct (RowWriter.writeRest intl host (tl rows) (wTimeZone opts) _)
             as [events result] eqn:Hrest.
           rewrite Hrun. simpl. split.
           ++ f_equal.
              pose proof (writeRest_no_columns (tl rows) (wTimeZone opts)
                            (RowWriter.setOf (orDefault [] (dateColumns opts)))) as Hno.
              rewrite Hrest in Hno. exact Hno.
           ++ eexists. reflexivity.
        -- rewrite Hrun. simpl. split; [reflexivity | exists []; reflexivity].
      * rewrite Hrun. simpl. split; [reflexivity | eexists; reflexivity].
    + rewrite Hrun. split; reflexivity.
  - intros first. unfold RowWriter.inferColumnsFromRow. rewrite map_map. simpl.
    apply map_id.
  - intros Hcols Hrows. subst rows. simpl in Hrun.
    destruct (columns opts) as [[|c cs]|]; [exact Hrun | tauto | exact Hrun].
Qed.

End WriterFacts.

(** ** processXlsxLarge *)

Section ProcessorFacts.

Variable intl : IntlHost.
Variable host : JsHost.
Variable handler : RowObject -> BatchProcessor.HandlerResult.
Variable schedule : nat -> list BatchProcessor.Choice.

(** C9: with a [batchSize] or a [concurrency] that is zero or negative,
    [processXlsxLarge] fails with the error of the first failing check, and
    does nothing before: the reader is not opened, no row is pulled, no
    batch is run. *)
Theorem invalid_sizes_fail_first : forall input opts,
  let size := orDefault (numOfZ 2000) (batchSize opts) in
  let cap := orDefault (numOfZ 8) (concurrency opts) in
  numLe size (numOfZ 0) = true \/ numLe cap (numOfZ 0) = true ->
  Processor.processXlsxLarge intl host handler schedule input opts
  = ([], Rejects (PlainError (if numLe size (numOfZ 0)
                              then "batchSize must be > 0"
                              else "concurrency must be > 0"))).
Proof.
  intros input opts size cap Hbad.
  unfold Processor.processXlsxLarge. fold size. fold cap.
  destruct (numLe size (numOfZ 0)); [reflexivity|].
  destruct Hbad as [Hbad|Hbad]; [discriminate|].
  rewrite Hbad. reflexivity.
Qed.

End ProcessorFacts.

(** ** BatchProcessor *)

Section ListFacts.

Lemma remove_NoDup : forall (x : nat) l, NoDup l -> NoDup (remove Nat.eq_dec x l).
Proof.
  intros x l Hnd. induction Hnd as [|a l Hnin Hnd IH]; simpl.
  - constructor.
  - destruct (Nat.eq_dec x a); [exact IH|].
    constructor; [|exact IH].
    intros Hin. apply in_remove in Hin. tauto.
Qed.

Lemma remove_length : forall (x : nat) l,
  (List.length (remove Nat.eq_dec x l) <= List.length l)%nat.
Proof.
  intros x l. induction l as [|a l IH]; simpl; [lia|].
  destruct (Nat.eq_dec x a); simpl; lia.
Qed.

Lemma remove_snoc_other : forall (x y : nat) l,
  x <> y -> remove Nat.eq_dec x (l ++ [y])%list = (remove Nat.eq_dec x l ++ [y])%list.
Proof.
  intros x y l Hne. rewrite remove_app. simpl.
  destruct (Nat.eq_dec x y); [contradiction | reflexivity].
Qed.

Lemma length_lt_of_missing : forall (x : nat) l l',
  NoDup l -> incl l l' -> In x l' -> ~ In x l ->
  (List.length l < List.length l')%nat.
Proof.
  intros x l l' Hnd Hincl Hin Hnin.
  assert (H : (List.length (x :: l) <= List.length l')%nat).
  { apply NoDup_incl_length.
    - constructor; assumption.
    - intros y [<-|Hy]; [exact Hin | apply Hincl; exact Hy]. }
  simpl in H. lia.
Qed.

End ListFacts.

Section WindowFacts.

Import BatchProcessor.

Variable T : Type.
Variable handler : T -> HandlerResult.

Local Abbreviation Invocation := (BatchProcessor.Invocation T).
Local Abbreviation State := (BatchProcessor.State T).

Lemma updateAt_length : forall i (f : Invocation -> Invocation) invs,
  List.length (updateAt i f invs) = List.length invs.
Proof.
  intros i f invs. revert i. induction invs as [|inv invs IH]; intros [|i]; simpl;
    try reflexivity.
  rewrite IH. reflexivity.
Qed.

Lemma updateAt_same : forall i (f : Invocation -> Invocation) invs inv,
  nth_error invs i = Some inv -> nth_error (updateAt i f invs) i = Some (f inv).
Proof.
  intros i f invs. revert i. induction invs as [|a invs IH]; intros [|i] inv; simpl;
    try discriminate.
  - intros H. injection H as ->. reflexivity.
  - apply IH.
Qed.

Lemma updateAt_other : forall i j (f : Invocation -> Invocation) invs,
  j <> i -> nth_error (updateAt i f invs) j = nth_error invs j.
Proof.
  intros i j f invs. revert i j. induction invs as [|a invs IH]; intros [|i] [|j] Hne;
    simpl; try reflexivity; try contradiction.
  apply IH. congruence.
Qed.

(** An entry of the updated list comes from the entry of the same index. *)
Lemma updateAt_inv : forall i j (f : Invocation -> Invocation) invs inv',
  nth_error (updateAt i f invs) j = Some inv' ->
  exists inv, nth_error invs j = Some inv
              /\ ((j = i /\ inv' = f inv) \/ (j <> i /\ inv' = inv)).
Proof.
  intros i j f invs inv' H.
  destruct (Nat.eq_dec j i) as [->|Hne].
  - destruct (nth_error invs i) as [inv|] eqn:Hi.
    + rewrite (updateAt_same _ _ _ Hi) in H. injection H as <-.
      exists inv. split; [reflexivity | left; split; reflexivity].
    + exfalso. apply nth_error_None in Hi.
      assert (Hlen : nth_error (updateAt i f invs) i <> None) by congruence.
      apply nth_error_Some in Hlen. rewrite updateAt_length in Hlen. lia.
  - rewrite (updateAt_other _ _ Hne) in H.
    exists inv'. split; [exact H | right; split; [exact Hne | reflexivity]].
Qed.

Lemma flightAfter_subset : forall q fl x, In x (flightAfter fl q) -> In x fl.
Proof.
  induction q as [|j q IH]; intros fl x; simpl; [tauto|].
  destruct j as [i|i [|k] o|]; try apply IH.
  intros H. apply IH in H. apply in_remove in H. tauto.
Qed.

Lemma flightAfter_finally : forall q fl i o,
  In (React i OnFinally o) q -> ~ In i (flightAfter fl q).
Proof.
  induction q as [|j q IH]; intros fl i o; simpl; [tauto|].
  intros [Heq|Hin].
  - subst j. intros H. apply flightAfter_subset in H. apply in_remove in H. tauto.
  - destruct j as [i'|i' [|k] o'|]; eapply IH; eassumption.
Qed.

Lemma removedFirst_app : forall q fl q',
  removedFirst fl (q ++ q')%list <->
  removedFirst fl q /\ removedFirst (flightAfter fl q) q'.
Proof.
  induction q as [|j q IH]; intros fl q'; simpl; [tauto|].
  destruct j as [i|i [|k] o|]; try apply IH.
  rewrite IH. tauto.
Qed.

Lemma removedFirst_elements : forall fl i o rs next,
  Forall (isElementReaction next) rs -> ~ In i fl ->
  removedFirst fl (map (fun r => React i r o) rs).
Proof.
  intros fl i o rs next Hrs Hnin. induction Hrs as [|r rs Hr Hrs IH]; simpl; [exact I|].
  destruct r as [|k]; [contradiction|]. split; assumption.
Qed.

Lemma removedFirst_launch : forall q fl x,
  removedFirst fl q ->
  (forall i r o, In (React i r o) q -> i <> x) ->
  removedFirst (fl ++ [x])%list q.
Proof.
  induction q as [|j q IH]; intros fl x Hq Hne; simpl; [exact I|].
  destruct j as [i|i [|k] o|]; simpl in Hq.
  - apply IH; [exact Hq | intros; eapply Hne; right; eassumption].
  - rewrite remove_snoc_other.
    + apply IH; [exact Hq | intros; eapply Hne; right; eassumption].
    + eapply Hne. left. reflexivity.
  - destruct Hq as [Hnin Hq]. split.
    + rewrite in_app_iff. simpl. intros [H|[H|[]]]; [tauto|].
      symmetry in H. revert H. eapply Hne. left. reflexivity.
    + apply IH; [exact Hq | intros; eapply Hne; right; eassumption].
  - apply IH; [exact Hq | intros; eapply Hne; right; eassumption].
Qed.

Lemma Core_next : forall next next' (invs : list Invocation) fl q,
  (next <= next')%nat -> Core next invs fl q -> Core next' invs fl q.
Proof.
  intros next next' invs fl q Hle [Hnd Hknown Heach Hjobs Hfresh Horder].
  constructor; try assumption.
  - intros j inv Hj. specialize (Heach j inv Hj).
    unfold invocationOK in *. destruct (settled inv); [exact Heach|].
    destruct Heach as [Hin [rs [Hrs Hall]]]. split; [exact Hin|].
    exists rs. split; [exact Hrs|].
    eapply Forall_impl; [|exact Hall].
    intros [|k]; simpl; [tauto | lia].
  - eapply Forall_impl; [|exact Hfresh].
    intros [i|i [|k] o|]; simpl; try tauto. lia.
Qed.

Lemma Core_enqueue : forall next (invs : list Invocation) fl q js,
  Core next invs fl q ->
  (forall i r o, In (React i r o) js ->
     exists inv, nth_error invs i = Some inv /\ settled inv <> None) ->
  Forall (jobFresh next) js ->
  removedFirst (flightAfter fl q) js ->
  Core next invs fl (q ++ js)%list.
Proof.
  intros next invs fl q js [Hnd Hknown Heach Hjobs Hfresh Horder] Hjs Hfr Hord.
  constructor; try assumption.
  - intros j inv Hj. specialize (Heach j inv Hj).
    unfold invocationOK in *. destruct (settled inv); [|exact Heach].
    destruct Heach as [Hrs Hfin]. split; [exact Hrs|].
    intros Hin. destruct (Hfin Hin) as [o' Ho']. exists o'.
    apply in_or_app. left. exact Ho'.
  - intros i r o Hin. apply in_app_or in Hin. destruct Hin as [Hin|Hin].
    + eapply Hjobs; eassumption.
    + eapply Hjs; eassumption.
  - apply Forall_app. split; assumption.
  - apply removedFirst_app. split; assumption.
Qed.

Lemma Core_pop : forall next (invs : list Invocation) fl j q,
  Core next invs fl (j :: q) ->
  (forall i o, j <> React i OnFinally o) ->
  Core next invs fl q.
Proof.
  intros next invs fl j q [Hnd Hknown Heach Hjobs Hfresh Horder] Hj.
  constructor; try assumption.
  - intros j' inv Hj'. specialize (Heach j' inv Hj').
    unfold invocationOK in *. destruct (settled inv); [|exact Heach].
    destruct Heach as [Hrs Hfin]. split; [exact Hrs|].
    intros Hin. destruct (Hfin Hin) as [o' [Ho'|Ho']].
    + exfalso. eapply Hj. exact Ho'.
    + exists o'. exact Ho'.
  - intros i r o Hin. eapply Hjobs. right. exact Hin.
  - inversion Hfresh; assumption.
  - destruct j as [i|i [|k] o|]; simpl in Horder; try exact Horder.
    + exfalso. eapply Hj. reflexivity.
    + tauto.
Qed.

Lemma Core_finally : forall next (invs : list Invocation) fl i o q,
  Core next invs fl (React i OnFinally o :: q) ->
  Core next invs (remove Nat.eq_dec i fl) q.
Proof.
  intros next invs fl i o q [Hnd Hknown Heach Hjobs Hfresh Horder].
  destruct (Hjobs i OnFinally o) as [invi [Hi Hsettled]]; [left; reflexivity|].
  constructor.
  - apply remove_NoDup. exact Hnd.
  - intros j Hin. apply in_remove in Hin. apply Hknown. tauto.
  - intros j inv Hj. specialize (Heach j inv Hj).
    unfold invocationOK in *. destruct (settled inv) eqn:Hs.
    + destruct Heach as [Hrs Hfin]. split; [exact Hrs|].
      intros Hin. apply in_remove in Hin. destruct Hin as [Hin Hne].
      destruct (Hfin Hin) as [o' [Ho'|Ho']].
      * exfalso. injection Ho' as H1 H2. apply Hne. symmetry. exact H1.
      * exists o'. exact Ho'.
    + destruct Heach as [Hin Hrs]. split; [|exact Hrs].
      apply in_in_remove; [|exact Hin].
      intros ->. rewrite Hi in Hj. injection Hj as ->. congruence.
  - intros i' r o' Hin. eapply Hjobs. right. exact Hin.
  - inversion Hfresh; assumption.
  - exact Horder.
Qed.

(** An update of an invocation that keeps its promise as it is. *)
Lemma Core_update : forall next (invs : list Invocation) fl q i f,
  (forall inv, settled (f inv) = settled inv /\ reactions (f inv) = reactions inv) ->
  Core next invs fl q ->
  Core next (updateAt i f invs) fl q.
Proof.
  intros next invs fl q i f Hf [Hnd Hknown Heach Hjobs Hfresh Horder].
  constructor; try assumption.
  - intros j Hin. rewrite updateAt_length. apply Hknown. exact Hin.
  - intros j inv' Hj. destruct (updateAt_inv _ _ _ _ Hj) as [inv [Hinv Hcase]].
    specialize (Heach j inv Hinv).
    destruct Hcase as [[_ ->]|[_ ->]]; [|exact Heach].
    unfold invocationOK in *. destruct (Hf inv) as [-> ->]. exact Heach.
  - intros i' r o Hin. destruct (Hjobs i' r o Hin) as [inv [Hinv Hs]].
    destruct (Nat.eq_dec i' i) as [->|Hne].
    + exists (f inv). split; [apply updateAt_same; exact Hinv|].
      destruct (Hf inv) as [-> _]. exact Hs.
    + exists inv. split; [rewrite updateAt_other; assumption | exact Hs].
Qed.

Lemma Core_settle : forall next (invs : list Invocation) fl q i inv o,
  nth_error invs i = Some inv ->
  settled inv = None ->
  Core next invs fl q ->
  Core next
       (updateAt i (fun inv => mkInvocation (item inv) (started inv) (Some o) []) invs)
       fl (q ++ map (fun r => React i r o) (reactions inv))%list.
Proof.
  intros next invs fl q i inv o Hi Hpending Hcore.
  pose proof Hcore as [Hnd Hknown Heach Hjobs Hfresh Horder].
  pose proof (Heach i inv Hi) as Hok. unfold invocationOK in Hok.
  rewrite Hpending in Hok. destruct Hok as [Hin [rs [Hrs Hall]]].
  constructor.
  - exact Hnd.
  - intros j Hj. rewrite updateAt_length. apply Hknown. exact Hj.
  - intros j inv' Hj. destruct (updateAt_inv _ _ _ _ Hj) as [inv0 [Hinv0 Hcase]].
    destruct Hcase as [[-> ->]|[Hne ->]].
    + unfold invocationOK. simpl. split; [reflexivity|].
      intros _. exists o. apply in_or_app. right. rewrite Hrs. left. reflexivity.
    + specialize (Heach j inv0 Hinv0). unfold invocationOK in *.
      destruct (settled inv0); [|exact Heach].
      destruct Heach as [Hr Hfin]. split; [exact Hr|].
      intros Hjn. destruct (Hfin Hjn) as [o' Ho']. exists o'.
      apply in_or_app. left. exact Ho'.
  - intros i' r o' Hjob.
    assert (Hi' : i' = i \/ In (React i' r o') q).
    { apply in_app_or in Hjob. destruct Hjob as [H|H]; [right; exact H|].
      apply in_map_iff in H. destruct H as [r' [Heq _]]. left. congruence. }
    destruct (Nat.eq_dec i' i) as [->|Hne].
    + eexists. split; [apply updateAt_same; exact Hi|]. simpl. discriminate.
    + destruct Hi' as [Heq|Hq]; [contradiction|].
      destruct (Hjobs i' r o' Hq) as [inv' [Hinv' Hs]].
      exists inv'. split; [rewrite updateAt_other; assumption | exact Hs].
  - apply Forall_app. split; [exact Hfresh|].
    rewrite Hrs. simpl. constructor; [exact I|].
    clear -Hall. induction Hall as [|r rs Hr Hall IH]; simpl; constructor.
    + destruct r; [contradiction | exact Hr].
    + exact IH.
  - apply removedFirst_app. split; [exact Horder|].
    rewrite Hrs. simpl.
    eapply removedFirst_elements; [exact Hall|].
    apply remove_In.
Qed.

Lemma Core_register : forall next (invs : list Invocation) fl q j inv k,
  nth_error invs j = Some inv ->
  settled inv = None ->
  (k < next)%nat ->
  Core next invs fl q ->
  Core next
       (updateAt j (fun inv => mkInvocation (item inv) (started inv) (settled inv)
                                 (reactions inv ++ [OnAggregate k])%list) invs)
       fl q.
Proof.
  intros next invs fl q j inv k Hj Hpending Hk [Hnd Hknown Heach Hjobs Hfresh Horder].
  constructor; try assumption.
  - intros j' Hin. rewrite updateAt_length. apply Hknown. exact Hin.
  - intros j' inv' Hj'. destruct (updateAt_inv _ _ _ _ Hj') as [inv0 [Hinv0 Hcase]].
    specialize (Heach j' inv0 Hinv0).
    destruct Hcase as [[-> ->]|[_ ->]]; [|exact Heach].
    rewrite Hj in Hinv0. injection Hinv0 as <-.
    unfold invocationOK in *. simpl. rewrite Hpending in *.
    destruct Heach as [Hin [rs [Hrs Hall]]]. split; [exact Hin|].
    exists (rs ++ [OnAggregate k])%list. split.
    + rewrite Hrs. reflexivity.
    + apply Forall_app. split; [exact Hall|]. constructor; [exact Hk | constructor].
  - intros i r o Hin. destruct (Hjobs i r o Hin) as [inv' [Hinv' Hs]].
    destruct (Nat.eq_dec i j) as [->|Hne].
    + eexists. split; [apply updateAt_same; exact Hinv'|]. simpl. exact Hs.
    + exists inv'. split; [rewrite updateAt_other; assumption | exact Hs].
Qed.

Lemma Core_launch : forall next (invs : list Invocation) fl q x,
  Core next invs fl q ->
  Core next (invs ++ [mkInvocation x false None [OnFinally]])%list
       (fl ++ [List.length invs])%list
       (q ++ [CallHandler (List.length invs)])%list.
Proof.
  intros next invs fl q x [Hnd Hknown Heach Hjobs Hfresh Horder].
  assert (Hnew : ~ In (List.length invs) fl).
  { intros Hin. apply Hknown in Hin. lia. }
  constructor.
  - apply NoDup_snoc; assumption.
  - intros j Hin. rewrite length_app. simpl. apply in_app_or in Hin.
    destruct Hin as [Hin|[<-|[]]]; [apply Hknown in Hin|]; lia.
  - intros j inv Hj.
    destruct (Nat.lt_ge_cases j (List.length invs)) as [Hlt|Hge].
    + rewrite nth_error_app1 in Hj by exact Hlt.
      specialize (Heach j inv Hj). unfold invocationOK in *.
      destruct (settled inv).
      * destruct Heach as [Hr Hfin]. split; [exact Hr|].
        intros Hin. apply in_app_or in Hin. destruct Hin as [Hin|[Heq|[]]]; [|lia].
        destruct (Hfin Hin) as [o' Ho']. exists o'. apply in_or_app. left. exact Ho'.
      * destruct Heach as [Hin Hrs]. split; [|exact Hrs].
        apply in_or_app. left. exact Hin.
    + rewrite nth_error_app2 in Hj by exact Hge.
      destruct (j - List.length invs)%nat as [|d] eqn:Hd; simpl in Hj.
      * injection Hj as <-. unfold invocationOK. simpl. split.
        -- apply in_or_app. right. left. lia.
        -- exists []. split; [reflexivity | constructor].
      * destruct d; discriminate.
  - intros i r o Hin. apply in_app_or in Hin.
    destruct Hin as [Hin|[Heq|[]]]; [|discriminate].
    destruct (Hjobs i r o Hin) as [inv [Hinv Hs]].
    exists inv. split; [|exact Hs].
    rewrite nth_error_app1; [exact Hinv|].
    apply nth_error_Some. congruence.
  - apply Forall_app. split; [exact Hfresh|]. constructor; [exact I | constructor].
  - apply removedFirst_app. split; [|simpl; exact I].
    apply removedFirst_launch; [exact Horder|].
    intros i r o Hin. destruct (Hjobs i r o Hin) as [inv [Hinv _]].
    assert (Hlt : (i < List.length invs)%nat) by (apply nth_error_Some; congruence).
    lia.
Qed.

Lemma racedOnly_fresh : forall next (invs : list Invocation) fl q raced,
  Core next invs fl q -> racedOnly next raced invs q.
Proof.
  intros next invs fl q raced [Hnd Hknown Heach Hjobs Hfresh Horder]. split.
  - intros i o Hin. rewrite Forall_forall in Hfresh.
    specialize (Hfresh _ Hin). simpl in Hfresh. lia.
  - intros j inv Hj Hin. specialize (Heach j inv Hj). unfold invocationOK in Heach.
    destruct (settled inv).
    + destruct Heach as [Hrs _]. rewrite Hrs in Hin. destruct Hin.
    + destruct Heach as [_ [rs [Hrs Hall]]]. rewrite Hrs in Hin.
      destruct Hin as [Hin|Hin]; [discriminate|].
      rewrite Forall_forall in Hall. specialize (Hall _ Hin). simpl in Hall. lia.
Qed.

Lemma subscribeOne_ok : forall k raced (s : State) j,
  In j raced ->
  subscribing k raced s ->
  subscribing k raced (subscribeOne k s j)
  /\ inFlight (subscribeOne k s j) = inFlight s
  /\ unhandledRejections (subscribeOne k s j) = unhandledRejections s.
Proof.
  intros k raced s j Hj [Hcore [Hq Hr]]. unfold subscribeOne, subscribing.
  destruct (nth_error (invocations s) j) as [inv|] eqn:Hinv;
    [|split; [split; [exact Hcore | split; assumption] | split; reflexivity]].
  destruct (settled inv) as [o|] eqn:Hs; simpl.
  - split; [split; [|split] | split; reflexivity].
    + apply Core_enqueue; [exact Hcore | | |].
      * intros i r o' [Heq|[]]. injection Heq as <- _ _.
        exists inv. split; [exact Hinv | congruence].
      * constructor; [simpl; lia | constructor].
      * simpl. split; [|exact I].
        pose proof (core_each Hcore _ Hinv) as Hok. unfold invocationOK in Hok.
        rewrite Hs in Hok. destruct Hok as [_ Hfin].
        destruct (in_dec Nat.eq_dec j (inFlight s)) as [Hin|Hnin].
        -- destruct (Hfin Hin) as [o' Ho']. eapply flightAfter_finally. exact Ho'.
        -- intros H. apply flightAfter_subset in H. contradiction.
    + intros i o' Hin. apply in_app_or in Hin. destruct Hin as [Hin|[Heq|[]]].
      * eapply Hq. exact Hin.
      * injection Heq as <- _. exact Hj.
    + exact Hr.
  - split; [split; [|split] | split; reflexivity].
    + apply Core_register with (inv := inv); try assumption. lia.
    + exact Hq.
    + intros j' inv' Hj' Hin.
      destruct (updateAt_inv _ _ _ _ Hj') as [inv0 [Hinv0 [[-> _]|[_ ->]]]].
      * exact Hj.
      * eapply Hr; eassumption.
Qed.

Lemma subscribe_ok : forall k raced ids (s : State),
  incl ids raced ->
  subscribing k raced s ->
  subscribing k raced (subscribe k ids s)
  /\ inFlight (subscribe k ids s) = inFlight s
  /\ unhandledRejections (subscribe k ids s) = unhandledRejections s.
Proof.
  intros k raced ids. unfold subscribe.
  induction ids as [|j ids IH]; intros s Hincl Hsub; simpl.
  - split; [exact Hsub | split; reflexivity].
  - destruct (@subscribeOne_ok k raced s j) as [Hsub' [Hfl Hun]];
      [apply Hincl; left; reflexivity | exact Hsub |].
    destruct (IH (subscribeOne k s j)) as [Hsub'' [Hfl' Hun']];
      [intros x Hx; apply Hincl; right; exact Hx | exact Hsub' |].
    split; [exact Hsub'' | split; congruence].
Qed.

Section WithCap.

(** The value of [concurrency], and the least size of the set from which
    the test [inFlight.size >= concurrency] holds. *)
Variable concurrency : JsNumber.
Variable cap : Z.
Hypothesis cap_positive : 0 < cap.
Hypothesis numGe_cap : forall n,
  numGe (numOfZ (Z.of_nat n)) concurrency = (cap <=? Z.of_nat n).

Local Abbreviation step := (BatchProcessor.step handler concurrency).
Local Abbreviation run := (BatchProcessor.run handler concurrency).

Lemma Invariant_initial : forall items : list T, Invariant cap (initial items).
Proof.
  intros items. split; simpl.
  - constructor; simpl; try tauto; try constructor.
    intros j inv Hj. destruct j; discriminate.
  - unfold sizeOf. simpl. lia.
Qed.

Lemma mainStep_ok : forall s : State,
  Invariant cap s -> Invariant cap (mainStep concurrency s).
Proof.
  intros s [Hcore Hmain]. unfold mainStep.
  destruct (main s) as [[|x rest]|k raced rest|k remaining|o rest|o] eqn:Hm;
    try (split; [exact Hcore | rewrite Hm; exact Hmain]).
  - (* the items are exhausted: Promise.all *)
    simpl in Hmain.
    destruct (@subscribe_ok (nextAggregate s) (inFlight s) (inFlight s) s)
      as [[Hcore' _] [Hfl _]].
    { apply incl_refl. }
    { split; [eapply Core_next; [|exact Hcore]; lia|].
      eapply racedOnly_fresh. exact Hcore. }
    cbv zeta.
    remember (subscribe (nextAggregate s) (inFlight s) s) as s2 eqn:Hs2.
    assert (Hsize : sizeOf (inFlight s2) <= cap) by (rewrite Hfl; lia).
    destruct (inFlight s) as [|a fl] eqn:Hflight.
    + split; simpl.
      * apply Core_enqueue; [exact Hcore' | | |].
        -- intros i r o [Heq|[]]. discriminate.
        -- constructor; [exact I | constructor].
        -- simpl. exact I.
      * exact Hsize.
    + split; simpl.
      * exact Hcore'.
      * exact Hsize.
  - (* one more round of the loop *)
    simpl in Hmain.
    pose proof (Core_launch x Hcore) as Hlaunch.
    set (i := List.length (invocations s)) in *.
    cbv zeta. cbn [inFlight nextAggregate].
    rewrite numGe_cap.
    assert (Hsize : sizeOf (inFlight s ++ [i])%list = sizeOf (inFlight s) + 1).
    { unfold sizeOf. rewrite length_app. simpl. lia. }
    destruct (cap <=? Z.of_nat (List.length (inFlight s ++ [i])%list)) eqn:Hfull.
    + match goal with
      | [ |- context [subscribe ?k ?ids ?s1] ] =>
          destruct (@subscribe_ok k ids ids s1) as [[Hcore' Hraced] [Hfl _]]
      end.
      { apply incl_refl. }
      { split; simpl.
        - eapply Core_next; [|exact Hlaunch]. lia.
        - eapply racedOnly_fresh. exact Hlaunch. }
      simpl in Hfl. split; simpl.
      * exact Hcore'.
      * rewrite Hfl. repeat split.
        -- apply incl_refl.
        -- apply (core_nodup Hlaunch).
        -- lia.
        -- apply Hraced.
        -- apply Hraced.
    + split; simpl.
      * exact Hlaunch.
      * apply Z.leb_gt in Hfull. unfold sizeOf. lia.
Qed.

Lemma mainOK_pop : forall m (invs : list Invocation) fl j q,
  mainOK cap m invs fl (j :: q) -> mainOK cap m invs fl q.
Proof.
  intros m invs fl j q. unfold mainOK.
  destruct m as [rest|k raced rest|k remaining|o [rest|]|o]; try tauto.
  intros [Hincl [Hnd [Hsize [Hq Hr]]]].
  split; [exact Hincl|]. split; [exact Hnd|]. split; [exact Hsize|].
  split; [|exact Hr].
  intros i o Hin. eapply Hq. right. exact Hin.
Qed.

Lemma mainOK_remove : forall m (invs : list Invocation) fl i q,
  mainOK cap m invs fl q -> mainOK cap m invs (remove Nat.eq_dec i fl) q.
Proof.
  intros m invs fl i q. unfold mainOK, sizeOf.
  pose proof (remove_length i fl) as Hlen.
  destruct m as [rest|k raced rest|k remaining|o [rest|]|o]; try lia.
  intros [Hincl [Hnd [Hsize Hraced]]].
  split; [|split; [exact Hnd | split; [exact Hsize | exact Hraced]]].
  intros x Hx. apply in_remove in Hx. apply Hincl. tauto.
Qed.

Lemma mainOK_update : forall m (invs : list Invocation) fl q i f,
  (forall inv, settled (f inv) = settled inv /\ reactions (f inv) = reactions inv) ->
  mainOK cap m invs fl q -> mainOK cap m (updateAt i f invs) fl q.
Proof.
  intros m invs fl q i f Hf. unfold mainOK.
  destruct m as [rest|k raced rest|k remaining|o [rest|]|o]; try tauto.
  intros [Hincl [Hnd [Hsize [Hq Hr]]]].
  split; [exact Hincl|]. split; [exact Hnd|]. split; [exact Hsize|].
  split; [exact Hq|].
  intros j inv' Hj Hin.
  destruct (updateAt_inv _ _ _ _ Hj) as [inv [Hinv [[-> ->]|[_ ->]]]].
  - destruct (Hf inv) as [_ Hreact]. rewrite Hreact in Hin. eapply Hr; eassumption.
  - eapply Hr; eassumption.
Qed.

Lemma mainOK_settle : forall m (invs : list Invocation) fl q i inv o,
  nth_error invs i = Some inv ->
  mainOK cap m invs fl q ->
  mainOK cap m
         (updateAt i (fun inv => mkInvocation (item inv) (started inv) (Some o) []) invs)
         fl (q ++ map (fun r => React i r o) (reactions inv))%list.
Proof.
  intros m invs fl q i inv o Hi. unfold mainOK.
  destruct m as [rest|k raced rest|k remaining|o' [rest|]|o']; try tauto.
  intros [Hincl [Hnd [Hsize [Hq Hr]]]].
  split; [exact Hincl|]. split; [exact Hnd|]. split; [exact Hsize|].
  split.
  - intros i' o'' Hin. apply in_app_or in Hin. destruct Hin as [Hin|Hin].
    + eapply Hq. exact Hin.
    + apply in_map_iff in Hin. destruct Hin as [r [Heq Hr']].
      injection Heq as <- -> _. eapply Hr; eassumption.
  - intros j inv' Hj Hin.
    destruct (updateAt_inv _ _ _ _ Hj) as [inv0 [Hinv0 [[-> ->]|[_ ->]]]].
    + simpl in Hin. destruct Hin.
    + eapply Hr; eassumption.
Qed.

Lemma mainOK_enqueue_plain : forall m (invs : list Invocation) fl q js,
  (forall i k o, ~ In (React i (OnAggregate k) o) js) ->
  mainOK cap m invs fl q -> mainOK cap m invs fl (q ++ js)%list.
Proof.
  intros m invs fl q js Hjs. unfold mainOK.
  destruct m as [rest|k raced rest|k remaining|o [rest|]|o]; try tauto.
  intros [Hincl [Hnd [Hsize [Hq Hr]]]].
  split; [exact Hincl|]. split; [exact Hnd|]. split; [exact Hsize|].
  split; [|exact Hr].
  intros i o Hin. apply in_app_or in Hin. destruct Hin as [Hin|Hin].
  - eapply Hq. exact Hin.
  - exfalso. eapply Hjs. exact Hin.
Qed.

Lemma settleInvocation_ok : forall (s : State) i o,
  Invariant cap s -> Invariant cap (settleInvocation i o s).
Proof.
  intros s i o [Hcore Hmain]. unfold settleInvocation.
  destruct (nth_error (invocations s) i) as [inv|] eqn:Hi; [|split; assumption].
  destruct (settled inv) eqn:Hs; [split; assumption|].
  split; simpl.
  - apply Core_settle; assumption.
  - apply mainOK_settle; assumption.
Qed.

Lemma runJob_ok : forall (s : State) j q,
  queue s = j :: q ->
  inSynchronousCode s = false ->
  Invariant cap s ->
  Invariant cap
    (runJob handler j
       (mkState (invocations s) (inFlight s) q (main s)
                (nextAggregate s) (unhandledRejections s))).
Proof.
  intros s j q Hq Hsync [Hcore Hmain]. rewrite Hq in Hcore, Hmain.
  destruct j as [i|i [|k] o|].
  - (* the handler is called *)
    assert (Hpop : Core (nextAggregate s) (invocations s) (inFlight s) q).
    { eapply Core_pop; [exact Hcore|]. intros; discriminate. }
    apply mainOK_pop in Hmain.
    unfold runJob. cbn [invocations].
    destruct (nth_error (invocations s) i) as [inv|] eqn:Hi; [|split; assumption].
    assert (Hstarted :
      Invariant cap
        (withInvocations
           (updateAt i (fun inv0 => mkInvocation (item inv0) true (settled inv0)
                                      (reactions inv0)) (invocations s))
           (mkState (invocations s) (inFlight s) q (main s)
                    (nextAggregate s) (unhandledRejections s)))).
    { split; simpl.
      - apply Core_update; [|exact Hpop]. intros; split; reflexivity.
      - apply mainOK_update; [|exact Hmain]. intros; split; reflexivity. }
    destruct (handler (item inv)); try apply settleInvocation_ok; exact Hstarted.
  - (* the callback of finally *)
    split; simpl.
    + eapply Core_finally. exact Hcore.
    + apply mainOK_remove. eapply mainOK_pop. exact Hmain.
  - (* the element function of an aggregate *)
    assert (Hpop : Core (nextAggregate s) (invocations s) (inFlight s) q).
    { eapply Core_pop; [exact Hcore|]. intros; discriminate. }
    pose proof (core_order Hcore) as Horder. simpl in Horder.
    destruct Horder as [Hgone _].
    pose proof (@mainOK_pop _ _ _ _ _ Hmain) as Hmain'.
    unfold runJob, aggregateReaction. cbn [main].
    assert (Hresume : forall m,
              mainOK cap m (invocations s) (inFlight s) (q ++ [Resume])%list ->
              Invariant cap
                (enqueue [Resume]
                   (withMain m
                      (mkState (invocations s) (inFlight s) q (main s)
                               (nextAggregate s) (unhandledRejections s))))).
    { intros m Hm. split; simpl; [|exact Hm].
      apply Core_enqueue; [exact Hpop | | |].
      - intros i' r o' [Heq|[]]. discriminate.
      - constructor; [exact I | constructor].
      - simpl. exact I. }
    destruct (main s) as [rest|k' raced rest|k' remaining|o' rest|o'] eqn:Hm;
      try (split; simpl; [exact Hpop | exact Hmain']).
    + (* a race *)
      destruct (k =? k')%nat eqn:Hk;
        [|split; simpl; [exact Hpop | exact Hmain']].
      apply Nat.eqb_eq in Hk. subst k'.
      apply Hresume. unfold mainOK.
      destruct Hmain as [Hincl [Hnd [Hsize [Hraced _]]]].
      assert (Hin : In i raced) by (eapply Hraced; left; reflexivity).
      pose proof (@length_lt_of_missing i _ _ (core_nodup Hcore) Hincl Hin Hgone) as Hlt.
      unfold sizeOf in *. lia.
    + (* a wait-all *)
      destruct (k =? k')%nat;
        [|split; simpl; [exact Hpop | exact Hmain']].
      simpl in Hmain'.
      destruct o as [|e].
      * destruct (remaining - 1)%nat.
        -- apply Hresume. exact Hmain'.
        -- split; simpl; [exact Hpop | exact Hmain'].
      * apply Hresume. exact Hmain'.
  - (* the continuation of the body *)
    assert (Hpop : Core (nextAggregate s) (invocations s) (inFlight s) q).
    { eapply Core_pop; [exact Hcore|]. intros; discriminate. }
    pose proof (@mainOK_pop _ _ _ _ _ Hmain) as Hmain'.
    unfold runJob. cbn [main].
    destruct (main s) as [rest|k' raced rest|k' remaining|[|e] [rest|]|o'] eqn:Hm;
      try (split; simpl; [exact Hpop | exact Hmain']);
      split; simpl; try exact Hpop; simpl in Hmain'; unfold sizeOf in *; lia.
Qed.

Lemma step_ok : forall (s : State) c,
  Invariant cap s -> Invariant cap (step s c).
Proof.
  intros s [| |i o] Hinv; simpl.
  - apply mainStep_ok. exact Hinv.
  - unfold jobStep. destruct (inSynchronousCode s) eqn:Hsync; [exact Hinv|].
    destruct (queue s) as [|j q] eqn:Hq; [exact Hinv|].
    apply runJob_ok; assumption.
  - unfold settleStep. destruct (inSynchronousCode s); [exact Hinv|].
    destruct (nth_error (invocations s) i) as [inv|]; [|exact Hinv].
    destruct (started inv); [|exact Hinv].
    destruct (settled inv); [exact Hinv|].
    apply settleInvocation_ok. exact Hinv.
Qed.

Lemma run_ok : forall schedule (s : State),
  Invariant cap s -> Invariant cap (run s schedule).
Proof.
  induction schedule as [|c schedule IH]; intros s Hinv; simpl; [exact Hinv|].
  apply IH. apply step_ok. exact Hinv.
Qed.

End WithCap.

Lemma keeps_refl : forall invs : list Invocation, keeps invs invs.
Proof. intros invs j inv o Hj Hs. exists inv. split; assumption. Qed.

Lemma keeps_trans : forall a b c : list Invocation,
  keeps a b -> keeps b c -> keeps a c.
Proof.
  intros a b c Hab Hbc j inv o Hj Hs.
  destruct (Hab j inv o Hj Hs) as [inv' [Hj' Hs']].
  apply (Hbc j inv' o Hj' Hs').
Qed.

Lemma keeps_failedWith : forall (invs invs' : list Invocation) e,
  keeps invs invs' -> failedWith invs e -> failedWith invs' e.
Proof.
  intros invs invs' e Hkeeps [j [inv [Hj Hs]]].
  destruct (Hkeeps j inv _ Hj Hs) as [inv' [Hj' Hs']].
  exists j, inv'. split; assumption.
Qed.

(** An update that leaves a settled promise as it is. *)
Lemma keeps_updateAt : forall i (f : Invocation -> Invocation) invs,
  (forall inv o, settled inv = Some o -> settled (f inv) = Some o) ->
  keeps invs (updateAt i f invs).
Proof.
  intros i f invs Hf j inv o Hj Hs.
  destruct (Nat.eq_dec j i) as [->|Hne].
  - exists (f inv). split; [apply updateAt_same; exact Hj | apply Hf; exact Hs].
  - exists inv. split; [rewrite updateAt_other; assumption | exact Hs].
Qed.

Lemma keeps_app : forall invs more : list Invocation,
  keeps invs (invs ++ more)%list.
Proof.
  intros invs more j inv o Hj Hs. exists inv. split; [|exact Hs].
  rewrite nth_error_app1; [exact Hj|]. apply nth_error_Some. congruence.
Qed.

Lemma queueBlame_keeps : forall (invs invs' : list Invocation) q,
  keeps invs invs' -> queueBlame invs q -> queueBlame invs' q.
Proof.
  intros invs invs' q Hkeeps Hq i r e Hin.
  eapply keeps_failedWith; [exact Hkeeps|]. eapply Hq. exact Hin.
Qed.

Lemma queueBlame_app : forall (invs : list Invocation) q q',
  queueBlame invs q -> queueBlame invs q' -> queueBlame invs (q ++ q')%list.
Proof.
  intros invs q q' Hq Hq' i r e Hin. apply in_app_or in Hin.
  destruct Hin as [Hin|Hin]; [eapply Hq | eapply Hq']; exact Hin.
Qed.

Lemma settleInvocation_blame : forall (s : State) i o,
  queueBlame (invocations s) (queue s) ->
  keeps (invocations s) (invocations (settleInvocation i o s))
  /\ queueBlame (invocations (settleInvocation i o s)) (queue (settleInvocation i o s))
  /\ main (settleInvocation i o s) = main s.
Proof.
  intros s i o Hq. unfold settleInvocation.
  destruct (nth_error (invocations s) i) as [inv|] eqn:Hi;
    [|split; [apply keeps_refl | split; [exact Hq | reflexivity]]].
  destruct (settled inv) eqn:Hs;
    [split; [apply keeps_refl | split; [exact Hq | reflexivity]]|].
  simpl.
  assert (Hkeeps : keeps (invocations s)
            (updateAt i (fun inv0 => mkInvocation (item inv0) (started inv0) (Some o) [])
                      (invocations s))).
  { intros j inv0 o0 Hj Hs0. destruct (Nat.eq_dec j i) as [->|Hne].
    - rewrite Hi in Hj. injection Hj as <-. congruence.
    - exists inv0. split; [rewrite updateAt_other; assumption | exact Hs0]. }
  split; [exact Hkeeps|]. split; [|reflexivity].
  apply queueBlame_app.
  - eapply queueBlame_keeps; eassumption.
  - intros i' r e Hin. apply in_map_iff in Hin. destruct Hin as [r' [Heq _]].
    injection Heq as <- _ ->.
    exists i. eexists. split; [apply updateAt_same; exact Hi | reflexivity].
Qed.

Lemma subscribe_blame : forall k ids (s : State),
  queueBlame (invocations s) (queue s) ->
  keeps (invocations s) (invocations (subscribe k ids s))
  /\ queueBlame (invocations (subscribe k ids s)) (queue (subscribe k ids s)).
Proof.
  intros k ids. unfold subscribe.
  induction ids as [|j ids IH]; intros s Hq; simpl.
  - split; [apply keeps_refl | exact Hq].
  - assert (Hone : keeps (invocations s) (invocations (subscribeOne k s j))
                   /\ queueBlame (invocations (subscribeOne k s j))
                                 (queue (subscribeOne k s j))).
    { unfold subscribeOne.
      destruct (nth_error (invocations s) j) as [inv|] eqn:Hj;
        [|split; [apply keeps_refl | exact Hq]].
      destruct (settled inv) as [o|] eqn:Hs; simpl.
      - split; [apply keeps_refl|].
        apply queueBlame_app; [exact Hq|].
        intros i r e [Heq|[]]. injection Heq as <- _ ->.
        exists j, inv. split; assumption.
      - assert (Hkeeps : keeps (invocations s)
                  (updateAt j (fun inv0 => mkInvocation (item inv0) (started inv0)
                                 (settled inv0) (reactions inv0 ++ [OnAggregate k])%list)
                            (invocations s))).
        { apply keeps_updateAt. intros inv0 o0 H0. exact H0. }
        split; [exact Hkeeps|]. eapply queueBlame_keeps; eassumption. }
    destruct Hone as [Hk1 Hq1]. destruct (IH _ Hq1) as [Hk2 Hq2].
    split; [eapply keeps_trans; eassumption | exact Hq2].
Qed.

Section WithConcurrency.

Variable concurrency : JsNumber.

Local Abbreviation step := (BatchProcessor.step handler concurrency).
Local Abbreviation run := (BatchProcessor.run handler concurrency).

Lemma Blame_initial : forall items : list T, Blame (initial items).
Proof.
  intros items. split; simpl; [intros i r e []|exact I].
Qed.

Lemma step_blame : forall (s : State) c, Blame s -> Blame (step s c).
Proof.
  intros s c [Hq Hm]. destruct c as [| |i o]; simpl.
  - (* the body *)
    unfold mainStep.
    destruct (main s) as [[|x rest]|k raced rest|k remaining|o rest|o] eqn:Hmain;
      try (split; [exact Hq | rewrite Hmain; exact Hm]).
    + destruct (@subscribe_blame (nextAggregate s) (inFlight s) s Hq) as [_ Hq'].
      cbv zeta. destruct (inFlight s); split; simpl; try exact I; try exact Hq'.
      apply queueBlame_app; [exact Hq'|]. intros i r e [Heq|[]]. discriminate.
    + cbv zeta. cbn [inFlight nextAggregate].
      assert (Hq1 : queueBlame
                (invocations s ++ [mkInvocation x false None [OnFinally]])%list
                (queue s ++ [CallHandler (List.length (invocations s))])%list).
      { apply queueBlame_app.
        - eapply queueBlame_keeps; [apply keeps_app | exact Hq].
        - intros i r e [Heq|[]]. discriminate. }
      match goal with
      | [ |- context [if ?b then _ else _] ] => destruct b
      end.
      * match goal with
        | [ |- context [subscribe ?k ?ids ?s1] ] =>
            destruct (@subscribe_blame k ids s1 Hq1) as [_ Hq']
        end.
        split; simpl; [exact Hq' | exact I].
      * split; simpl; [exact Hq1 | exact I].
  - (* a job *)
    unfold jobStep. destruct (inSynchronousCode s); [split; assumption|].
    destruct (queue s) as [|j q] eqn:Hqueue; [split; [rewrite Hqueue|]; assumption|].
    assert (Hq0 : queueBlame (invocations s) q).
    { intros i r e Hin. eapply Hq. right. exact Hin. }
    destruct j as [i|i [|k] o|]; unfold runJob; cbn [invocations main].
    + destruct (nth_error (invocations s) i) as [inv|] eqn:Hi;
        [|split; simpl; assumption].
      set (s1 := withInvocations _ _).
      assert (Hk1 : keeps (invocations s) (invocations s1)).
      { subst s1. simpl. apply keeps_updateAt. intros inv0 o0 H0. exact H0. }
      assert (Hq1 : queueBlame (invocations s1) (queue s1)).
      { eapply queueBlame_keeps; [exact Hk1 | exact Hq0]. }
      assert (Hm1 : match main s with
                    | Waking (Rejected e) _ => failedWith (invocations s1) e
                    | Done (Rejected e) => failedWith (invocations s1) e
                    | _ => True
                    end).
      { destruct (main s) as [|? ? ?|? ?|[|e] ?|[|e]]; try exact I;
          eapply keeps_failedWith; eassumption. }
      destruct (handler (item inv)).
      * destruct (@settleInvocation_blame s1 i Fulfilled Hq1) as [Hk2 [Hq2 Hmain2]].
        split; [exact Hq2|]. rewrite Hmain2. subst s1. simpl.
        destruct (main s) as [|? ? ?|? ?|[|e'] ?|[|e']]; try exact I;
          eapply keeps_failedWith; eassumption.
      * destruct (@settleInvocation_blame s1 i (Rejected e) Hq1) as [Hk2 [Hq2 Hmain2]].
        split; [exact Hq2|]. rewrite Hmain2. subst s1. simpl.
        destruct (main s) as [|? ? ?|? ?|[|e'] ?|[|e']]; try exact I;
          eapply keeps_failedWith; eassumption.
      * split; [exact Hq1 | exact Hm1].
    + split; simpl; assumption.
    + unfold aggregateReaction. cbn [main].
      assert (Hres : queueBlame (invocations s) (q ++ [Resume])%list).
      { apply queueBlame_app; [exact Hq0|]. intros i' r e [Heq|[]]. discriminate. }
      assert (Ho : match o with
                   | Rejected e => failedWith (invocations s) e
                   | Fulfilled => True
                   end).
      { destruct o as [|e]; [exact I|]. eapply Hq. left. reflexivity. }
      destruct (main s) as [rest|k' raced rest|k' remaining|o' rest|o'] eqn:Hmain;
        try (split; simpl; assumption).
      * destruct (k =? k')%nat; [|split; simpl; assumption].
        split; simpl; [exact Hres|]. destruct o; [exact I | exact Ho].
      * destruct (k =? k')%nat; [|split; simpl; assumption].
        destruct o as [|e].
        -- destruct (remaining - 1)%nat; split; simpl; try exact I; assumption.
        -- split; simpl; [exact Hres | exact Ho].
    + destruct (main s) as [rest|k' raced rest|k' remaining|[|e] [rest|]|o'] eqn:Hmain;
        split; simpl; try assumption; exact I.
  - (* the promise of a handler is settled *)
    unfold settleStep. destruct (inSynchronousCode s); [split; assumption|].
    destruct (nth_error (invocations s) i) as [inv|]; [|split; assumption].
    destruct (started inv); [|split; assumption].
    destruct (settled inv); [split; assumption|].
    destruct (@settleInvocation_blame s i o Hq) as [Hk [Hq' Hmain]].
    split; [exact Hq'|]. rewrite Hmain.
    destruct (main s) as [|? ? ?|? ?|[|e'] ?|[|e']]; try exact I;
      eapply keeps_failedWith; eassumption.
Qed.

Lemma run_blame : forall schedule (s : State), Blame s -> Blame (run s schedule).
Proof.
  induction schedule as [|c schedule IH]; intros s Hb; simpl; [exact Hb|].
  apply IH. apply step_blame. exact Hb.
Qed.

Lemma settleInvocation_shape : forall (s : State) i o,
  main (settleInvocation i o s) = main s
  /\ List.length (invocations (settleInvocation i o s)) = List.length (invocations s).
Proof.
  intros s i o. unfold settleInvocation.
  destruct (nth_error (invocations s) i) as [inv|]; [|split; reflexivity].
  destruct (settled inv); [split; reflexivity|].
  simpl. rewrite updateAt_length. split; reflexivity.
Qed.

Lemma step_done : forall (s : State) c o,
  main s = Done o ->
  main (step s c) = Done o
  /\ List.length (invocations (step s c)) = List.length (invocations s).
Proof.
  intros s c o Hdone. destruct c as [| |i o']; simpl.
  - unfold mainStep. rewrite Hdone. split; [exact Hdone | reflexivity].
  - unfold jobStep. destruct (inSynchronousCode s); [split; [exact Hdone | reflexivity]|].
    destruct (queue s) as [|j q]; [split; [exact Hdone | reflexivity]|].
    destruct j as [i|i [|k] o'|]; unfold runJob; cbn [invocations main].
    + destruct (nth_error (invocations s) i) as [inv|];
        [|split; [exact Hdone | reflexivity]].
      set (s1 := withInvocations _ _).
      assert (H1 : main s1 = Done o
                   /\ List.length (invocations s1) = List.length (invocations s)).
      { subst s1. simpl. rewrite updateAt_length. split; [exact Hdone | reflexivity]. }
      destruct H1 as [Hm1 Hl1].
      destruct (handler (item inv)); try (split; assumption).
      * destruct (settleInvocation_shape s1 i Fulfilled) as [Hm Hl].
        split; congruence.
      * destruct (settleInvocation_shape s1 i (Rejected e)) as [Hm Hl].
        split; congruence.
    + split; [exact Hdone | reflexivity].
    + unfold aggregateReaction. cbn [main]. rewrite Hdone.
      split; reflexivity.
    + rewrite Hdone. split; reflexivity.
  - unfold settleStep. destruct (inSynchronousCode s); [split; [exact Hdone | reflexivity]|].
    destruct (nth_error (invocations s) i) as [inv|]; [|split; [exact Hdone | reflexivity]].
    destruct (started inv); [|split; [exact Hdone | reflexivity]].
    destruct (settled inv); [split; [exact Hdone | reflexivity]|].
    destruct (settleInvocation_shape s i o') as [Hm Hl]. split; congruence.
Qed.

Lemma run_done : forall more (s : State) o,
  main s = Done o ->
  main (run s more) = Done o
  /\ List.length (invocations (run s more)) = List.length (invocations s).
Proof.
  induction more as [|c more IH]; intros s o Hdone; simpl;
    [split; [exact Hdone | reflexivity]|].
  destruct (step_done s c Hdone) as [Hm Hl].
  destruct (IH _ _ Hm) as [Hm' Hl']. split; congruence.
Qed.

Lemma settleInvocation_queue : forall (s : State) i o,
  exists more, queue (settleInvocation i o s) = (queue s ++ more)%list.
Proof.
  intros s i o. unfold settleInvocation.
  destruct (nth_error (invocations s) i) as [inv|];
    [|exists []; rewrite app_nil_r; reflexivity].
  destruct (settled inv); [exists []; rewrite app_nil_r; reflexivity|].
  eexists. reflexivity.
Qed.

(** The failure of an invocation is queued for every wait that has an
    element function registered on it. *)
Lemma failure_is_queued : forall (s : State) i inv e k,
  nth_error (invocations s) i = Some inv ->
  settled inv = None ->
  In (OnAggregate k) (reactions inv) ->
  In (React i (OnAggregate k) (Rejected e)) (queue (settleInvocation i (Rejected e) s)).
Proof.
  intros s i inv e k Hi Hpending Hin. unfold settleInvocation.
  rewrite Hi, Hpending. simpl. apply in_or_app. right.
  apply in_map_iff. exists (OnAggregate k). split; [reflexivity | exact Hin].
Qed.

(** The body woken with a rejection, or ended on it. *)
Local Abbreviation rejecting s e :=
  ((exists rest, main s = Waking (Rejected e) rest) \/ main s = Done (Rejected e)).

Lemma rejecting_job : forall (s : State) j q e,
  rejecting s e ->
  queue s = j :: q ->
  rejecting (step s RunJob) e
  /\ (exists more, queue (step s RunJob) = (q ++ more)%list)
  /\ (j = Resume -> main (step s RunJob) = Done (Rejected e)).
Proof.
  intros s j q e Hmain Hq. simpl. unfold jobStep.
  assert (Hsync : inSynchronousCode s = false).
  { unfold inSynchronousCode. destruct Hmain as [[rest ->]| ->]; reflexivity. }
  rewrite Hsync, Hq.
  destruct j as [i|i [|k] o|]; unfold runJob; cbn [invocations main queue].
  - destruct (nth_error (invocations s) i) as [inv|].
    2:{ split; [exact Hmain|]. split; [exists []; rewrite app_nil_r; reflexivity|].
        discriminate. }
    set (s1 := withInvocations _ _).
    assert (Hm1 : main s1 = main s) by reflexivity.
    assert (Hq1 : queue s1 = q) by reflexivity.
    destruct (handler (item inv)) as [| e0 |].
    + destruct (settleInvocation_shape s1 i Fulfilled) as [Hm _].
      destruct (settleInvocation_queue s1 i Fulfilled) as [more Hmore].
      rewrite Hm, Hm1, Hmore, Hq1.
      split; [exact Hmain|]. split; [exists more; reflexivity | discriminate].
    + destruct (settleInvocation_shape s1 i (Rejected e0)) as [Hm _].
      destruct (settleInvocation_queue s1 i (Rejected e0)) as [more Hmore].
      rewrite Hm, Hm1, Hmore, Hq1.
      split; [exact Hmain|]. split; [exists more; reflexivity | discriminate].
    + rewrite Hm1, Hq1.
      split; [exact Hmain|]. split; [exists []; rewrite app_nil_r; reflexivity|].
      discriminate.
  - split; [exact Hmain|]. split; [exists []; rewrite app_nil_r; reflexivity|].
    discriminate.
  - unfold aggregateReaction. cbn [main].
    destruct Hmain as [[rest Hm]|Hm]; rewrite Hm; cbn [main queue].
    + split; [left; exists rest; reflexivity|].
      split; [exists []; rewrite app_nil_r; reflexivity | discriminate].
    + split; [right; reflexivity|].
      split; [exists []; rewrite app_nil_r; reflexivity | discriminate].
  - destruct Hmain as [[rest Hm]|Hm]; rewrite Hm; cbn [main queue withMain].
    + split; [right; reflexivity|].
      split; [exists []; rewrite app_nil_r; reflexivity | reflexivity].
    + split; [right; reflexivity|].
      split; [exists []; rewrite app_nil_r; reflexivity | reflexivity].
Qed.

(** Woken with a rejection, the body ends on it when its continuation, which
    is in the queue, has its turn. *)
Lemma rejection_reaches_done : forall pre (s : State) e post,
  rejecting s e ->
  queue s = (pre ++ Resume :: post)%list ->
  main (run s (repeat RunJob (S (List.length pre)))) = Done (Rejected e).
Proof.
  induction pre as [|j pre IH]; intros s e post Hmain Hq.
  - simpl in Hq. destruct (rejecting_job s Hmain Hq) as [_ [_ Hdone]].
    simpl. apply Hdone. reflexivity.
  - simpl in Hq. destruct (rejecting_job s Hmain Hq) as [Hmain' [[more Hq'] _]].
    cbn [List.length repeat]. cbn [BatchProcessor.run fold_left].
    apply (IH _ _ (post ++ more)%list Hmain').
    rewrite Hq', <- app_assoc. reflexivity.
Qed.

(** The element function of the wait in progress runs with a rejection:
    the body is woken with it, its continuation is queued last. *)
Lemma wait_rejects : forall (s : State) i k e q,
  queue s = React i (OnAggregate k) (Rejected e) :: q ->
  (forall raced rest, main s = AwaitRace k raced rest ->
     main (step s RunJob) = Waking (Rejected e) (Some rest)
     /\ queue (step s RunJob) = (q ++ [Resume])%list)
  /\ (forall remaining, main s = AwaitAll k remaining ->
        main (step s RunJob) = Waking (Rejected e) None
        /\ queue (step s RunJob) = (q ++ [Resume])%list).
Proof.
  intros s i k e q Hq. split.
  - intros raced rest Hm. simpl. unfold jobStep, inSynchronousCode.
    rewrite Hm, Hq. unfold runJob, aggregateReaction. cbn [main].
    rewrite Nat.eqb_refl. split; reflexivity.
  - intros remaining Hm. simpl. unfold jobStep, inSynchronousCode.
    rewrite Hm, Hq. unfold runJob, aggregateReaction. cbn [main].
    rewrite Nat.eqb_refl. split; reflexivity.
Qed.

(** The body waits on the race or wait-all numbered [k]. *)
Local Abbreviation awaiting s k :=
  ((exists raced rest, main s = AwaitRace k raced rest)
   \/ (exists remaining, main s = AwaitAll k remaining)).

(** The reactions of a failed invocation run in the order of their
    registration: the callback of [finally] and the element functions of
    the waits that are over leave the body where it is, and the element
    function of the wait in progress rejects it. *)
Lemma failure_drains_to_done : forall (rs : list Reaction) (s : State) i e k q,
  awaiting s k ->
  queue s = (map (fun r => React i r (Rejected e)) rs ++ q)%list ->
  In (OnAggregate k) rs ->
  exists n, main (run s (repeat RunJob n)) = Done (Rejected e).
Proof.
  induction rs as [|r rs IH]; intros s i e k q Hwait Hq Hin; [destruct Hin|].
  simpl in Hq.
  assert (Hsync : inSynchronousCode s = false).
  { unfold inSynchronousCode.
    destruct Hwait as [[raced [rest ->]]|[remaining ->]]; reflexivity. }
  assert (Hdec : r = OnAggregate k \/ r <> OnAggregate k).
  { destruct r as [|k']; [right; discriminate|].
    destruct (Nat.eq_dec k' k) as [->|Hk]; [left; reflexivity|].
    right. intros H. injection H as H. contradiction. }
  destruct Hdec as [->|Hne].
  - destruct (wait_rejects s Hq) as [Hrace Hall].
    assert (Hwoken : exists rest,
              main (step s RunJob) = Waking (Rejected e) rest
              /\ queue (step s RunJob)
                 = ((map (fun r => React i r (Rejected e)) rs ++ q) ++ [Resume])%list).
    { destruct Hwait as [[raced [rest Hm]]|[remaining Hm]].
      - exists (Some rest). apply (Hrace _ _ Hm).
      - exists None. apply (Hall _ Hm). }
    destruct Hwoken as [rest [Hm' Hq']].
    exists (S (S (List.length (map (fun r => React i r (Rejected e)) rs ++ q)%list))).
    cbn [repeat]. cbn [BatchProcessor.run fold_left].
    apply (@rejection_reaches_done _ (step s RunJob) e []); [|exact Hq'].
    left. exists rest. exact Hm'.
  - assert (Hstep : main (step s RunJob) = main s
                    /\ queue (step s RunJob)
                       = (map (fun r => React i r (Rejected e)) rs ++ q)%list).
    { simpl. unfold jobStep. rewrite Hsync, Hq.
      destruct r as [|k']; unfold runJob; cbn [main queue].
      - split; reflexivity.
      - unfold aggregateReaction. cbn [main].
        assert (Hk : (k' =? k)%nat = false).
        { apply Nat.eqb_neq. intros ->. apply Hne. reflexivity. }
        destruct Hwait as [[raced [rest Hm]]|[remaining Hm]]; rewrite Hm, Hk;
          cbn [main queue]; split; reflexivity. }
    destruct Hstep as [Hm' Hq'].
    destruct (IH (step s RunJob) i e k q) as [n Hn].
    + destruct Hwait as [[raced [rest Hm]]|[remaining Hm]].
      * left. exists raced, rest. rewrite Hm'. exact Hm.
      * right. exists remaining. rewrite Hm'. exact Hm.
    + exact Hq'.
    + destruct Hin as [Heq|Hin]; [contradiction | exact Hin].
    + exists (S n). cbn [repeat]. cbn [BatchProcessor.run fold_left]. exact Hn.
Qed.

(** While the body waits and no job is queued, an invocation that the wait
    in progress has subscribed to fails: the promise of [runBatch] is
    rejected with the failure. *)
Lemma failure_of_awaited : forall (s : State) i inv e k,
  awaiting s k ->
  queue s = [] ->
  nth_error (invocations s) i = Some inv ->
  started inv = true ->
  settled inv = None ->
  In (OnAggregate k) (reactions inv) ->
  exists n,
    main (run s (Settle i (Rejected e) :: repeat RunJob n)) = Done (Rejected e).
Proof.
  intros s i inv e k Hwait Hq Hi Hstarted Hpending Hin.
  assert (Hsync : inSynchronousCode s = false).
  { unfold inSynchronousCode.
    destruct Hwait as [[raced [rest ->]]|[remaining ->]]; reflexivity. }
  assert (Hsettle : step s (Settle i (Rejected e)) = settleInvocation i (Rejected e) s).
  { simpl. unfold settleStep. rewrite Hsync, Hi, Hstarted, Hpending. reflexivity. }
  destruct (@failure_drains_to_done (reactions inv)
              (step s (Settle i (Rejected e))) i e k []) as [n Hn].
  - rewrite Hsettle. destruct (settleInvocation_shape s i (Rejected e)) as [Hm _].
    destruct Hwait as [[raced [rest Hw]]|[remaining Hw]].
    + left. exists raced, rest. rewrite Hm. exact Hw.
    + right. exists remaining. rewrite Hm. exact Hw.
  - rewrite Hsettle. unfold settleInvocation. rewrite Hi, Hpending. simpl.
    rewrite Hq, app_nil_r. reflexivity.
  - exact Hin.
  - exists n. cbn [BatchProcessor.run fold_left]. exact Hn.
Qed.

(** After the promise of [runBatch] is settled, the promise of a handler
    that is still running can be settled as before. *)
Lemma settle_after_done : forall (s : State) o j inv o',
  main s = Done o ->
  nth_error (invocations s) j = Some inv ->
  started inv = true ->
  settled inv = None ->
  exists inv', nth_error (invocations (step s (Settle j o'))) j = Some inv'
               /\ settled inv' = Some o'.
Proof.
  intros s o j inv o' Hdone Hj Hstarted Hpending. simpl.
  unfold settleStep, inSynchronousCode. rewrite Hdone, Hj, Hstarted, Hpending.
  unfold settleInvocation. rewrite Hj, Hpending. simpl.
  eexists. split; [apply updateAt_same; exact Hj | reflexivity].
Qed.

End WithConcurrency.

Lemma filter_indices : forall (A : Type) (f : A -> bool) (l : list A) (start : nat),
  List.length (filter f l)
  = List.length
      (filter (fun j => match nth_error l (j - start) with
                        | Some a => f a
                        | None => false
                        end)
              (seq start (List.length l))).
Proof.
  intros A f l. induction l as [|a l IH]; intros start; simpl; [reflexivity|].
  rewrite Nat.sub_diag. simpl.
  assert (Htail :
    filter (fun j => match nth_error (a :: l) (j - start) with
                     | Some b => f b
                     | None => false
                     end) (seq (S start) (List.length l))
    = filter (fun j => match nth_error l (j - S start) with
                       | Some b => f b
                       | None => false
                       end) (seq (S start) (List.length l))).
  { apply filter_ext_in. intros j Hj. apply in_seq in Hj.
    replace (j - start)%nat with (S (j - S start)) by lia. reflexivity. }
  rewrite Htail. destruct (f a); simpl; rewrite (IH (S start)); reflexivity.
Qed.

Lemma liveCount_le : forall cap (s : State),
  Invariant cap s -> (liveCount s <= List.length (inFlight s))%nat.
Proof.
  intros cap s [Hcore _]. unfold liveCount.
  rewrite (filter_indices (@isLive T) (invocations s) 0).
  apply NoDup_incl_length.
  - apply NoDup_filter. apply seq_NoDup.
  - intros j Hj. apply filter_In in Hj. destruct Hj as [_ Hlive].
    rewrite Nat.sub_0_r in Hlive.
    destruct (nth_error (invocations s) j) as [inv|] eqn:Hinv; [|discriminate].
    pose proof (core_each Hcore _ Hinv) as Hok. unfold invocationOK in Hok.
    unfold isLive in Hlive. destruct (settled inv).
    + rewrite andb_false_r in Hlive. discriminate.
    + destruct Hok as [Hin _]. exact Hin.
Qed.

Lemma Invariant_bound : forall cap (s : State),
  Invariant cap s -> sizeOf (inFlight s) <= cap.
Proof.
  intros cap s [Hcore Hmain]. unfold mainOK in Hmain.
  destruct (main s) as [rest|k raced rest|k remaining|o [rest|]|o]; try lia.
  destruct Hmain as [Hincl [_ [Hsize _]]].
  pose proof (NoDup_incl_length (core_nodup Hcore) Hincl) as Hlen.
  unfold sizeOf in *. lia.
Qed.

Lemma numGe_ceiling : forall (q : Q) n,
  numGe (numOfZ (Z.of_nat n)) (NFinite q) = (Qceiling q <=? Z.of_nat n).
Proof.
  intros q n. unfold numGe, numLe, numOfZ.
  apply eq_iff_eq_true. rewrite Qle_bool_iff, Z.leb_le. split.
  - intros H. rewrite <- (Qceiling_Z (Z.of_nat n)). apply Qceiling_resp_le. exact H.
  - intros H. eapply Qle_trans; [apply Qle_ceiling|]. rewrite <- Zle_Qle. exact H.
Qed.

Lemma Qceiling_positive : forall q : Q, (0 < q)%Q -> 0 < Qceiling q.
Proof.
  intros q Hq. rewrite Zlt_Qlt.
  eapply Qlt_le_trans; [exact Hq | apply Qle_ceiling].
Qed.

(** C3 (amended): in a window run with [concurrency = N], a finite number
    above 0, the in-flight set never has more members than N rounded up to
    a whole number, and never more invocations than that have their handler
    called and their promise pending; for a whole N the bound is N.  An
    invocation is a member from its creation: one that is not completed is
    in the set.  It leaves on completion, fulfilled or rejected: once it is
    settled it is out of the set, or the job of its [finally] callback is
    in the queue, and that job takes it out. *)
Theorem in_flight_bound : forall (N : Q) (items : list T) (schedule : list Choice),
  (0 < N)%Q ->
  let s := BatchProcessor.run handler (NFinite N) (initial items) schedule in
  Z.of_nat (List.length (inFlight s)) <= Qceiling N
  /\ Z.of_nat (liveCount s) <= Qceiling N
  /\ (forall n : Z, (N == inject_Z n)%Q ->
        Z.of_nat (List.length (inFlight s)) <= n /\ Z.of_nat (liveCount s) <= n)
  /\ (forall j inv, nth_error (invocations s) j = Some inv ->
                    isPending inv = true -> In j (inFlight s))
  /\ (forall j inv o, nth_error (invocations s) j = Some inv ->
                      settled inv = Some o -> In j (inFlight s) ->
                      exists o', In (React j OnFinally o') (queue s))
  /\ (forall (s' : State) j o,
        ~ In j (inFlight (runJob handler (React j OnFinally o) s'))).
Proof.
  intros N items schedule HN s.
  assert (Hinv : Invariant (Qceiling N) s).
  { apply run_ok.
    - apply numGe_ceiling.
    - apply Invariant_initial. apply Qceiling_positive. exact HN. }
  pose proof (Invariant_bound Hinv) as Hbound.
  pose proof (liveCount_le Hinv) as Hlive.
  destruct Hinv as [Hcore _].
  unfold sizeOf in Hbound.
  split; [exact Hbound|]. split; [lia|]. split; [|split; [|split]].
  - intros n Hn. rewrite (Qceiling_comp _ _ Hn), Qceiling_Z in Hbound. lia.
  - intros j inv Hj Hpending.
    pose proof (core_each Hcore _ Hj) as Hok. unfold invocationOK in Hok.
    unfold isPending in Hpending. destruct (settled inv); [discriminate|].
    apply Hok.
  - intros j inv o Hj Hsettled Hin.
    pose proof (core_each Hcore _ Hj) as Hok. unfold invocationOK in Hok.
    rewrite Hsettled in Hok. destruct Hok as [_ Hfin]. apply Hfin. exact Hin.
  - intros s' j o. simpl. apply remove_In.
Qed.

End WindowFacts.

Section FailureFacts.

Import BatchProcessor.

Variable handler : RowObject -> HandlerResult.
Variable schedule : nat -> list Choice.

(** C4 (amended): the failure of a handler invocation is queued for every
    wait (the race for a free slot, the final wait-all) that has an element
    function registered on the invocation.  When that element function runs
    for the wait in progress, the wait rejects at once, whatever the other
    invocations of the window are doing, and [runBatch] rejects with the
    failure once the jobs queued before its continuation have run; so the
    failure of an invocation that the wait in progress has subscribed to,
    coming while the body waits and no job is queued, rejects [runBatch]
    with that failure.  When [runBatch] rejects with an error, the error is the failure of a handler
    invocation of that window, and it is final: the window launches nothing
    more.  The other invocations are neither cancelled nor awaited: one
    that is still running can complete as before.  The error goes to the
    caller of [processXlsxLarge] as it is, with no further row pulled and
    no further batch run. *)
Theorem handler_failure_surfaces : forall concurrency,
  (forall (s : State RowObject) i inv e k,
     nth_error (invocations s) i = Some inv ->
     settled inv = None ->
     In (OnAggregate k) (reactions inv) ->
     In (React i (OnAggregate k) (Rejected e))
        (queue (settleInvocation i (Rejected e) s)))
  /\ (forall (s : State RowObject) i k e q,
        queue s = React i (OnAggregate k) (Rejected e) :: q ->
        (exists raced rest, main s = AwaitRace k raced rest)
        \/ (exists remaining, main s = AwaitAll k remaining) ->
        (exists rest, main (step handler concurrency s RunJob)
                      = Waking (Rejected e) rest)
        /\ main (run handler concurrency s (repeat RunJob (2 + List.length q)))
           = Done (Rejected e))
  /\ (forall (s : State RowObject) i inv e k,
        (exists raced rest, main s = AwaitRace k raced rest)
        \/ (exists remaining, main s = AwaitAll k remaining) ->
        queue s = [] ->
        nth_error (invocations s) i = Some inv ->
        started inv = true ->
        settled inv = None ->
        In (OnAggregate k) (reactions inv) ->
        exists n,
          main (run handler concurrency s (Settle i (Rejected e) :: repeat RunJob n))
          = Done (Rejected e))
  /\ (forall w items e,
        Processor.runBatch handler schedule concurrency w items = Rejects e ->
        let s := run handler concurrency (initial items) (schedule w) in
        main s = Done (Rejected e)
        /\ failedWith (invocations s) e
        /\ (forall more,
              main (run handler concurrency s more) = Done (Rejected e)
              /\ List.length (invocations (run handler concurrency s more))
                 = List.length (invocations s))
        /\ (forall j inv o,
              nth_error (invocations s) j = Some inv ->
              started inv = true -> settled inv = None ->
              exists inv',
                nth_error (invocations (step handler concurrency s (Settle j o))) j
                = Some inv'
                /\ settled inv' = Some o)
        /\ (forall size prev row rest failure,
              items = (prev ++ [row])%list ->
              numGe (numOfZ (Z.of_nat (List.length items))) size = true ->
              Processor.consume handler schedule size concurrency (row :: rest)
                failure prev w
              = ([ReaderNext (Some row); RunBatch items], Rejects e))
        /\ (forall size,
              (0 <? List.length items)%nat = true ->
              Processor.consume handler schedule size concurrency [] None items w
              = ([ReaderNext None; RunBatch items], Rejects e))).
Proof.
  intros concurrency. split; [|split; [|split]].
  - intros s i inv e k Hi Hpending Hin.
    eapply failure_is_queued; eassumption.
  - intros s i k e q Hq Hwait.
    destruct (wait_rejects handler concurrency s Hq) as [Hrace Hall].
    assert (Hwoken : exists rest,
              main (step handler concurrency s RunJob) = Waking (Rejected e) rest
              /\ queue (step handler concurrency s RunJob) = (q ++ [Resume])%list).
    { destruct Hwait as [[raced [rest Hm]]|[remaining Hm]].
      - exists (Some rest). apply (Hrace _ _ Hm).
      - exists None. apply (Hall _ Hm). }
    destruct Hwoken as [rest [Hm' Hq']].
    split; [exists rest; exact Hm'|].
    change (2 + List.length q)%nat with (S (S (List.length q))).
    cbn [repeat]. cbn [BatchProcessor.run fold_left].
    apply (@rejection_reaches_done RowObject handler concurrency q _ e []).
    + left. exists rest. exact Hm'.
    + exact Hq'.
  - intros s i inv e k Hwait Hq Hi Hstarted Hpending Hin.
    eapply failure_of_awaited; eassumption.
  - intros w items e Hrun s.
    assert (Hdone : main s = Done (Rejected e)).
    { unfold Processor.runBatch in Hrun. fold s in Hrun.
      destruct (main s) as [rest|k raced rest|k remaining|o rest|[|e']];
        try discriminate.
      injection Hrun as ->. reflexivity. }
    split; [exact Hdone|]. split; [|split; [|split; [|split]]].
    + pose proof (run_blame handler concurrency (schedule w) (Blame_initial items))
        as [_ Hmain].
      fold s in Hmain. rewrite Hdone in Hmain. exact Hmain.
    + intros more. apply run_done. exact Hdone.
    + intros j inv o Hj Hstarted Hpending.
      eapply settle_after_done; eassumption.
    + intros size prev row rest failure Hitems Hfull. subst items.
      simpl. rewrite Hfull, Hrun. reflexivity.
    + intros size Hsome. simpl. rewrite Hsome, Hrun. reflexivity.
Qed.

End FailureFacts.

(** ** The rows of the reader *)

Lemma stripTrailingHoles_nth : forall a i,
  match nth_error (stripTrailingHoles a) i with
  | Some (Some v) => nth_error a i = Some (Some v)
  | _ => nth_error a i = Some None \/ nth_error a i = None
  end.
Proof.
  induction a as [|slot rest IH]; intros i.
  - destruct i; simpl; right; reflexivity.
  - simpl. destruct slot as [v|].
    + destruct i as [|i]; simpl; [reflexivity | apply IH].
    + destruct (stripTrailingHoles rest) as [|slot' rest'] eqn:Hstrip.
      * destruct i as [|i]; simpl; [left; reflexivity|].
        specialize (IH i). destruct i; simpl in IH; exact IH.
      * destruct i as [|i]; simpl; [left; reflexivity|].
        specialize (IH i). exact IH.
Qed.

(** A row given by its cells shows the same cells both ways. *)
Lemma rowOfCells_sameCells : forall n cells, sameCells (rowOfCells n cells).
Proof.
  intros n cells i.
  set (slotOf := fun c : Cell => if isNullish (cellValue c) then None
                                 else Some (cellValue c)).
  assert (Hvalues : RowMaterializer.getRowValues (rowOfCells n cells)
                    = stripTrailingHoles (map slotOf cells)).
  { unfold RowMaterializer.getRowValues, rowOfCells. simpl. fold slotOf.
    destruct (stripTrailingHoles (map slotOf cells)); reflexivity. }
  rewrite Hvalues.
  assert (Hcell : getCell (rowOfCells n cells) (i + 1) = nth i cells emptyCell).
  { rewrite Nat.add_1_r. reflexivity. }
  rewrite Hcell.
  pose proof (stripTrailingHoles_nth (map slotOf cells) i) as Hnth.
  rewrite nth_error_map in Hnth.
  destruct (nth_error (stripTrailingHoles (map slotOf cells)) i) as [[v|]|].
  - destruct (nth_error cells i) as [c|] eqn:Hc; [|discriminate].
    rewrite (nth_error_nth _ _ _ Hc). simpl in Hnth. unfold slotOf in Hnth.
    destruct (isNullish (cellValue c)); [discriminate|]. congruence.
  - destruct (nth_error cells i) as [c|] eqn:Hc.
    + rewrite (nth_error_nth _ _ _ Hc). simpl in Hnth. unfold slotOf in Hnth.
      destruct (isNullish (cellValue c)); [reflexivity|].
      destruct Hnth; discriminate.
    + apply nth_error_None in Hc. rewrite nth_overflow by exact Hc. reflexivity.
  - destruct (nth_error cells i) as [c|] eqn:Hc.
    + rewrite (nth_error_nth _ _ _ Hc). simpl in Hnth. unfold slotOf in Hnth.
      destruct (isNullish (cellValue c)); [reflexivity|].
      destruct Hnth; discriminate.
    + apply nth_error_None in Hc. rewrite nth_overflow by exact Hc. reflexivity.
Qed.

(** ** Runs on the sample inputs *)

Lemma blankRow_sameCells : sameCells blankRow.
Proof. apply rowOfCells_sameCells. Qed.

(** A run of [empty_row_policy]: the row of cells "", null, "" under the
    headers of the sample sheet, with and without [skipEmptyRows]. *)
Lemma empty_row_policy_witness :
  RowMaterializer.rowStep sampleIntl sampleHost defaultReadOptions
    (Some sampleHeaders) blankRow = Return (Some sampleHeaders, None)
  /\ exists obj,
       RowMaterializer.rowStep sampleIntl sampleHost keepEmptyRows
         (Some sampleHeaders) blankRow = Return (Some sampleHeaders, Some obj)
       /\ (forall k v, In (k, v) obj -> isBlank v = true).
Proof.
  split.
  - apply (proj1 (proj1 (@empty_row_policy sampleIntl sampleHost defaultReadOptions
                           (Some sampleHeaders) blankRow [] eq_refl) eq_refl)).
  - destruct (proj2 (proj2 (proj2 (@empty_row_policy sampleIntl sampleHost keepEmptyRows
                                      (Some sampleHeaders) blankRow [] eq_refl)
                                   eq_refl))
                    sampleHeaders eq_refl eq_refl blankRow_sameCells)
      as [obj [Hstep [_ [_ [Hblank _]]]]].
    exists obj. split; assumption.
Defined.

(** A run of [emitted_row_keys]: the object the sample sheet yields. *)
Lemma emitted_row_keys_witness :
  NoDup (keysOf sampleObject)
  /\ exists hs, forall k, In k (keysOf sampleObject) -> In k (map propertyKey hs).
Proof.
  destruct (@emitted_row_keys sampleIntl sampleHost defaultReadOptions
              sampleBook sampleObject)
    as [worksheet [hs [hrow [row [_ [_ [_ [_ [Hkeys [_ [_ [Hnd _]]]]]]]]]]]].
  - vm_compute. left. reflexivity.
  - split; [exact Hnd | exists hs; exact Hkeys].
Defined.

(** C10: under a header row id, [__proto__] the object of a data row has
    the key id only: the assignment under [__proto__] goes to the accessor
    that the object inherits, and the key set is not the set of the header
    names.  Under a header row that names two columns [__proto__], an empty
    first cell takes the prototype away, and the second assignment creates
    the key. *)
Lemma proto_header_gives_no_key :
  RowMaterializer.mapHeaders sampleHost defaultReadOptions
    (RowMaterializer.getRowValues protoHeaderRow) 0
  = Return [Some "id"; Some "__proto__"]
  /\ RowMaterializer.xlsxToObjects sampleIntl sampleHost defaultReadOptions protoBook
     = ([[("id", VString "1")]], None)
  /\ ~ (forall k, In k (keysOf [("id", VString "1")])
                  <-> In k (map propertyKey [Some "id"; Some "__proto__"]))
  /\ RowMaterializer.rowStep sampleIntl sampleHost defaultReadOptions
       (Some [Some "__proto__"; Some "__proto__"])
       (rowOfCells 2 [emptyCell; textCell "x"])
     = Return (Some [Some "__proto__"; Some "__proto__"],
               Some [("__proto__", VString "x")]).
Proof.
  split; [vm_compute; reflexivity|].
  split; [vm_compute; reflexivity|].
  split; [|vm_compute; reflexivity].
  intros H. destruct (proj2 (H "__proto__")) as [Heq|[]].
  - right. left. reflexivity.
  - discriminate.
Qed.

(** A run of [column_resolution]: no columns and no rows. *)
Lemma column_resolution_witness :
  RowWriter.objectsToXlsx sampleIntl sampleHost (OutputPath "/tmp/out.xlsx") []
    (mkWriteOptions None None None None (Some "Asia/Manila") None)
  = ([IteratorNext None], Throw RowWriter.noColumnsError).
Proof.
  apply (proj2 (proj2 (@column_resolution sampleIntl sampleHost
                         (OutputPath "/tmp/out.xlsx") []
                         (mkWriteOptions None None None None (Some "Asia/Manila") None)
                         eq_refl)) I eq_refl).
Defined.

(** A run of [invalid_sizes_fail_first]: a batch size of 0. *)
Lemma invalid_sizes_fail_first_witness :
  Processor.processXlsxLarge sampleIntl sampleHost failingHandler (fun _ => wideSchedule)
    sampleBook (mkProcessOptions (Some (numOfZ 0)) None defaultReadOptions)
  = ([], Rejects (PlainError "batchSize must be > 0")).
Proof.
  apply (@invalid_sizes_fail_first sampleIntl sampleHost failingHandler
           (fun _ => wideSchedule) sampleBook
           (mkProcessOptions (Some (numOfZ 0)) None defaultReadOptions)
           (or_introl eq_refl)).
Defined.

(** A run of [in_flight_bound]: a window of three rows under a cap of 2. *)
Lemma in_flight_bound_witness :
  Z.of_nat (List.length
              (BatchProcessor.inFlight
                 (BatchProcessor.run failingHandler (numOfZ 2)
                    (BatchProcessor.initial [otherObject; sampleObject; otherObject])
                    wideSchedule))) <= 2.
Proof.
  apply (proj1 (proj1 (proj2 (proj2
           (@in_flight_bound RowObject failingHandler (inject_Z 2)
              [otherObject; sampleObject; otherObject] wideSchedule
              ltac:(reflexivity)))) 2 ltac:(reflexivity))).
Defined.

(** C3: with [concurrency = 2.5], which passes the check of
    [processXlsxLarge], the third row is launched before the first wait for
    a free slot: three invocations are in the set, and after their jobs have
    run three handlers are called and pending, more than 2.5. *)
Lemma fractional_concurrency_exceeds :
  let s := BatchProcessor.run failingHandler twoAndAHalf
             (BatchProcessor.initial [otherObject; otherObject; otherObject])
             threeCallsSchedule in
  numLe twoAndAHalf (numOfZ 0) = false
  /\ List.length (BatchProcessor.inFlight s) = 3%nat
  /\ BatchProcessor.liveCount s = 3%nat
  /\ numLe (numOfZ (Z.of_nat (BatchProcessor.liveCount s))) twoAndAHalf = false.
Proof.
  cbv zeta. split; [reflexivity|].
  split; [vm_compute; reflexivity|].
  split; vm_compute; reflexivity.
Qed.

(** C4: a window of two rows whose first handler fails at once while the
    second is still running.  Under a cap of 8 the promise of [runBatch] is
    rejected while the second invocation is not completed; under a cap of 1
    it is rejected before the second row is launched.  [processXlsxLarge]
    rejects with the error in both runs.  And a window of three rows under
    a cap of 2, whose first handler returns at once and whose second fails
    at once: the race for a free slot is settled by the first invocation,
    the failure of the second reaches no wait, and [runBatch] resolves. *)
Lemma failure_surfaces_before_completion :
  let wide := BatchProcessor.run failingHandler (numOfZ 8)
                (BatchProcessor.initial [sampleObject; otherObject]) wideSchedule in
  let narrow := BatchProcessor.run failingHandler (numOfZ 1)
                  (BatchProcessor.initial [sampleObject; otherObject]) narrowSchedule in
  let lost := BatchProcessor.run unevenHandler (numOfZ 2)
                (BatchProcessor.initial [otherObject; sampleObject; otherObject])
                lostFailureSchedule in
  (BatchProcessor.main wide = BatchProcessor.Done (BatchProcessor.Rejected boom)
   /\ BatchProcessor.allCompleted wide = false
   /\ BatchProcessor.liveCount wide = 1%nat)
  /\ (BatchProcessor.main narrow = BatchProcessor.Done (BatchProcessor.Rejected boom)
      /\ List.length (BatchProcessor.invocations narrow) = 1%nat)
  /\ Processor.runBatch failingHandler (fun _ => wideSchedule) (numOfZ 8) 0
       [sampleObject; otherObject] = Rejects boom
  /\ Processor.runBatch failingHandler (fun _ => narrowSchedule) (numOfZ 1) 0
       [sampleObject; otherObject] = Rejects boom
  /\ (BatchProcessor.main lost = BatchProcessor.Done BatchProcessor.Fulfilled
      /\ option_map (@BatchProcessor.settled RowObject)
           (nth_error (BatchProcessor.invocations lost) 1)
         = Some (Some (BatchProcessor.Rejected boom))
      /\ BatchProcessor.allCompleted lost = true
      /\ Processor.runBatch unevenHandler (fun _ => lostFailureSchedule) (numOfZ 2) 0
           [otherObject; sampleObject; otherObject] = Resolves).
Proof.
  cbv zeta.
  split; [split; [|split]; vm_compute; reflexivity|].
  split; [split; vm_compute; reflexivity|].
  split; [vm_compute; reflexivity|].
  split; [vm_compute; reflexivity|].
  split; [vm_compute; reflexivity|].
  split; [vm_compute; reflexivity|].
  split; vm_compute; reflexivity.
Qed.

(** A run of [handler_failure_surfaces]: the window above under a cap
    of 8. *)
Lemma handler_failure_surfaces_witness :
  BatchProcessor.main
    (BatchProcessor.run failingHandler (numOfZ 8)
       (BatchProcessor.initial [sampleObject; otherObject]) wideSchedule)
  = BatchProcessor.Done (BatchProcessor.Rejected boom).
Proof.
  apply (proj1 (proj2 (proj2 (proj2 (@handler_failure_surfaces failingHandler
                                       (fun _ => wideSchedule) (numOfZ 8))))
                  0%nat [sampleObject; otherObject] boom eq_refl)).
Defined.

(** C7: without [skipEmptyRows], the row of cells "", null, "" at the header
    row number is not present in the sequence: it becomes the header; and
    with no header resolved yet, a row of empty cells yields nothing. *)
Lemma empty_row_not_always_present :
  RowMaterializer.isEmptyRow (RowMaterializer.getRowValues blankFirstRow) = true
  /\ RowMaterializer.rowStep sampleIntl sampleHost keepEmptyRows None blankFirstRow
     = Return (Some [Some "column_1"; None; Some "column_3"], None)
  /\ RowMaterializer.xlsxToObjects sampleIntl sampleHost keepEmptyRows
       [mkWorksheet (Some "Sheet1") [blankFirstRow]] = ([], None)
  /\ RowMaterializer.isEmptyRow (RowMaterializer.getRowValues blankRow) = true
  /\ RowMaterializer.rowStep sampleIntl sampleHost keepEmptyRows None blankRow
     = Return (None, None).
Proof.
  split; [vm_compute; reflexivity|].
  split; [vm_compute; reflexivity|].
  split; [vm_compute; reflexivity|].
  split; vm_compute; reflexivity.
Qed.

(** C8: with no columns, no rows and a time zone the platform does not
    resolve, the write fails on the time zone, not with the no-columns
    error. *)
Lemma invalid_zone_fails_first :
  RowWriter.objectsToXlsx sampleIntl sampleHost (OutputPath "/tmp/out.xlsx") []
    (mkWriteOptions None None None None (Some "Mars/Phobos") None)
  = ([], Throw (PlainError "Invalid time zone: Mars/Phobos"))
  /\ PlainError "Invalid time zone: Mars/Phobos" <> RowWriter.noColumnsError.
Proof.
  split; [vm_compute; reflexivity | discriminate].
Qed.

(* ================================================================== *)
(** * Further properties *)

(** ** The calendar *)

Section CalendarFacts.

Lemma civil_round_trip : forall z,
  let '(y, m, d) := Calendar.civilFromDays z in
  Calendar.daysFromCivil y m d = z /\ 1 <= m <= 12 /\ 1 <= d <= 31.
Proof.
  intros z. unfold Calendar.civilFromDays, Calendar.daysFromCivil.
  cbv zeta.
  set (z' := z + 719468).
  set (era := z' / 146097).
  set (doe := z' - era * 146097).
  assert (Hdoe : 0 <= doe <= 146096).
  { subst doe era. Z.to_euclidean_division_equations. lia. }
  set (yoe := (doe - doe / 1460 + doe / 36524 - doe / 146096) / 365).
  assert (Hyoe : 0 <= yoe <= 399).
  { subst yoe. clearbody doe. Z.to_euclidean_division_equations. lia. }
  set (doy := doe - (365 * yoe + yoe / 4 - yoe / 100)).
  assert (Hdoy : 0 <= doy <= 365).
  { subst doy yoe. clearbody doe. Z.to_euclidean_division_equations. lia. }
  set (mp := (5 * doy + 2) / 153).
  assert (Hmp : 0 <= mp <= 11).
  { subst mp. clearbody doy. Z.to_euclidean_division_equations. lia. }
  assert (Hd : 1 <= doy - (153 * mp + 2) / 5 + 1 <= 31).
  { subst mp. clearbody doy. Z.to_euclidean_division_equations. lia. }
  assert (Hdef : doe = doy + (365 * yoe + yoe / 4 - yoe / 100)) by (subst doy; lia).
  assert (Hz : z = era * 146097 + doe - 719468) by (subst doe z'; lia).
  clearbody mp doy yoe doe era.
  destruct (mp <? 10) eqn:Hlt.
  - apply Z.ltb_lt in Hlt.
    assert (E : (mp + 3 <=? 2) = false) by (apply Z.leb_gt; lia).
    rewrite E.
    replace (mp + 3 - 3) with mp by lia.
    replace ((yoe + era * 400) / 400) with era
      by (Z.to_euclidean_division_equations; lia).
    split; [|lia].
    Z.to_euclidean_division_equations. lia.
  - apply Z.ltb_ge in Hlt.
    assert (E : (mp - 9 <=? 2) = true) by (apply Z.leb_le; lia).
    rewrite E.
    replace (yoe + era * 400 + 1 - 1) with (yoe + era * 400) by lia.
    replace (mp - 9 + 9) with mp by lia.
    replace ((yoe + era * 400) / 400) with era
      by (Z.to_euclidean_division_equations; lia).
    split; [|lia].
    Z.to_euclidean_division_equations. lia.
Qed.

(** MakeDay on the UTC date fields of a time value is its day number. *)
Lemma makeDay_fields : forall t,
  Calendar.MakeDay (Calendar.getUTCFullYear t) (Calendar.getUTCMonth t)
                   (Calendar.getUTCDate t)
  = Calendar.Day t.
Proof.
  intros t.
  unfold Calendar.getUTCFullYear, Calendar.getUTCMonth, Calendar.getUTCDate.
  pose proof (civil_round_trip (Calendar.Day t)) as H.
  destruct (Calendar.civilFromDays (Calendar.Day t)) as [[y m] d]. simpl.
  destruct H as [Hdays [Hm Hd]].
  unfold Calendar.MakeDay.
  replace ((m - 1) / 12) with 0 by (Z.to_euclidean_division_equations; lia).
  replace ((m - 1) mod 12) with (m - 1) by (Z.to_euclidean_division_equations; lia).
  replace (y + 0) with y by lia. replace (m - 1 + 1) with m by lia.
  rewrite <- Hdays. unfold Calendar.daysFromCivil. lia.
Qed.

Lemma makeDate_fields : forall t,
  Calendar.MakeDate (Calendar.Day t)
    (Calendar.MakeTime (Calendar.getUTCHours t) (Calendar.getUTCMinutes t)
                       (Calendar.getUTCSeconds t) (Calendar.getUTCMilliseconds t))
  = t.
Proof.
  intros t.
  unfold Calendar.MakeDate, Calendar.MakeTime, Calendar.Day, Calendar.getUTCHours,
    Calendar.getUTCMinutes, Calendar.getUTCSeconds, Calendar.getUTCMilliseconds.
  change msPerDay with 86400000.
  assert (Hs : t = 1000 * (t / 1000) + t mod 1000) by (apply Z.div_mod; lia).
  assert (Hm : t / 1000 = 60 * (t / 60000) + (t / 1000) mod 60).
  { replace (t / 60000) with (t / 1000 / 60)
      by (rewrite Z.div_div by lia; reflexivity).
    apply Z.div_mod. lia. }
  assert (Hh : t / 60000 = 60 * (t / 3600000) + (t / 60000) mod 60).
  { replace (t / 3600000) with (t / 60000 / 60)
      by (rewrite Z.div_div by lia; reflexivity).
    apply Z.div_mod. lia. }
  assert (Hd : t / 3600000 = 24 * (t / 86400000) + (t / 3600000) mod 24).
  { replace (t / 86400000) with (t / 3600000 / 24)
      by (rewrite Z.div_div by lia; reflexivity).
    apply Z.div_mod. lia. }
  lia.
Qed.

(** [Date.UTC] on the UTC fields of a convertible time value. *)
Lemma dateUTC_fields : forall t,
  convertible t = true ->
  Calendar.DateUTC (Calendar.getUTCFullYear t) (Calendar.getUTCMonth t)
                   (Calendar.getUTCDate t) (Calendar.getUTCHours t)
                   (Calendar.getUTCMinutes t) (Calendar.getUTCSeconds t)
                   (Calendar.getUTCMilliseconds t)
  = Some t.
Proof.
  intros t Hc. unfold convertible in Hc. apply andb_true_iff in Hc.
  destruct Hc as [Hrange Hplain]. unfold plainYear in Hplain.
  apply negb_true_iff in Hplain.
  unfold Calendar.DateUTC. rewrite Hplain, makeDay_fields, makeDate_fields, Hrange.
  reflexivity.
Qed.

End CalendarFacts.

(** ** The offset a zone shows *)

Section OffsetFacts.

Variable intl : IntlHost.
Variable host : JsHost.
Variable timeZone : string.
Variable offset : Z.
Hypothesis resolved : supportsTimeZone intl timeZone = true.
Hypothesis whole_seconds : offset mod 1000 = 0.

Lemma fromYear100_convertible : forall t, fromYear100 t = true -> convertible t = true.
Proof.
  intros t H. unfold fromYear100 in H. apply andb_true_iff in H. destruct H as [Hr Hy].
  unfold convertible, plainYear. rewrite Hr. cbn [andb].
  apply Z.leb_le in Hy. apply negb_true_iff. apply andb_false_iff. right.
  apply Z.leb_gt. lia.
Qed.

Lemma offset_parts : forall t,
  showsOffset intl timeZone offset t ->
  TimeZoneClock.getTimeZoneParts intl (ValidDate t) timeZone
  = Return (mkParts (Calendar.getUTCFullYear (t + offset))
                    (Calendar.getUTCMonth (t + offset) + 1)
                    (Calendar.getUTCDate (t + offset))
                    (Calendar.getUTCHours (t + offset))
                    (Calendar.getUTCMinutes (t + offset))
                    (Calendar.getUTCSeconds (t + offset))
                    (Calendar.getUTCMilliseconds (t + offset))).
Proof.
  intros t Hfields.
  unfold TimeZoneClock.getTimeZoneParts, TimeZoneClock.getTimeZoneFormatter.
  rewrite resolved. cbn [bind]. rewrite Hfields. unfold fieldsOfOffset.
  cbn [fYear fMonth fDay fHour fMinute fSecond].
  do 2 f_equal. unfold Calendar.getUTCMilliseconds.
  pose proof whole_seconds as Hwhole.
  Z.to_euclidean_division_equations. lia.
Qed.

Lemma offset_lookup : forall t,
  showsOffset intl timeZone offset t ->
  convertible (t + offset) = true ->
  TimeZoneClock.getTimeZoneOffsetMs intl (ValidDate t) timeZone = Return (Some offset).
Proof.
  intros t Hfields Hc. unfold TimeZoneClock.getTimeZoneOffsetMs.
  rewrite (offset_parts Hfields). cbn [bind]. unfold TimeZoneClock.toUtcMillis.
  cbn [year month day hour minute second millisecond getTime].
  replace (Calendar.getUTCMonth (t + offset) + 1 - 1)
    with (Calendar.getUTCMonth (t + offset)) by lia.
  rewrite (dateUTC_fields _ Hc). cbn [intSub]. do 2 f_equal. lia.
Qed.

Lemma offset_local : forall t,
  showsOffset intl timeZone offset t ->
  showsOffset intl timeZone offset (t - offset) ->
  convertible t = true -> convertible (t + offset) = true ->
  inTimeRange (t - offset) = true ->
  TimeZoneClock.localDateTimeInZoneToUtc intl (TimeZoneClock.utcPartsOf t) timeZone
  = Return (ValidDate (t - offset)).
Proof.
  intros t Hfirst Hsecond Ht Hplus Hminus.
  assert (Hrange : inTimeRange t = true).
  { unfold convertible in Ht. apply andb_true_iff in Ht. tauto. }
  assert (Hlocal : TimeZoneClock.toUtcMillis (TimeZoneClock.utcPartsOf t) = Some t).
  { unfold TimeZoneClock.toUtcMillis, TimeZoneClock.utcPartsOf.
    cbn [year month day hour minute second millisecond].
    replace (Calendar.getUTCMonth t + 1 - 1) with (Calendar.getUTCMonth t) by lia.
    apply dateUTC_fields. exact Ht. }
  unfold TimeZoneClock.localDateTimeInZoneToUtc. rewrite Hlocal.
  cbn [TimeZoneClock.guessLoop].
  assert (Hnew : newDate (Some t) = ValidDate t)
    by (unfold newDate; rewrite Hrange; reflexivity).
  assert (Hnew' : newDate (Some (t - offset)) = ValidDate (t - offset))
    by (unfold newDate; rewrite Hminus; reflexivity).
  rewrite Hnew, (offset_lookup Hfirst Hplus). cbn [bind intSub intStrictEq].
  destruct (t - offset =? t) eqn:Hfix.
  - apply Z.eqb_eq in Hfix. cbn [bind]. rewrite <- Hfix at 1. rewrite Hnew'. reflexivity.
  - rewrite Hnew'. rewrite (offset_lookup Hsecond)
      by (replace (t - offset + offset) with t by lia; exact Ht).
    cbn [bind intSub intStrictEq]. rewrite Z.eqb_refl. cbn [bind].
    rewrite Hnew'. reflexivity.
Qed.

End OffsetFacts.

(** ** Dates across zones *)

Section ClockExtras.

Variable intl : IntlHost.
Variable host : JsHost.

(** X1: [toUtcMillis] on the UTC fields of a date, as
    [replaceDateTimeZoneByUserTimeZone] reads them, gives the time value of
    the date back, for a date whose UTC year is not one of 0..99 (which
    [Date.UTC] reads as 1900..1999). *)
Theorem toUtcMillis_utcParts : forall t,
  convertible t = true ->
  TimeZoneClock.toUtcMillis (TimeZoneClock.utcPartsOf t) = Some t.
Proof.
  intros t Ht. unfold TimeZoneClock.toUtcMillis, TimeZoneClock.utcPartsOf.
  cbn [year month day hour minute second millisecond].
  replace (Calendar.getUTCMonth t + 1 - 1) with (Calendar.getUTCMonth t) by lia.
  apply dateUTC_fields. exact Ht.
Qed.

(** X2: reinterpreting a date [t] in a zone moves it back by the offset
    that the zone shows at [t] and at the result: the result is the instant
    at which the wall clock of the zone shows the UTC fields of the date.
    This holds when the platform resolves the zone, the offset is a whole
    number of seconds, the formatter shows the wall clock of UTC plus the
    offset at [t] and at [t - offset], and [t] and [t + offset] are dates
    from the year 100 on. *)
Theorem reinterpret_by_offset : forall timeZone offset t,
  supportsTimeZone intl timeZone = true ->
  offset mod 1000 = 0 ->
  showsOffset intl timeZone offset t ->
  showsOffset intl timeZone offset (t - offset) ->
  fromYear100 t = true ->
  fromYear100 (t + offset) = true ->
  inTimeRange (t - offset) = true ->
  TimeZoneClock.reinterpretDateToTimeZone intl (ValidDate t) timeZone
  = Return (ValidDate (t - offset)).
Proof.
  intros timeZone offset t Hsupport Hwhole Hfirst Hsecond Ht Hplus Hminus.
  unfold TimeZoneClock.reinterpretDateToTimeZone,
    TimeZoneClock.replaceDateTimeZoneByUserTimeZone,
    TimeZoneClock.assertValidDate, TimeZoneClock.assertValidTimeZone.
  cbn [getTime bind]. rewrite Hsupport. cbn [bind].
  apply (@offset_local intl timeZone offset Hsupport Hwhole t Hfirst Hsecond);
    try apply fromYear100_convertible; assumption.
Qed.

Lemma newLocalDate_fields : forall t ms,
  convertible t = true ->
  ms = Calendar.getUTCMilliseconds t ->
  RowWriter.newLocalDate host (Calendar.getUTCFullYear t) (Calendar.getUTCMonth t)
    (Calendar.getUTCDate t) (Calendar.getUTCHours t) (Calendar.getUTCMinutes t)
    (Calendar.getUTCSeconds t) ms
  = newDate (Some (utcOfLocal host t)).
Proof.
  intros t ms Hc ->. unfold convertible in Hc. apply andb_true_iff in Hc.
  destruct Hc as [_ Hplain]. unfold plainYear in Hplain.
  apply negb_true_iff in Hplain.
  unfold RowWriter.newLocalDate. rewrite Hplain, makeDay_fields, makeDate_fields.
  reflexivity.
Qed.

Lemma write_by_offset : forall timeZone offset t,
  supportsTimeZone intl timeZone = true ->
  offset mod 1000 = 0 ->
  showsOffset intl timeZone offset t ->
  convertible (t + offset) = true ->
  RowWriter.utcDateToExcelLocalDate intl host (ValidDate t) timeZone
  = Return (newDate (Some (utcOfLocal host (t + offset)))).
Proof.
  intros timeZone offset t Hsupport Hwhole Hfields Hplus.
  unfold RowWriter.utcDateToExcelLocalDate,
    TimeZoneClock.assertValidDate, TimeZoneClock.assertValidTimeZone.
  cbn [getTime bind]. rewrite Hsupport. cbn [bind].
  rewrite (@offset_parts intl timeZone offset Hsupport Hwhole t Hfields). cbn [bind].
  cbn [year month day hour minute second millisecond].
  replace (Calendar.getUTCMonth (t + offset) + 1 - 1)
    with (Calendar.getUTCMonth (t + offset)) by lia.
  f_equal. apply newLocalDate_fields; [exact Hplus|].
  unfold Calendar.getUTCMilliseconds.
  Z.to_euclidean_division_equations. lia.
Qed.

(** X3: writing a date [t] under a zone gives the Date whose local fields
    (in the zone the process runs in) are the wall clock of the zone: the
    local time value [t + offset] read back as UTC by the platform.  This
    holds when the platform resolves the zone, the offset is a whole number
    of seconds, the formatter shows the wall clock of UTC plus the offset
    at [t], and [t + offset] is a date from the year 100 on. *)
Theorem utcDateToExcelLocalDate_by_offset : forall timeZone offset t,
  supportsTimeZone intl timeZone = true ->
  offset mod 1000 = 0 ->
  showsOffset intl timeZone offset t ->
  fromYear100 (t + offset) = true ->
  RowWriter.utcDateToExcelLocalDate intl host (ValidDate t) timeZone
  = Return (newDate (Some (utcOfLocal host (t + offset)))).
Proof.
  intros timeZone offset t Hsupport Hwhole Hfields Hplus.
  apply (@write_by_offset timeZone offset t Hsupport Hwhole Hfields).
  apply fromYear100_convertible. exact Hplus.
Qed.

(** X4: in a process that runs in UTC, a date [t] converted for writing
    under a zone and reinterpreted on reading under the same zone is the
    date again.  This holds when the platform resolves the zone, the offset
    is a whole number of seconds, the formatter shows the wall clock of UTC
    plus the offset at [t] and at [t + offset], [t] is in the range of a
    Date, and [t + offset] and [t + 2 offset] are dates from the year 100
    on. *)
Theorem write_read_round_trip : forall timeZone offset t,
  supportsTimeZone intl timeZone = true ->
  offset mod 1000 = 0 ->
  showsOffset intl timeZone offset t ->
  showsOffset intl timeZone offset (t + offset) ->
  (forall l, utcOfLocal host l = l) ->
  inTimeRange t = true ->
  fromYear100 (t + offset) = true ->
  fromYear100 (t + offset + offset) = true ->
  (written <- RowWriter.utcDateToExcelLocalDate intl host (ValidDate t) timeZone ;;
   TimeZoneClock.reinterpretDateToTimeZone intl written timeZone)
  = Return (ValidDate t).
Proof.
  intros timeZone offset t Hsupport Hwhole Hat Hshifted Hutc Ht Hplus Hplus2.
  pose proof (fromYear100_convertible _ Hplus) as Hc.
  pose proof (fromYear100_convertible _ Hplus2) as Hc2.
  rewrite (@write_by_offset timeZone offset t Hsupport Hwhole Hat Hc), Hutc.
  cbn [bind].
  assert (Hrange : inTimeRange (t + offset) = true).
  { unfold convertible in Hc. apply andb_true_iff in Hc. tauto. }
  unfold newDate. rewrite Hrange.
  unfold TimeZoneClock.reinterpretDateToTimeZone,
    TimeZoneClock.replaceDateTimeZoneByUserTimeZone,
    TimeZoneClock.assertValidDate, TimeZoneClock.assertValidTimeZone.
  cbn [getTime bind]. rewrite Hsupport. cbn [bind].
  rewrite (@offset_local intl timeZone offset Hsupport Hwhole (t + offset));
    try assumption.
  - do 2 f_equal. lia.
  - replace (t + offset - offset) with t by lia. exact Hat.
  - replace (t + offset - offset) with t by lia. exact Ht.
Qed.

End ClockExtras.

(** ** Serial dates *)

Section SerialFacts.

Lemma truncQ_Qeq : forall x y : Q, (x == y)%Q -> truncQ x = truncQ y.
Proof.
  intros [n1 d1] [n2 d2] H. unfold Qeq in H. simpl in H. unfold truncQ. simpl.
  rewrite <- (Z.quot_mul_cancel_r n1 (Z.pos d1) (Z.pos d2)) by lia.
  rewrite <- (Z.quot_mul_cancel_r n2 (Z.pos d2) (Z.pos d1)) by lia.
  rewrite H. f_equal. lia.
Qed.

Lemma newDateOfNumber_Qeq : forall x y : Q,
  (x == y)%Q -> newDateOfNumber (NFinite x) = newDateOfNumber (NFinite y).
Proof.
  intros x y H. unfold newDateOfNumber.
  rewrite (truncQ_Qeq H).
  assert (E : Qle_bool (Qabs x) (inject_Z maxTimeValue)
              = Qle_bool (Qabs y) (inject_Z maxTimeValue)).
  { apply eq_iff_eq_true. rewrite !Qle_bool_iff. rewrite H. tauto. }
  rewrite E. reflexivity.
Qed.

Lemma newDateOfNumber_integer : forall z,
  newDateOfNumber (NFinite (inject_Z z)) = newDate (Some z).
Proof.
  intros z. unfold newDateOfNumber, newDate, inTimeRange, truncQ.
  cbn [Qnum Qden inject_Z]. rewrite Z.quot_1_r.
  assert (E : Qle_bool (Qabs (inject_Z z)) (inject_Z maxTimeValue)
              = (Z.abs z <=? maxTimeValue)).
  { unfold Qle_bool, Qabs, inject_Z. cbn [Qnum Qden]. rewrite !Z.mul_1_r. reflexivity. }
  rewrite E. reflexivity.
Qed.

Lemma epoch_1900 : Calendar.DateUTC 1899 11 30 0 0 0 0 = Some (- 25569 * msPerDay).
Proof. vm_compute. reflexivity. Qed.

Lemma epoch_1904 : Calendar.DateUTC 1904 0 1 0 0 0 0 = Some (- 24107 * msPerDay).
Proof. vm_compute. reflexivity. Qed.

Lemma excelSerialToDate_integer : forall n date1904,
  excelSerialToDate (numOfZ n) date1904
  = newDate (Some ((n - serialOfUnixEpoch date1904) * msPerDay)).
Proof.
  intros n date1904. unfold excelSerialToDate, serialOfUnixEpoch.
  rewrite <- newDateOfNumber_integer.
  change msPerDay with 86400000.
  destruct date1904; [rewrite epoch_1904 | rewrite epoch_1900];
    change msPerDay with 86400000;
    cbn [numOfTime numOfZ numAdd numMulPos]; apply newDateOfNumber_Qeq;
    rewrite <- inject_Z_mult, <- inject_Z_plus;
    match goal with
    | [ |- (inject_Z ?a == inject_Z ?b)%Q ] => replace a with b by lia
    end; reflexivity.
Qed.

(** X5: an integer serial is a whole number of days from the epoch of the
    date system: the serial 25569 (24107 in the 1904 system) is
    1970-01-01T00:00:00Z, and a serial that gives a valid Date gives
    midnight UTC of its day. *)
Theorem excelSerialToDate_whole_days : forall n date1904,
  excelSerialToDate (numOfZ n) date1904
  = newDate (Some ((n - serialOfUnixEpoch date1904) * msPerDay))
  /\ (forall t, excelSerialToDate (numOfZ n) date1904 = ValidDate t ->
        Calendar.Day t = n - serialOfUnixEpoch date1904
        /\ Calendar.getUTCHours t = 0 /\ Calendar.getUTCMinutes t = 0
        /\ Calendar.getUTCSeconds t = 0 /\ Calendar.getUTCMilliseconds t = 0).
Proof.
  intros n date1904. split; [apply excelSerialToDate_integer|].
  intros t Ht. rewrite excelSerialToDate_integer in Ht. unfold newDate in Ht.
  destruct (inTimeRange ((n - serialOfUnixEpoch date1904) * msPerDay)); [|discriminate].
  injection Ht as <-.
  set (d := n - serialOfUnixEpoch date1904). clearbody d.
  unfold Calendar.Day, Calendar.getUTCHours, Calendar.getUTCMinutes,
    Calendar.getUTCSeconds, Calendar.getUTCMilliseconds.
  change msPerDay with 86400000.
  split; [apply Z.div_mul; lia|].
  replace (d * 86400000 / 3600000) with (d * 24)
    by (replace (d * 86400000) with (d * 24 * 3600000) by lia;
        rewrite Z.div_mul by lia; reflexivity).
  replace (d * 86400000 / 60000) with (d * 24 * 60)
    by (replace (d * 86400000) with (d * 24 * 60 * 60000) by lia;
        rewrite Z.div_mul by lia; reflexivity).
  replace (d * 86400000 / 1000) with (d * 1440 * 60)
    by (replace (d * 86400000) with (d * 1440 * 60 * 1000) by lia;
        rewrite Z.div_mul by lia; reflexivity).
  replace (d * 86400000) with (d * 86400 * 1000) by lia.
  rewrite !Z.mod_mul by lia. repeat split; reflexivity.
Qed.

(** X6: the 1904 date system is the 1900 system moved by 1462 days: an
    integer serial read in the 1904 system is the same date as the serial
    plus 1462 read in the 1900 system. *)
Theorem excelSerialToDate_date1904 : forall n,
  excelSerialToDate (numOfZ n) true = excelSerialToDate (numOfZ (n + 1462)) false.
Proof.
  intros n. rewrite !excelSerialToDate_integer. unfold serialOfUnixEpoch.
  do 2 f_equal. lia.
Qed.

End SerialFacts.

Section SerialZoneFacts.

Variable intl : IntlHost.

(** X7: a date-formatted cell that holds an integer serial, read with a
    time zone, is the instant at which the wall clock of the zone shows
    midnight of the day of the serial: midnight UTC of that day, [t], moved
    back by the offset the zone shows.  This holds when the platform
    resolves the zone, the offset is a whole number of seconds, the
    formatter shows the wall clock of UTC plus the offset at [t] and at
    [t - offset], and [t] and [t + offset] are dates from the year 100
    on. *)
Theorem normalizeCellValue_serial_in_zone : forall timeZone offset n fmt date1904,
  let t := (n - serialOfUnixEpoch date1904) * msPerDay in
  supportsTimeZone intl timeZone = true ->
  offset mod 1000 = 0 ->
  showsOffset intl timeZone offset t ->
  showsOffset intl timeZone offset (t - offset) ->
  timeZone <> "" ->
  testDateFormat fmt = true ->
  fromYear100 t = true ->
  fromYear100 (t + offset) = true ->
  inTimeRange (t - offset) = true ->
  CellNormalizer.normalizeCellValue intl (mkCell (VNumber (numOfZ n)) (Some fmt))
                                    true date1904 (Some timeZone)
  = Return (VDate (ValidDate (t - offset))).
Proof.
  intros timeZone offset n fmt date1904 t Hsupport Hwhole Hfirst Hsecond
         Hname Hfmt Ht Hplus Hminus.
  assert (Hrange : inTimeRange t = true).
  { unfold fromYear100 in Ht. apply andb_true_iff in Ht. tauto. }
  unfold CellNormalizer.normalizeCellValue.
  cbn [cellValue isNullish CellNormalizer.resultIn numFmt hasDateFormat andb].
  rewrite Hfmt.
  assert (Htz : truthyString (Some timeZone) = Some timeZone).
  { unfold truthyString. destruct (timeZone =? "")%string eqn:E; [|reflexivity].
    apply String.eqb_eq in E. contradiction. }
  rewrite Htz, excelSerialToDate_integer. fold t.
  unfold newDate. rewrite Hrange.
  unfold TimeZoneClock.reinterpretDateToTimeZone,
    TimeZoneClock.replaceDateTimeZoneByUserTimeZone,
    TimeZoneClock.assertValidDate, TimeZoneClock.assertValidTimeZone.
  cbn [getTime bind]. rewrite Hsupport. cbn [bind].
  rewrite (@offset_local intl timeZone offset Hsupport Hwhole t Hfirst Hsecond);
    try apply fromYear100_convertible; try assumption.
  reflexivity.
Qed.

End SerialZoneFacts.

(** ** Headers and emitted objects *)

Section ReaderExtras.

Variable intl : IntlHost.
Variable host : JsHost.
Variable opts : XlsxReadOptions.

Local Abbreviation columnValue := (RowMaterializer.columnValue intl opts).
Local Abbreviation fillObject := (RowMaterializer.fillObject intl opts).
Local Abbreviation rowStep := (RowMaterializer.rowStep intl host opts).
Local Abbreviation sheetLoop := (RowMaterializer.sheetLoop intl host opts).
Local Abbreviation mapHeaders := (RowMaterializer.mapHeaders host opts).
Local Abbreviation headerOf := (RowMaterializer.headerOf host opts).
Local Abbreviation xlsxToObjects := (RowMaterializer.xlsxToObjects intl host opts).





Lemma fillObject_order : forall row hs i b acc obj,
  fillObject row hs i b acc = Return obj ->
  NoDup (keysOf acc ++ map propertyKey hs) ->
  Forall (fun columnName => arrayIndexOf (propertyKey columnName) = None) hs ->
  ~ In protoKey (map propertyKey hs) ->
  keysOf obj = (keysOf acc ++ map propertyKey hs)%list.
Proof.
  intros row hs. induction hs as [|c rest IH]; intros i b acc obj Hfill Hnd Hplain Hproto.
  - simpl in Hfill. injection Hfill as <-. simpl. rewrite app_nil_r. reflexivity.
  - simpl in Hfill.
    destruct (columnValue row i c) as [v|e]; cbn [bind] in Hfill; [|discriminate].
    inversion Hplain as [|c' rest' Hc Hrest]; subst.
    assert (Hne : propertyKey c <> protoKey).
    { intros Heq. apply Hproto. left. exact Heq. }
    rewrite (assignProp_plain b v acc Hne) in Hfill.
    assert (Hnin : ~ In (propertyKey c) (keysOf acc)).
    { simpl in Hnd. apply NoDup_remove_2 in Hnd. intros Hin. apply Hnd.
      apply in_or_app. left. exact Hin. }
    assert (Hset : setProp (propertyKey c) v acc = (acc ++ [(propertyKey c, v)])%list).
    { unfold setProp. destruct (hasProp (propertyKey c) acc) eqn:Hhas.
      - apply hasProp_In in Hhas. contradiction.
      - rewrite Hc. reflexivity. }
    rewrite Hset in Hfill.
    assert (Hkeys : keysOf (acc ++ [(propertyKey c, v)])%list
                    = (keysOf acc ++ [propertyKey c])%list).
    { unfold keysOf. rewrite map_app. reflexivity. }
    rewrite (IH _ _ _ _ Hfill).
    + rewrite Hkeys, <- app_assoc. reflexivity.
    + rewrite Hkeys, <- app_assoc. exact Hnd.
    + exact Hrest.
    + intros Hin. apply Hproto. right. exact Hin.
Qed.

(** X9: an emitted object comes from the header array of a row at the
    header row number of its sheet.  When the names of that array are
    pairwise different, none of them is the text of an array index (such
    keys come first in an object, in numeric order) and none is
    [__proto__] (which gives no key), the keys of the object are the header
    names in the order of the header row; the columns that
    [inferColumnsFromRow] reads off the object are then the header names in
    that order. *)
Theorem emitted_keys_in_header_order : forall input obj,
  In obj (fst (xlsxToObjects input)) ->
  exists worksheet hs hrow,
    In worksheet input
    /\ In hrow (rows worksheet)
    /\ numStrictEq (numOfZ (number hrow)) (RowMaterializer.optHeaderRowNumber opts) = true
    /\ mapHeaders (RowMaterializer.getRowValues hrow) 0 = Return hs
    /\ (NoDup (map propertyKey hs) ->
        Forall (fun columnName => arrayIndexOf (propertyKey columnName) = None) hs ->
        ~ In protoKey (map propertyKey hs) ->
        keysOf obj = map propertyKey hs
        /\ map key (RowWriter.inferColumnsFromRow obj) = map propertyKey hs).
Proof.
  intros input obj Hin.
  destruct (@xlsxToObjects_emitted intl host opts input obj Hin)
    as [worksheet [hs [hrow [row [Hws [Hhrow [Hnum [Hmap [Hrow Hfill]]]]]]]]].
  exists worksheet, hs, hrow.
  split; [exact Hws|]. split; [exact Hhrow|]. split; [exact Hnum|].
  split; [exact Hmap|]. intros Hnd Hplain Hproto.
  pose proof (@fillObject_order row hs 0%nat true [] obj Hfill Hnd Hplain Hproto) as Hkeys.
  simpl in Hkeys. split; [exact Hkeys|].
  unfold RowWriter.inferColumnsFromRow. rewrite map_map. cbn [key].
  rewrite map_id. exact Hkeys.
Qed.

Lemma fillObject_entries : forall row hs i b acc obj,
  fillObject row hs i b acc = Return obj ->
  forall k v, In (k, v) obj ->
    In (k, v) acc
    \/ exists j columnName,
         nth_error hs j = Some columnName
         /\ propertyKey columnName = k
         /\ columnValue row (i + j) columnName = Return v.
Proof.
  intros row hs. induction hs as [|c rest IH]; intros i b acc obj Hfill k v Hin.
  - simpl in Hfill. injection Hfill as <-. left. exact Hin.
  - simpl in Hfill.
    destruct (columnValue row i c) as [v0|e] eqn:Hv; cbn [bind] in Hfill; [|discriminate].
    destruct (assignProp b (propertyKey c) v0 acc) as [b1 acc1] eqn:Hassign.
    destruct (IH _ _ _ _ Hfill k v Hin) as [Hacc|[j [name [Hj [Hk Hcol]]]]].
    + assert (Hacc' : In (k, v) (snd (assignProp b (propertyKey c) v0 acc)))
        by (rewrite Hassign; exact Hacc).
      apply assignProp_In in Hacc'. destruct Hacc' as [Heq|Hacc']; [|left; exact Hacc'].
      injection Heq as -> ->. right. exists 0%nat, c.
      split; [reflexivity|]. split; [reflexivity|]. rewrite Nat.add_0_r. exact Hv.
    + right. exists (S j), name. split; [exact Hj|]. split; [exact Hk|].
      replace (i + S j)%nat with (S i + j)%nat by lia. exact Hcol.
Qed.

Lemma maybeConvertToArray_array : forall value delimiter trimItems removeEmpty,
  isArrayValue (RowMaterializer.maybeConvertToArray value true delimiter
                  trimItems removeEmpty) = true.
Proof.
  intros value delimiter trimItems removeEmpty.
  unfold RowMaterializer.maybeConvertToArray. cbn [negb].
  destruct (RowMaterializer.isEmptyValue value); [reflexivity|].
  destruct value; reflexivity.
Qed.

(** X10: in an emitted object, the value under a key that [arrayColumns]
    names is an array, whatever the cell holds.  The key [undefined] is
    left out: a hole of the header row writes under it as well, and a hole
    is never an array column. *)
Theorem array_columns_hold_arrays : forall input obj k v,
  In obj (fst (xlsxToObjects input)) ->
  In (k, v) obj ->
  In k (RowMaterializer.optArrayColumns opts) ->
  k <> "undefined" ->
  isArrayValue v = true.
Proof.
  intros input obj k v Hobj Hin Harr Hname.
  destruct (@xlsxToObjects_emitted intl host opts input obj Hobj)
    as [worksheet [hs [hrow [row [_ [_ [_ [_ [_ Hfill]]]]]]]]].
  destruct (@fillObject_entries row hs 0%nat true [] obj Hfill k v Hin)
    as [[]|[j [name [_ [Hk Hcol]]]]].
  destruct name as [s|]; simpl in Hk; [subst s | congruence].
  unfold RowMaterializer.columnValue in Hcol.
  destruct (CellNormalizer.normalizeCellValue intl (getCell row (0 + j + 1))
              (RowMaterializer.optParseDates opts) (RowMaterializer.optDate1904 opts)
              (timeZone opts)) as [normalized|e]; cbn [bind] in Hcol; [|discriminate].
  injection Hcol as <-.
  assert (Hhas : setHas (RowMaterializer.optArrayColumns opts) (Some k) = true).
  { unfold setHas. apply existsb_exists. exists k.
    split; [exact Harr | apply String.eqb_refl]. }
  unfold setHas in Hhas. rewrite Hhas. apply maybeConvertToArray_array.
Qed.

Lemma rowStep_before_header : forall row,
  numStrictEq (numOfZ (number row)) (RowMaterializer.optHeaderRowNumber opts) = false
  \/ RowMaterializer.optSkipEmptyRows opts
     && RowMaterializer.isEmptyRow (RowMaterializer.getRowValues row) = true ->
  rowStep None row = Return (None, None).
Proof.
  intros row H. unfold RowMaterializer.rowStep.
  destruct (RowMaterializer.optSkipEmptyRows opts
            && RowMaterializer.isEmptyRow (RowMaterializer.getRowValues row));
    [reflexivity|].
  destruct H as [H|H]; [|discriminate]. rewrite H. reflexivity.
Qed.

(** X11: a sheet yields nothing, and does not fail, when none of its rows
    resolves a header: every row has another number than [headerRowNumber],
    or is passed over as empty.  The rows above a header row are dropped
    unread, and a sheet whose header row is blank is dropped as a whole
    under [skipEmptyRows]. *)
Theorem sheet_without_header_row : forall rs,
  (forall row, In row rs ->
     numStrictEq (numOfZ (number row)) (RowMaterializer.optHeaderRowNumber opts) = false
     \/ RowMaterializer.optSkipEmptyRows opts
        && RowMaterializer.isEmptyRow (RowMaterializer.getRowValues row) = true) ->
  sheetLoop None rs = ([], None).
Proof.
  induction rs as [|row rest IH]; intros H; [reflexivity|].
  simpl. rewrite (rowStep_before_header row) by (apply H; left; reflexivity).
  apply IH. intros row' Hin. apply H. right. exact Hin.
Qed.

Lemma workbookLoop_filter : forall wanted input,
  truthyString (sheetName opts) = Some wanted ->
  RowMaterializer.workbookLoop intl host opts input
  = RowMaterializer.workbookLoop intl host opts (filter (sheetNamed wanted) input).
Proof.
  intros wanted input Hwanted. induction input as [|worksheet rest IH]; [reflexivity|].
  simpl. rewrite Hwanted. unfold sheetNamed at 1.
  destruct (name worksheet) as [current|] eqn:Hname.
  - destruct (current =? wanted)%string eqn:E; cbn [negb].
    + simpl. rewrite Hwanted, Hname, E. cbn [negb]. rewrite IH. reflexivity.
    + exact IH.
  - exact IH.
Qed.

(** X12: with a [sheetName], only the sheets of that name are read: the
    others contribute nothing, not even a failure; and a workbook without a
    sheet of that name yields nothing and raises nothing. *)
Theorem only_named_sheet_is_read : forall wanted input,
  sheetName opts = Some wanted ->
  wanted <> "" ->
  xlsxToObjects input = xlsxToObjects (filter (sheetNamed wanted) input)
  /\ (forallb (fun worksheet => negb (sheetNamed wanted worksheet)) input = true ->
      fst (xlsxToObjects input) = []
      /\ (RowWriter.zoneAccepted intl (timeZone opts) = true ->
          xlsxToObjects input = ([], None))).
Proof.
  intros wanted input Hname Hwanted.
  assert (Htruthy : truthyString (sheetName opts) = Some wanted).
  { rewrite Hname. unfold truthyString.
    destruct (wanted =? "")%string eqn:E; [|reflexivity].
    apply String.eqb_eq in E. contradiction. }
  assert (Heq : xlsxToObjects input = xlsxToObjects (filter (sheetNamed wanted) input)).
  { unfold RowMaterializer.xlsxToObjects.
    rewrite (workbookLoop_filter input Htruthy). reflexivity. }
  split; [exact Heq|]. intros Hnone.
  assert (Hfilter : filter (sheetNamed wanted) input = []).
  { clear Heq. induction input as [|worksheet rest IH]; [reflexivity|].
    simpl in Hnone. apply andb_true_iff in Hnone. destruct Hnone as [H1 H2].
    simpl. apply negb_true_iff in H1. rewrite H1. apply IH. exact H2. }
  rewrite Heq, Hfilter. unfold RowMaterializer.xlsxToObjects, RowWriter.zoneAccepted.
  destruct (truthyString (timeZone opts)) as [tz|]; simpl.
  - unfold TimeZoneClock.assertValidTimeZone.
    destruct (supportsTimeZone intl tz); simpl.
    + split; [reflexivity | intros _; reflexivity].
    + split; [reflexivity | discriminate].
  - split; [reflexivity | intros _; reflexivity].
Qed.

End ReaderExtras.

(** ** The writer *)

Section WriterExtras.

Variable intl : IntlHost.
Variable host : JsHost.

Lemma getProp_In : forall k v (o : Props), getProp k o = Some v -> In (k, v) o.
Proof.
  intros k v o. induction o as [|[k' v'] o IH]; simpl; [discriminate|].
  destruct (k' =? k)%string eqn:E.
  - apply String.eqb_eq in E. intros H. injection H as <-. left. congruence.
  - intros H. right. apply IH. exact H.
Qed.

Lemma setProp_present : forall k v (o : Props),
  In k (keysOf o) -> setProp k v o = replaceProp k v o.
Proof.
  intros k v o Hin. unfold setProp.
  apply hasProp_In in Hin. rewrite Hin. reflexivity.
Qed.

Lemma convertEntries_spec : forall timeZone dateColumnsSet entries converted mapped,
  RowWriter.convertEntries intl host entries timeZone dateColumnsSet converted
  = Return mapped ->
  incl (keysOf entries) (keysOf converted) ->
  keysOf mapped = keysOf converted
  /\ (forall k, ~ In k (keysOf entries) -> getProp k mapped = getProp k converted)
  /\ (NoDup (keysOf entries) ->
      forall k v, In (k, v) entries ->
        match v with
        | VDate d =>
            if RowWriter.shouldConvertDateColumn k dateColumnsSet
            then exists d',
                   RowWriter.utcDateToExcelLocalDate intl host d timeZone = Return d'
                   /\ getProp k mapped = Some (VDate d')
            else getProp k mapped = getProp k converted
        | _ => getProp k mapped = getProp k converted
        end).
Proof.
  intros timeZone dateColumnsSet entries.
  induction entries as [|[k0 v0] rest IH]; intros converted mapped Hrun Hincl.
  - simpl in Hrun. injection Hrun as <-.
    split; [reflexivity|]. split; [reflexivity|]. intros _ k v [].
  - assert (Hk0 : In k0 (keysOf converted)) by (apply Hincl; left; reflexivity).
    assert (Hrest : incl (keysOf rest) (keysOf converted)).
    { intros x Hx. apply Hincl. right. exact Hx. }
    assert (Hplain :
      RowWriter.convertEntries intl host rest timeZone dateColumnsSet converted
      = Return mapped ->
      keysOf mapped = keysOf converted
      /\ (forall k, ~ In k (keysOf ((k0, v0) :: rest)) ->
                    getProp k mapped = getProp k converted)
      /\ (NoDup (keysOf ((k0, v0) :: rest)) ->
          forall k v, In (k, v) rest ->
            match v with
            | VDate d =>
                if RowWriter.shouldConvertDateColumn k dateColumnsSet
                then exists d',
                       RowWriter.utcDateToExcelLocalDate intl host d timeZone = Return d'
                       /\ getProp k mapped = Some (VDate d')
                else getProp k mapped = getProp k converted
            | _ => getProp k mapped = getProp k converted
            end)
      /\ getProp k0 mapped = (if existsb (String.eqb k0) (keysOf rest)
                              then getProp k0 mapped else getProp k0 converted)).
    { intros Hrun'. destruct (IH _ _ Hrun' Hrest) as [Hkeys [Hother Hsel]].
      split; [exact Hkeys|]. split.
      - intros k Hnin. apply Hother. simpl in Hnin. tauto.
      - split.
        + intros Hnd k v Hin. simpl in Hnd. inversion Hnd; subst.
          apply Hsel; assumption.
        + destruct (existsb (String.eqb k0) (keysOf rest)) eqn:E; [reflexivity|].
          apply Hother. intros Hin.
          assert (existsb (String.eqb k0) (keysOf rest) = true).
          { apply existsb_exists. exists k0. split; [exact Hin | apply String.eqb_refl]. }
          congruence. }
    assert (Hfresh : NoDup (keysOf ((k0, v0) :: rest)) ->
                     existsb (String.eqb k0) (keysOf rest) = false).
    { intros Hnd. simpl in Hnd. inversion Hnd; subst.
      destruct (existsb (String.eqb k0) (keysOf rest)) eqn:E; [|reflexivity].
      apply existsb_exists in E. destruct E as [x [Hx Heq]].
      apply String.eqb_eq in Heq. subst x. contradiction. }
    simpl in Hrun.
    destruct v0 as [| |b|n|z|s|d|items|props];
      try (destruct (Hplain Hrun) as [Hkeys [Hother [Hsel Hsame]]];
           split; [exact Hkeys|]; split; [exact Hother|];
           intros Hnd k v [Heq|Hin]; [|apply Hsel; assumption];
           injection Heq as <- <-; rewrite Hsame, (Hfresh Hnd); reflexivity).
    destruct (RowWriter.shouldConvertDateColumn k0 dateColumnsSet) eqn:Hshould.
    + destruct (RowWriter.utcDateToExcelLocalDate intl host d timeZone) as [d'|e] eqn:Hd;
        cbn [bind] in Hrun; [|discriminate].
      rewrite (@setProp_present k0 (VDate d') converted Hk0) in Hrun.
      assert (Hincl' : incl (keysOf rest) (keysOf (replaceProp k0 (VDate d') converted))).
      { rewrite keysOf_replaceProp. exact Hrest. }
      destruct (IH _ _ Hrun Hincl') as [Hkeys [Hother Hsel]].
      rewrite keysOf_replaceProp in Hkeys.
      split; [exact Hkeys|]. split.
      * intros k Hnin. simpl in Hnin. rewrite Hother by tauto.
        apply getProp_replaceProp_other. intros ->. tauto.
      * intros Hnd k v [Heq|Hin].
        -- injection Heq as <- <-. rewrite Hshould. exists d'. split; [exact Hd|].
           simpl in Hnd. inversion Hnd; subst.
           rewrite Hother by assumption. apply getProp_replaceProp_same. exact Hk0.
        -- simpl in Hnd. inversion Hnd as [|x l Hnin Hnd']; subst.
           assert (Hne : k <> k0).
           { intros ->. apply Hnin. apply in_map_iff. exists (k0, v). split; [reflexivity | exact Hin]. }
           specialize (Hsel Hnd' k v Hin).
           destruct v; try (rewrite Hsel; apply getProp_replaceProp_other; exact Hne).
           destruct (RowWriter.shouldConvertDateColumn k dateColumnsSet); [exact Hsel|].
           rewrite Hsel. apply getProp_replaceProp_other. exact Hne.
    + destruct (Hplain Hrun) as [Hkeys [Hother [Hsel Hsame]]].
      split; [exact Hkeys|]. split; [exact Hother|].
      intros Hnd k v [Heq|Hin]; [|apply Hsel; assumption].
      injection Heq as <- <-. rewrite Hshould, Hsame, (Hfresh Hnd). reflexivity.
Qed.

(** X13: the row that [mapRowForExcelWrite] returns has the keys of the
    given row, in the same order.  Under a time zone, a Date value of a
    selected column (any column when [dateColumns] is empty) is replaced by
    its conversion; every other value is the one of the given row. *)
Theorem mapRowForExcelWrite_keeps_shape : forall row timeZone dateColumnsSet mapped,
  RowWriter.mapRowForExcelWrite intl host row timeZone dateColumnsSet = Return mapped ->
  keysOf mapped = keysOf row
  /\ (NoDup (keysOf row) ->
      forall k v, getProp k row = Some v ->
        match v, truthyString timeZone with
        | VDate d, Some tz =>
            if RowWriter.shouldConvertDateColumn k dateColumnsSet
            then exists d',
                   RowWriter.utcDateToExcelLocalDate intl host d tz = Return d'
                   /\ getProp k mapped = Some (VDate d')
            else getProp k mapped = Some v
        | _, _ => getProp k mapped = Some v
        end).
Proof.
  intros row timeZone dateColumnsSet mapped Hmap.
  unfold RowWriter.mapRowForExcelWrite in Hmap.
  destruct (truthyString timeZone) as [tz|].
  - destruct (@convertEntries_spec tz dateColumnsSet row row mapped Hmap (incl_refl _))
      as [Hkeys [_ Hsel]].
    split; [exact Hkeys|]. intros Hnd k v Hget.
    specialize (Hsel Hnd k v (@getProp_In k v row Hget)).
    destruct v; try (rewrite Hsel; exact Hget).
    destruct (RowWriter.shouldConvertDateColumn k dateColumnsSet); [exact Hsel|].
    rewrite Hsel. exact Hget.
  - injection Hmap as <-. split; [reflexivity|].
    intros _ k v Hget. destruct v; exact Hget.
Qed.

Local Abbreviation written timeZone dateColumnsSet :=
  (fun row mapped =>
     RowWriter.mapRowForExcelWrite intl host row timeZone dateColumnsSet = Return mapped).



End WriterExtras.

(** ** The windows of processXlsxLarge *)

Section BatchingExtras.

Variable intl : IntlHost.
Variable host : JsHost.
Variable handler : RowObject -> BatchProcessor.HandlerResult.
Variable schedule : nat -> list BatchProcessor.Choice.

Local Abbreviation consume := (Processor.consume handler schedule).

Lemma numGe_integer : forall (n : nat) (B : Z),
  numGe (numOfZ (Z.of_nat n)) (numOfZ B) = (B <=? Z.of_nat n).
Proof.
  intros n B. unfold numGe, numLe, numOfZ.
  apply eq_iff_eq_true. rewrite Qle_bool_iff, <- Zle_Qle, Z.leb_le. tauto.
Qed.

Lemma consume_batches : forall B concurrency source failure batch w,
  0 < B ->
  Z.of_nat (List.length batch) < B ->
  let run := consume (numOfZ B) concurrency source failure batch w in
  let batches := batchesOf (fst run) in
  (exists rest, (batch ++ source)%list = (List.concat batches ++ rest)%list
                /\ (snd run = Resolves -> rest = [] /\ failure = None)
                /\ (forall e, In (ReaderThrows e) (fst run) ->
                      failure = Some e /\ snd run = Rejects e
                      /\ Forall (fun b => Z.of_nat (List.length b) = B) batches
                      /\ Z.of_nat (List.length rest) < B))
  /\ Forall (fun b => 1 <= Z.of_nat (List.length b) <= B) batches
  /\ Forall (fun b => Z.of_nat (List.length b) = B) (removelast batches).
Proof.
  intros B concurrency source failure. cbv zeta.
  induction source as [|row rest IH]; intros batch w HB Hlen.
  - simpl. destruct failure as [e|].
    + simpl. split; [|split; constructor].
      exists batch. rewrite app_nil_r. split; [reflexivity|].
      split; [discriminate|].
      intros e' [H|[]]. injection H as <-.
      split; [reflexivity|]. split; [reflexivity|]. split; [constructor | exact Hlen].
    + destruct (0 <? List.length batch)%nat eqn:Hsome; simpl.
      * apply Nat.ltb_lt in Hsome. split; [|split].
        -- exists []. rewrite !app_nil_r. split; [reflexivity|].
           split; [intros _; split; reflexivity|].
           intros e [H|[H|[]]]; discriminate.
        -- constructor; [lia | constructor].
        -- constructor.
      * apply Nat.ltb_ge in Hsome. split; [|split; constructor].
        exists []. destruct batch; [|simpl in Hsome; lia].
        split; [reflexivity|].
        split; [intros _; split; reflexivity|].
        intros e [H|[]]. discriminate.
  - cbn [Processor.consume]. rewrite numGe_integer, length_app. cbn [List.length].
    destruct (B <=? Z.of_nat (List.length batch + 1)) eqn:Hfull.
    + apply Z.leb_le in Hfull.
      assert (Hexact : Z.of_nat (List.length (batch ++ [row])) = B)
        by (rewrite length_app; simpl; lia).
      destruct (Processor.runBatch handler schedule concurrency w (batch ++ [row])%list)
        eqn:Hwindow.
      * specialize (IH [] (S w) HB ltac:(simpl; lia)).
        destruct (consume (numOfZ B) concurrency rest failure [] (S w))
          as [events result]. simpl in IH. simpl.
        destruct IH as [[rest' [Hsplit [Hres Hthrow]]] [Hall Hbut]].
        split; [|split].
        -- exists rest'. rewrite <- app_assoc. simpl. rewrite <- app_assoc.
           rewrite <- Hsplit. split; [reflexivity|].
           split; [exact Hres|].
           intros e [H|[H|H]]; try discriminate.
           destruct (Hthrow e H) as [H1 [H2 [H3 H4]]].
           split; [exact H1|]. split; [exact H2|].
           split; [constructor; assumption | exact H4].
        -- constructor; [lia | exact Hall].
        -- destruct (batchesOf events); [constructor|].
           constructor; assumption.
      * simpl. split; [|split].
        -- exists rest. rewrite app_nil_r, <- app_assoc. simpl.
           split; [reflexivity|]. split; [discriminate|].
           intros e' [H|[H|[]]]; discriminate.
        -- constructor; [lia | constructor].
        -- constructor.
      * simpl. split; [|split].
        -- exists rest. rewrite app_nil_r, <- app_assoc. simpl.
           split; [reflexivity|]. split; [discriminate|].
           intros e' [H|[H|[]]]; discriminate.
        -- constructor; [lia | constructor].
        -- constructor.
    + apply Z.leb_gt in Hfull.
      specialize (IH (batch ++ [row])%list w HB
                     ltac:(rewrite length_app; simpl; lia)).
      destruct (consume (numOfZ B) concurrency rest failure (batch ++ [row])%list w)
        as [events result]. simpl in IH. simpl.
      destruct IH as [[rest' [Hsplit [Hres Hthrow]]] [Hall Hbut]].
      split; [|split; assumption].
      exists rest'. rewrite <- Hsplit, <- app_assoc. simpl.
      split; [reflexivity|]. split; [exact Hres|].
      intros e [H|H]; [discriminate|]. apply Hthrow. exact H.
Qed.

Lemma processXlsxLarge_consume : forall input opts B,
  batchSize opts = Some (numOfZ B) ->
  0 < B ->
  numLe (orDefault (numOfZ 8) (concurrency opts)) (numOfZ 0) = false ->
  let read := RowMaterializer.xlsxToObjects intl host (readOpts opts) input in
  let rest := consume (numOfZ B) (orDefault (numOfZ 8) (concurrency opts))
                      (fst read) (snd read) [] 0 in
  Processor.processXlsxLarge intl host handler schedule input opts
  = (OpenReader :: fst rest, snd rest).
Proof.
  intros input opts B Hsize HB Hcap. cbv zeta.
  unfold Processor.processXlsxLarge. rewrite Hsize. cbn [orDefault].
  assert (Hpos : numLe (numOfZ B) (numOfZ 0) = false).
  { unfold numLe, numOfZ. apply not_true_iff_false.
    rewrite Qle_bool_iff, <- Zle_Qle. lia. }
  rewrite Hpos, Hcap.
  destruct (RowMaterializer.xlsxToObjects intl host (readOpts opts) input)
    as [objs failure]. cbn [fst snd].
  destruct (consume (numOfZ B) (orDefault (numOfZ 8) (concurrency opts))
                    objs failure [] 0) as [events result].
  reflexivity.
Qed.

(** X15: with a whole [batchSize] of [B] rows, the windows that
    [processXlsxLarge] runs are consecutive runs of the rows the reader
    yields, in order and without gap or repetition; every window has
    between 1 and [B] rows and every window but the last has [B]; and when
    the call resolves, every row has been in a window and the reader has
    not failed. *)
Theorem windows_partition_rows : forall input opts B,
  batchSize opts = Some (numOfZ B) ->
  0 < B ->
  numLe (orDefault (numOfZ 8) (concurrency opts)) (numOfZ 0) = false ->
  let run := Processor.processXlsxLarge intl host handler schedule input opts in
  let read := RowMaterializer.xlsxToObjects intl host (readOpts opts) input in
  let batches := batchesOf (fst run) in
  (exists rest, fst read = (List.concat batches ++ rest)%list
                /\ (snd run = Resolves -> rest = [] /\ snd read = None))
  /\ Forall (fun b => 1 <= Z.of_nat (List.length b) <= B) batches
  /\ Forall (fun b => Z.of_nat (List.length b) = B) (removelast batches).
Proof.
  intros input opts B Hsize HB Hcap. cbv zeta.
  rewrite (processXlsxLarge_consume input opts Hsize HB Hcap). cbn [fst snd batchesOf].
  destruct (@consume_batches B (orDefault (numOfZ 8) (concurrency opts))
              (fst (RowMaterializer.xlsxToObjects intl host (readOpts opts) input))
              (snd (RowMaterializer.xlsxToObjects intl host (readOpts opts) input))
              [] 0%nat HB ltac:(simpl; lia))
    as [[rest [Hsplit [Hres _]]] [Hall Hbut]].
  split; [|split; assumption].
  exists rest. split; [exact Hsplit | exact Hres].
Qed.

(** X16: when the reader fails, [processXlsxLarge] rejects with the error
    of the reader, every window it has run was a full one, and the rows
    read since the last full window, fewer than [batchSize], are in no
    window: their handler is never called. *)
Theorem reader_failure_drops_open_batch : forall input opts B e,
  batchSize opts = Some (numOfZ B) ->
  0 < B ->
  numLe (orDefault (numOfZ 8) (concurrency opts)) (numOfZ 0) = false ->
  let run := Processor.processXlsxLarge intl host handler schedule input opts in
  let read := RowMaterializer.xlsxToObjects intl host (readOpts opts) input in
  let batches := batchesOf (fst run) in
  In (ReaderThrows e) (fst run) ->
  snd read = Some e
  /\ snd run = Rejects e
  /\ Forall (fun b => Z.of_nat (List.length b) = B) batches
  /\ exists rest, fst read = (List.concat batches ++ rest)%list
                  /\ Z.of_nat (List.length rest) < B.
Proof.
  intros input opts B e Hsize HB Hcap. cbv zeta.
  rewrite (processXlsxLarge_consume input opts Hsize HB Hcap). cbn [fst snd batchesOf].
  intros [Hin|Hin]; [discriminate|].
  destruct (@consume_batches B (orDefault (numOfZ 8) (concurrency opts))
              (fst (RowMaterializer.xlsxToObjects intl host (readOpts opts) input))
              (snd (RowMaterializer.xlsxToObjects intl host (readOpts opts) input))
              [] 0%nat HB ltac:(simpl; lia))
    as [[rest [Hsplit [_ Hthrow]]] _].
  destruct (Hthrow e Hin) as [Hfail [Hrej [Hfull Hshort]]].
  split; [exact Hfail|]. split; [exact Hrej|]. split; [exact Hfull|].
  exists rest. split; [exact Hsplit | exact Hshort].
Qed.

End BatchingExtras.

(** ** What a window keeps *)

Section WindowExtras.

Import BatchProcessor.

Variable T : Type.
Variable handler : T -> HandlerResult.
Variable concurrency : JsNumber.

Local Abbreviation Invocation := (BatchProcessor.Invocation T).
Local Abbreviation State := (BatchProcessor.State T).
Local Abbreviation step := (BatchProcessor.step handler concurrency).
Local Abbreviation run := (BatchProcessor.run handler concurrency).

Lemma Sound_enqueue : forall (invs : list Invocation) fl q un js,
  Sound invs fl q un ->
  (forall i r o, In (React i r o) js ->
     exists inv, nth_error invs i = Some inv /\ settled inv <> None) ->
  Sound invs fl (q ++ js) un.
Proof.
  intros invs fl q un js [H1 H2 H3 H4] Hjs. constructor.
  - exact H1.
  - intros i r o Hin. apply in_app_or in Hin. destruct Hin as [Hin|Hin];
      [eapply H2 | eapply Hjs]; exact Hin.
  - exact H3.
  - intros j inv e Hj Hs. destruct (H4 j inv e Hj Hs) as [H|H]; [left|right; exact H].
    apply in_or_app. left. exact H.
Qed.

Lemma Sound_pop : forall (invs : list Invocation) fl j q un,
  Sound invs fl (j :: q) un ->
  match j with React _ OnFinally _ => False | _ => True end ->
  Sound invs fl q un.
Proof.
  intros invs fl j q un [H1 H2 H3 H4] Hj. constructor.
  - exact H1.
  - intros i r o Hin. eapply H2. right. exact Hin.
  - exact H3.
  - intros j0 inv e Hj0 Hs. destruct (H4 j0 inv e Hj0 Hs) as [[H|H]|H].
    + subst j. contradiction.
    + left. exact H.
    + right. exact H.
Qed.

Lemma Sound_finally : forall (invs : list Invocation) fl i o q un,
  Sound invs fl (React i OnFinally o :: q) un ->
  Sound invs (remove Nat.eq_dec i fl) q
        (match o with Rejected e => (un ++ [e])%list | Fulfilled => un end).
Proof.
  intros invs fl i o q un [H1 H2 H3 H4]. constructor.
  - intros j inv Hj Hs. destruct (H1 j inv Hj Hs) as [Hin Hfin].
    split; [|exact Hfin]. apply in_in_remove; [|exact Hin].
    intros ->. destruct (H2 i OnFinally o (or_introl eq_refl)) as [inv' [Hi Hset]].
    congruence.
  - intros i0 r o0 Hin. eapply H2. right. exact Hin.
  - exact H3.
  - intros j inv e Hj Hs. destruct (H4 j inv e Hj Hs) as [[H|H]|H].
    + injection H as -> ->. right. apply in_or_app. right. left. reflexivity.
    + left. exact H.
    + right. destruct o; [exact H | apply in_or_app; left; exact H].
Qed.

Lemma Sound_update : forall (invs : list Invocation) fl q un i f,
  Sound invs fl q un ->
  (forall inv, settled (f inv) = settled inv
               /\ (started inv = true -> started (f inv) = true)
               /\ (In OnFinally (reactions inv) -> In OnFinally (reactions (f inv)))) ->
  Sound (updateAt i f invs) fl q un.
Proof.
  intros invs fl q un i f [H1 H2 H3 H4] Hf. constructor.
  - intros j inv' Hj Hs. destruct (updateAt_inv _ _ _ _ Hj) as [inv [Hj0 [[-> ->]|[_ ->]]]].
    + destruct (Hf inv) as [Hset [_ Hfin]]. rewrite Hset in Hs.
      destruct (H1 _ _ Hj0 Hs) as [Hin Hreg]. split; [exact Hin | apply Hfin; exact Hreg].
    + apply (H1 _ _ Hj0 Hs).
  - intros i0 r o Hin. destruct (H2 _ _ _ Hin) as [inv [Hi Hs]].
    destruct (Nat.eq_dec i0 i) as [->|Hne].
    + exists (f inv). split; [apply updateAt_same; exact Hi|].
      destruct (Hf inv) as [Hset _]. rewrite Hset. exact Hs.
    + exists inv. split; [rewrite updateAt_other; assumption | exact Hs].
  - intros j inv' Hj Hs. destruct (updateAt_inv _ _ _ _ Hj) as [inv [Hj0 [[-> ->]|[_ ->]]]].
    + destruct (Hf inv) as [Hset [Hst _]]. rewrite Hset in Hs.
      apply Hst. apply (H3 _ _ Hj0 Hs).
    + apply (H3 _ _ Hj0 Hs).
  - intros j inv' e Hj Hs. destruct (updateAt_inv _ _ _ _ Hj) as [inv [Hj0 [[-> ->]|[_ ->]]]].
    + destruct (Hf inv) as [Hset _]. rewrite Hset in Hs. apply (H4 _ _ _ Hj0 Hs).
    + apply (H4 _ _ _ Hj0 Hs).
Qed.

Lemma Sound_settle : forall (invs : list Invocation) fl q un i inv o,
  Sound invs fl q un ->
  nth_error invs i = Some inv ->
  settled inv = None ->
  started inv = true ->
  Sound (updateAt i (fun inv0 => mkInvocation (item inv0) (started inv0) (Some o) []) invs)
        fl (q ++ map (fun r => React i r o) (reactions inv)) un.
Proof.
  intros invs fl q un i inv o [H1 H2 H3 H4] Hi Hpending Hstarted. constructor.
  - intros j inv' Hj Hs. destruct (updateAt_inv _ _ _ _ Hj) as [inv0 [Hj0 [[-> ->]|[_ ->]]]].
    + discriminate.
    + apply (H1 _ _ Hj0 Hs).
  - intros i0 r o0 Hin. apply in_app_or in Hin. destruct Hin as [Hin|Hin].
    + destruct (H2 _ _ _ Hin) as [inv0 [Hi0 Hs]].
      destruct (Nat.eq_dec i0 i) as [->|Hne].
      * eexists. split; [apply updateAt_same; exact Hi0 | discriminate].
      * exists inv0. split; [rewrite updateAt_other; assumption | exact Hs].
    + apply in_map_iff in Hin. destruct Hin as [r' [Heq _]]. injection Heq as <- _ _.
      eexists. split; [apply updateAt_same; exact Hi | discriminate].
  - intros j inv' Hj Hs. destruct (updateAt_inv _ _ _ _ Hj) as [inv0 [Hj0 [[-> ->]|[_ ->]]]].
    + simpl. congruence.
    + apply (H3 _ _ Hj0 Hs).
  - intros j inv' e Hj Hs. destruct (updateAt_inv _ _ _ _ Hj) as [inv0 [Hj0 [[-> ->]|[_ ->]]]].
    + simpl in Hs. injection Hs as ->. left. apply in_or_app. right.
      apply in_map_iff. exists OnFinally. split; [reflexivity|].
      rewrite Hi in Hj0. injection Hj0 as <-. apply (H1 _ _ Hi Hpending).
    + destruct (H4 _ _ _ Hj0 Hs) as [H|H]; [left | right; exact H].
      apply in_or_app. left. exact H.
Qed.

Lemma Sound_launch : forall (invs : list Invocation) fl q un x,
  Sound invs fl q un ->
  Sound (invs ++ [mkInvocation x false None [OnFinally]])%list
        (fl ++ [List.length invs])%list
        (q ++ [CallHandler (List.length invs)])%list un.
Proof.
  intros invs fl q un x [H1 H2 H3 H4].
  assert (Hold : forall j inv,
            nth_error (invs ++ [mkInvocation x false None [OnFinally]])%list j = Some inv ->
            nth_error invs j = Some inv
            \/ (j = List.length invs /\ inv = mkInvocation x false None [OnFinally])).
  { intros j inv Hj. destruct (Nat.lt_ge_cases j (List.length invs)) as [Hlt|Hge].
    - left. rewrite nth_error_app1 in Hj by exact Hlt. exact Hj.
    - right. rewrite nth_error_app2 in Hj by exact Hge.
      destruct (j - List.length invs)%nat as [|n] eqn:Hn; simpl in Hj.
      + injection Hj as <-. split; [lia | reflexivity].
      + destruct n; discriminate. }
  constructor.
  - intros j inv Hj Hs. destruct (Hold _ _ Hj) as [Hj0|[-> ->]].
    + destruct (H1 _ _ Hj0 Hs) as [Hin Hfin]. split; [|exact Hfin].
      apply in_or_app. left. exact Hin.
    + split; [apply in_or_app; right; left; reflexivity | left; reflexivity].
  - intros i r o Hin. apply in_app_or in Hin. destruct Hin as [Hin|[Hin|[]]];
      [|discriminate].
    destruct (H2 _ _ _ Hin) as [inv [Hi Hs]]. exists inv. split; [|exact Hs].
    rewrite nth_error_app1; [exact Hi|]. apply nth_error_Some. congruence.
  - intros j inv Hj Hs. destruct (Hold _ _ Hj) as [Hj0|[-> ->]].
    + apply (H3 _ _ Hj0 Hs).
    + simpl in Hs. congruence.
  - intros j inv e Hj Hs. destruct (Hold _ _ Hj) as [Hj0|[-> ->]].
    + destruct (H4 _ _ _ Hj0 Hs) as [H|H]; [left | right; exact H].
      apply in_or_app. left. exact H.
    + discriminate.
Qed.

Lemma settleInvocation_sound : forall (s : State) i o,
  SoundState s ->
  (forall inv, nth_error (invocations s) i = Some inv -> started inv = true) ->
  SoundState (settleInvocation i o s).
Proof.
  intros s i o Hs Hstarted. unfold SoundState, settleInvocation.
  destruct (nth_error (invocations s) i) as [inv|] eqn:Hi; [|exact Hs].
  destruct (settled inv) eqn:Hset; [exact Hs|].
  cbn [invocations inFlight queue unhandledRejections enqueue withInvocations].
  apply Sound_settle; try assumption. apply Hstarted. reflexivity.
Qed.

Lemma subscribeOne_sound : forall k (s : State) j,
  SoundState s -> SoundState (subscribeOne k s j).
Proof.
  intros k s j Hs. unfold SoundState, subscribeOne.
  destruct (nth_error (invocations s) j) as [inv|] eqn:Hj; [|exact Hs].
  destruct (settled inv) as [o|] eqn:Hset.
  - cbn [invocations inFlight queue unhandledRejections enqueue].
    apply Sound_enqueue; [exact Hs|].
    intros i r o' [Heq|[]]. injection Heq as <- _ _.
    exists inv. split; [exact Hj | congruence].
  - cbn [invocations inFlight queue unhandledRejections withInvocations].
    apply Sound_update; [exact Hs|].
    intros inv0. cbn [settled started reactions]. split; [reflexivity|].
    split; [tauto|]. intros Hin. apply in_or_app. left. exact Hin.
Qed.

Lemma subscribe_sound : forall k ids (s : State),
  SoundState s -> SoundState (subscribe k ids s).
Proof.
  intros k ids. unfold subscribe.
  induction ids as [|j ids IH]; intros s Hs; simpl; [exact Hs|].
  apply IH. apply subscribeOne_sound. exact Hs.
Qed.

Lemma SoundState_initial : forall items : list T, SoundState (initial items).
Proof.
  intros items. constructor; simpl.
  - intros [|j] inv Hj; discriminate.
  - intros i r o [].
  - intros [|j] inv Hj; discriminate.
  - intros [|j] inv e Hj; discriminate.
Qed.

Lemma step_sound : forall (s : State) c, SoundState s -> SoundState (step s c).
Proof.
  intros s c Hs. destruct c as [| |i o]; simpl.
  - (* the body *)
    unfold mainStep.
    destruct (main s) as [[|x rest]|k raced rest|k remaining|o rest|o] eqn:Hmain;
      try exact Hs.
    + pose proof (subscribe_sound (nextAggregate s) (inFlight s) Hs) as Hsub.
      cbv zeta. destruct (inFlight s); unfold SoundState;
        cbn [invocations inFlight queue unhandledRejections]; [|exact Hsub].
      apply Sound_enqueue; [exact Hsub|]. intros i r o [H|[]]. discriminate.
    + cbv zeta. cbn [inFlight nextAggregate].
      pose proof (Sound_launch x Hs) as Hlaunch.
      match goal with
      | [ |- context [if ?b then _ else _] ] => destruct b
      end.
      * match goal with
        | [ |- context [subscribe ?k ?ids ?s1] ] =>
            pose proof (@subscribe_sound k ids s1 Hlaunch) as Hsub
        end.
        exact Hsub.
      * exact Hlaunch.
  - (* a job *)
    unfold jobStep. destruct (inSynchronousCode s); [exact Hs|].
    destruct (queue s) as [|j q] eqn:Hqueue; [exact Hs|].
    unfold SoundState in Hs. rewrite Hqueue in Hs.
    destruct j as [i|i [|k] o|]; unfold runJob; cbn [invocations main].
    + pose proof (Sound_pop Hs I) as Hpop.
      destruct (nth_error (invocations s) i) as [inv|] eqn:Hi; [|exact Hpop].
      set (s1 := withInvocations _ _).
      assert (Hs1 : SoundState s1).
      { subst s1. unfold SoundState.
        cbn [invocations inFlight queue unhandledRejections withInvocations].
        apply Sound_update; [exact Hpop|].
        intros inv0. cbn [settled started reactions]. tauto. }
      assert (Hst : forall inv0, nth_error (invocations s1) i = Some inv0 ->
                                 started inv0 = true).
      { subst s1. cbn [invocations withInvocations]. intros inv0 H0.
        rewrite (updateAt_same _ _ _ Hi) in H0. injection H0 as <-. reflexivity. }
      destruct (handler (item inv)).
      * apply settleInvocation_sound; assumption.
      * apply settleInvocation_sound; assumption.
      * exact Hs1.
    + apply (Sound_finally Hs).
    + pose proof (Sound_pop Hs I) as Hpop.
      assert (Hres : Sound (invocations s) (inFlight s) (q ++ [Resume])%list
                           (unhandledRejections s)).
      { apply Sound_enqueue; [exact Hpop|]. intros i' r o' [H|[]]. discriminate. }
      unfold aggregateReaction. cbn [main].
      destruct (main s) as [rest|k' raced rest|k' remaining|o' rest|o'];
        try exact Hpop.
      * destruct (k =? k')%nat; [exact Hres | exact Hpop].
      * destruct (k =? k')%nat; [|exact Hpop].
        destruct o as [|e]; [|exact Hres].
        destruct (remaining - 1)%nat; [exact Hres | exact Hpop].
    + pose proof (Sound_pop Hs I) as Hpop.
      destruct (main s) as [rest|k' raced rest|k' remaining|[|e] [rest|]|o'];
        exact Hpop.
  - (* the promise of a handler is settled *)
    unfold settleStep. destruct (inSynchronousCode s); [exact Hs|].
    destruct (nth_error (invocations s) i) as [inv|] eqn:Hi; [|exact Hs].
    destruct (started inv) eqn:Hst; [|exact Hs].
    destruct (settled inv); [exact Hs|].
    apply settleInvocation_sound; [exact Hs|].
    intros inv0 H0. rewrite Hi in H0. injection H0 as <-. exact Hst.
Qed.

Lemma run_sound : forall schedule (s : State), SoundState s -> SoundState (run s schedule).
Proof.
  induction schedule as [|c schedule IH]; intros s Hs; simpl; [exact Hs|].
  apply IH. apply step_sound. exact Hs.
Qed.

(** X17: a handler failure never stays silent: once the job of the
    [finally] callback of a failed invocation has run, its error is among
    the rejections that nobody handles, since the promise that
    [promise.finally] returns is rejected with it and is dropped; until
    then that job is in the queue.  This holds whether or not the error
    also rejects [runBatch]. *)
Theorem failure_is_unhandled_rejection : forall (items : list T) schedule j inv e,
  let s := run (initial items) schedule in
  nth_error (invocations s) j = Some inv ->
  settled inv = Some (Rejected e) ->
  In (React j OnFinally (Rejected e)) (queue s) \/ In e (unhandledRejections s).
Proof.
  intros items schedule j inv e s Hj Hs.
  pose proof (run_sound schedule (SoundState_initial items)) as Hsound.
  apply (sound_reported Hsound _ Hj Hs).
Qed.



Local Abbreviation elementsOf k :=
  (fun inv : Invocation => List.length (filter (isElementOf k) (reactions inv))).

Lemma queuedFor_app : forall k q q',
  queuedFor k (q ++ q') = (queuedFor k q + queuedFor k q')%nat.
Proof.
  intros k q q'. unfold queuedFor. rewrite filter_app, length_app. reflexivity.
Qed.

Lemma queuedFor_reactions : forall k i o rs,
  queuedFor k (map (fun r => React i r o) rs)
  = List.length (filter (isElementOf k) rs).
Proof.
  intros k i o rs. unfold queuedFor. induction rs as [|r rs IH]; [reflexivity|].
  simpl. destruct r as [|k']; simpl; [exact IH|].
  destruct (k' =? k)%nat; simpl; rewrite IH; reflexivity.
Qed.

Lemma registeredFor_app : forall k (invs more : list Invocation),
  registeredFor k (invs ++ more) = (registeredFor k invs + registeredFor k more)%nat.
Proof.
  intros k invs more. unfold registeredFor. rewrite map_app, list_sum_app. reflexivity.
Qed.

Lemma registeredFor_updateAt : forall k i (f : Invocation -> Invocation) invs inv,
  nth_error invs i = Some inv ->
  (registeredFor k (updateAt i f invs) + elementsOf k inv
   = registeredFor k invs + elementsOf k (f inv))%nat.
Proof.
  intros k i f invs. revert i. unfold registeredFor.
  induction invs as [|a invs IH]; intros [|i] inv Hi; simpl in *; try discriminate.
  - injection Hi as ->. lia.
  - specialize (IH i inv Hi). lia.
Qed.

Lemma registeredFor_zero : forall k (invs : list Invocation) j inv,
  registeredFor k invs = 0%nat ->
  nth_error invs j = Some inv ->
  ~ In (OnAggregate k) (reactions inv).
Proof.
  intros k invs. unfold registeredFor.
  induction invs as [|a invs IH]; intros [|j] inv Hzero Hj; simpl in *; try discriminate.
  - injection Hj as ->. intros Hin.
    assert (Hf : In (OnAggregate k) (filter (isElementOf k) (reactions inv))).
    { apply filter_In. split; [exact Hin|]. simpl. apply Nat.eqb_refl. }
    destruct (filter (isElementOf k) (reactions inv)); [exact Hf | simpl in Hzero; lia].
  - apply (IH j inv); [lia | exact Hj].
Qed.

Lemma map_item_updateAt : forall i (f : Invocation -> Invocation) invs,
  (forall inv, item (f inv) = item inv) ->
  map (@item T) (updateAt i f invs) = map (@item T) invs.
Proof.
  intros i f invs Hf. revert i.
  induction invs as [|a invs IH]; intros [|i]; simpl; try reflexivity.
  - rewrite Hf. reflexivity.
  - rewrite IH. reflexivity.
Qed.

Lemma settleInvocation_waiting : forall (s : State) i o k,
  waitingFor k (settleInvocation i o s) = waitingFor k s.
Proof.
  intros s i o k. unfold settleInvocation.
  destruct (nth_error (invocations s) i) as [inv|] eqn:Hi; [|reflexivity].
  destruct (settled inv); [reflexivity|].
  unfold waitingFor. cbn [queue invocations enqueue withInvocations].
  rewrite queuedFor_app, queuedFor_reactions.
  pose proof (registeredFor_updateAt k i
                (fun inv0 => mkInvocation (item inv0) (started inv0) (Some o) [])
                _ Hi) as Hreg.
  cbn [reactions filter List.length] in Hreg. lia.
Qed.

Lemma settleInvocation_frame : forall (s : State) i o,
  main (settleInvocation i o s) = main s
  /\ nextAggregate (settleInvocation i o s) = nextAggregate s
  /\ map (@item T) (invocations (settleInvocation i o s)) = map (@item T) (invocations s).
Proof.
  intros s i o. unfold settleInvocation.
  destruct (nth_error (invocations s) i) as [inv|]; [|repeat split].
  destruct (settled inv); [repeat split|].
  cbn [main nextAggregate invocations enqueue withInvocations].
  split; [reflexivity|]. split; [reflexivity|].
  apply map_item_updateAt. reflexivity.
Qed.

Lemma settleInvocation_entries : forall (s : State) i o j inv',
  nth_error (invocations (settleInvocation i o s)) j = Some inv' ->
  nth_error (invocations s) j = Some inv' \/ settled inv' <> None.
Proof.
  intros s i o j inv'. unfold settleInvocation.
  destruct (nth_error (invocations s) i) as [inv|] eqn:Hi; [|tauto].
  destruct (settled inv); [tauto|].
  cbn [invocations enqueue withInvocations]. intros Hj.
  destruct (updateAt_inv _ _ _ _ Hj) as [inv0 [Hj0 [[-> ->]|[_ ->]]]].
  - right. discriminate.
  - left. exact Hj0.
Qed.

Lemma subscribeOne_waiting : forall k (s : State) j k',
  (waitingFor k' (subscribeOne k s j)
   <= waitingFor k' s + (if (k =? k')%nat then 1 else 0))%nat.
Proof.
  intros k s j k'. unfold subscribeOne.
  destruct (nth_error (invocations s) j) as [inv|] eqn:Hj; [|lia].
  destruct (settled inv) as [o|].
  - unfold waitingFor. cbn [queue invocations enqueue].
    rewrite queuedFor_app. unfold queuedFor at 2. simpl.
    destruct (k =? k')%nat; simpl; lia.
  - unfold waitingFor. cbn [queue invocations withInvocations].
    pose proof (registeredFor_updateAt k' j
                  (fun inv0 => mkInvocation (item inv0) (started inv0) (settled inv0)
                                 (reactions inv0 ++ [OnAggregate k])%list)
                  _ Hj) as Hreg.
    cbn [reactions] in Hreg. rewrite filter_app, length_app in Hreg. simpl in Hreg.
    destruct (k =? k')%nat; simpl in Hreg; lia.
Qed.

Lemma subscribe_waiting : forall k ids (s : State) k',
  (waitingFor k' (subscribe k ids s)
   <= waitingFor k' s + (if (k =? k')%nat then List.length ids else 0))%nat.
Proof.
  intros k ids. unfold subscribe.
  induction ids as [|j ids IH]; intros s k'; simpl.
  - destruct (k =? k')%nat; lia.
  - specialize (IH (subscribeOne k s j) k').
    pose proof (subscribeOne_waiting k s j k') as Hone.
    destruct (k =? k')%nat; lia.
Qed.

Lemma subscribeOne_entries : forall k (s : State) j0 j inv',
  nth_error (invocations (subscribeOne k s j0)) j = Some inv' ->
  exists inv,
    nth_error (invocations s) j = Some inv
    /\ settled inv' = settled inv
    /\ (forall r, In r (reactions inv) -> In r (reactions inv'))
    /\ (j = j0 -> settled inv = None -> In (OnAggregate k) (reactions inv')).
Proof.
  intros k s j0 j inv'. unfold subscribeOne.
  destruct (nth_error (invocations s) j0) as [inv0|] eqn:Hj0.
  - destruct (settled inv0) as [o|] eqn:Hs0.
    + cbn [invocations enqueue]. intros Hj. exists inv'.
      split; [exact Hj|]. split; [reflexivity|]. split; [tauto|].
      intros -> Hpending. congruence.
    + cbn [invocations withInvocations]. intros Hj.
      destruct (updateAt_inv _ _ _ _ Hj) as [inv [Hinv [[-> ->]|[Hne ->]]]].
      * exists inv. split; [exact Hinv|]. cbn [settled reactions].
        split; [reflexivity|]. split.
        -- intros r Hr. apply in_or_app. left. exact Hr.
        -- intros _ _. apply in_or_app. right. left. reflexivity.
      * exists inv. split; [exact Hinv|]. split; [reflexivity|]. split; [tauto|].
        intros Heq. contradiction.
  - intros Hj. exists inv'. split; [exact Hj|]. split; [reflexivity|]. split; [tauto|].
    intros -> _. congruence.
Qed.

Lemma subscribeOne_frame : forall k (s : State) j,
  main (subscribeOne k s j) = main s
  /\ nextAggregate (subscribeOne k s j) = nextAggregate s
  /\ inFlight (subscribeOne k s j) = inFlight s
  /\ map (@item T) (invocations (subscribeOne k s j)) = map (@item T) (invocations s).
Proof.
  intros k s j. unfold subscribeOne.
  destruct (nth_error (invocations s) j) as [inv|]; [|repeat split].
  destruct (settled inv); [repeat split|].
  cbn [main nextAggregate inFlight invocations withInvocations].
  repeat split. apply map_item_updateAt. reflexivity.
Qed.

Lemma subscribe_frame : forall k ids (s : State),
  main (subscribe k ids s) = main s
  /\ nextAggregate (subscribe k ids s) = nextAggregate s
  /\ inFlight (subscribe k ids s) = inFlight s
  /\ map (@item T) (invocations (subscribe k ids s)) = map (@item T) (invocations s).
Proof.
  intros k ids. unfold subscribe.
  induction ids as [|j ids IH]; intros s; simpl; [repeat split|].
  destruct (IH (subscribeOne k s j)) as [H1 [H2 [H3 H4]]].
  destruct (subscribeOne_frame k s j) as [G1 [G2 [G3 G4]]].
  repeat split; congruence.
Qed.

Lemma subscribe_entries : forall k ids (s : State) j inv',
  nth_error (invocations (subscribe k ids s)) j = Some inv' ->
  exists inv,
    nth_error (invocations s) j = Some inv
    /\ settled inv' = settled inv
    /\ (forall r, In r (reactions inv) -> In r (reactions inv'))
    /\ (In j ids -> settled inv = None -> In (OnAggregate k) (reactions inv')).
Proof.
  intros k ids. unfold subscribe.
  induction ids as [|j0 ids IH]; intros s j inv' Hj; simpl in Hj.
  - exists inv'. split; [exact Hj|]. split; [reflexivity|]. split; [tauto|].
    intros [].
  - destruct (IH _ _ _ Hj) as [inv1 [Hj1 [Hs1 [Hr1 Hk1]]]].
    destruct (subscribeOne_entries _ _ _ _ Hj1) as [inv [Hinv [Hs [Hr Hk]]]].
    exists inv. split; [exact Hinv|]. split; [congruence|]. split.
    + intros r Hin. apply Hr1. apply Hr. exact Hin.
    + intros [->|Hin] Hpending.
      * apply Hr1. apply Hk; [reflexivity | exact Hpending].
      * apply Hk1; [exact Hin | congruence].
Qed.

Lemma Barrier_initial : forall items : list T, Barrier items (initial items).
Proof.
  intros items. split; [intros k _; reflexivity|]. reflexivity.
Qed.


Lemma Barrier_same : forall items (s s' : State),
  Barrier items s ->
  invocations s' = invocations s ->
  main s' = main s ->
  nextAggregate s' = nextAggregate s ->
  (forall k, (queuedFor k (queue s') <= queuedFor k (queue s))%nat) ->
  Barrier items s'.
Proof.
  intros items s s' [Hfresh Hplace] Hinvs Hmain Hnext Hqueue.
  assert (Hle : forall k, (waitingFor k s' <= waitingFor k s)%nat).
  { intros k. unfold waitingFor. rewrite Hinvs. specialize (Hqueue k). lia. }
  split.
  - intros k Hk. rewrite Hnext in Hk. specialize (Hfresh k Hk). specialize (Hle k). lia.
  - unfold placeOK in *. rewrite Hmain, Hinvs.
    destruct (main s) as [rest|k raced rest|k remaining|[|e] [rest|]|[|e]];
      try exact Hplace.
    destruct Hplace as [H1 [H2 H3]]. split; [exact H1|]. split; [|exact H3].
    specialize (Hle k). lia.
Qed.

Lemma Barrier_update : forall items (s : State) i f,
  Barrier items s ->
  (forall inv : Invocation,
     item (f inv) = item inv /\ settled (f inv) = settled inv
     /\ reactions (f inv) = reactions inv) ->
  Barrier items (withInvocations (updateAt i f (invocations s)) s).
Proof.
  intros items s i f [Hfresh Hplace] Hf.
  assert (Hitems : map (@item T) (updateAt i f (invocations s))
                   = map (@item T) (invocations s)).
  { apply map_item_updateAt. intros inv. apply Hf. }
  assert (Hwait : forall k, waitingFor k (withInvocations (updateAt i f (invocations s)) s)
                            = waitingFor k s).
  { intros k. unfold waitingFor. cbn [queue invocations withInvocations].
    destruct (nth_error (invocations s) i) as [inv|] eqn:Hi.
    - pose proof (registeredFor_updateAt k i f _ Hi) as Hreg.
      cbv beta in Hreg. destruct (Hf inv) as [_ [_ Hr]]. rewrite Hr in Hreg. lia.
    - assert (Hsame : updateAt i f (invocations s) = invocations s).
      { clear - Hi. revert i Hi. induction (invocations s) as [|a l IH];
          intros [|i] Hi; simpl in *; try reflexivity; try discriminate.
        rewrite IH by exact Hi. reflexivity. }
      rewrite Hsame. reflexivity. }
  assert (Hentries : forall j inv',
            nth_error (updateAt i f (invocations s)) j = Some inv' ->
            exists inv, nth_error (invocations s) j = Some inv
                        /\ settled inv' = settled inv
                        /\ reactions inv' = reactions inv).
  { intros j inv' Hj. destruct (updateAt_inv _ _ _ _ Hj) as [inv [Hinv [[-> ->]|[_ ->]]]].
    - exists inv. split; [exact Hinv|]. destruct (Hf inv) as [_ [H1 H2]].
      split; assumption.
    - exists inv. repeat split. exact Hinv. }
  split.
  - intros k Hk. rewrite Hwait. apply Hfresh. exact Hk.
  - unfold placeOK in *. cbn [main invocations withInvocations].
    destruct (main s) as [rest|k raced rest|k remaining|[|e] [rest|]|[|e]];
      try exact Hplace; try (rewrite Hitems; exact Hplace).
    + destruct Hplace as [H1 [H2 H3]]. split; [rewrite Hitems; exact H1|].
      split; [rewrite Hwait; exact H2|].
      intros j inv' Hj Hpending. destruct (Hentries _ _ Hj) as [inv [Hinv [Hs Hr]]].
      rewrite Hr. apply (H3 j inv Hinv). congruence.
    + destruct Hplace as [H1 H2]. split; [rewrite Hitems; exact H1|].
      intros j inv' Hj. destruct (Hentries _ _ Hj) as [inv [Hinv [Hs _]]].
      rewrite Hs. apply (H2 j inv Hinv).
    + destruct Hplace as [H1 H2]. split; [rewrite Hitems; exact H1|].
      intros j inv' Hj. destruct (Hentries _ _ Hj) as [inv [Hinv [Hs _]]].
      rewrite Hs. apply (H2 j inv Hinv).
Qed.

Lemma settleInvocation_barrier : forall items (s : State) i o,
  Barrier items s -> Barrier items (settleInvocation i o s).
Proof.
  intros items s i o [Hfresh Hplace].
  destruct (settleInvocation_frame s i o) as [Hmain [Hnext Hitems]].
  split.
  - intros k Hk. rewrite settleInvocation_waiting. apply Hfresh. congruence.
  - unfold placeOK in *. rewrite Hmain, Hitems.
    destruct (main s) as [rest|k raced rest|k remaining|[|e] [rest|]|[|e]];
      try exact Hplace.
    + destruct Hplace as [H1 [H2 H3]]. split; [exact H1|].
      split; [rewrite settleInvocation_waiting; exact H2|].
      intros j inv' Hj Hpending.
      destruct (settleInvocation_entries _ _ _ _ Hj) as [Hold|Hset]; [|congruence].
      apply (H3 j inv' Hold Hpending).
    + destruct Hplace as [H1 H2]. split; [exact H1|]. intros j inv' Hj.
      destruct (settleInvocation_entries _ _ _ _ Hj) as [Hold|Hset]; [|exact Hset].
      apply (H2 j inv' Hold).
    + destruct Hplace as [H1 H2]. split; [exact H1|]. intros j inv' Hj.
      destruct (settleInvocation_entries _ _ _ _ Hj) as [Hold|Hset]; [|exact Hset].
      apply (H2 j inv' Hold).
Qed.

Lemma step_barrier : forall items (s : State) c,
  SoundState s -> Barrier items s -> Barrier items (step s c).
Proof.
  intros items s c Hsound Hb. destruct c as [| |i o]; simpl.
  - (* the body *)
    unfold mainStep.
    destruct (main s) as [[|x rest]|k raced rest|k remaining|o rest|o] eqn:Hmain;
      try exact Hb.
    + (* the wait-all *)
      destruct Hb as [Hfresh Hplace]. unfold placeOK in Hplace. rewrite Hmain in Hplace.
      rewrite app_nil_r in Hplace. cbv zeta.
      remember (subscribe (nextAggregate s) (inFlight s) s) as s2 eqn:Hs2.
      destruct (subscribe_frame (nextAggregate s) (inFlight s) s) as [_ [_ [_ Hitems]]].
      rewrite <- Hs2 in Hitems.
      assert (Hwait : forall k', (nextAggregate s <= k')%nat ->
                (waitingFor k' s2
                 <= (if (nextAggregate s =? k')%nat then List.length (inFlight s) else 0))%nat).
      { intros k' Hle.
        pose proof (subscribe_waiting (nextAggregate s) (inFlight s) s k') as H.
        rewrite <- Hs2, (Hfresh k' Hle) in H. exact H. }
      assert (Hentries : forall j inv',
                nth_error (invocations s2) j = Some inv' -> settled inv' = None ->
                In j (inFlight s) /\ In (OnAggregate (nextAggregate s)) (reactions inv')).
      { intros j inv' Hj Hpending. rewrite Hs2 in Hj.
        destruct (subscribe_entries _ _ _ _ Hj) as [inv [Hinv [Hs [_ Hreg]]]].
        rewrite Hpending in Hs. symmetry in Hs.
        destruct (sound_pending Hsound _ Hinv Hs) as [Hin _].
        split; [exact Hin | apply Hreg; assumption]. }
      assert (Hfresh' : forall k', (S (nextAggregate s) <= k')%nat ->
                                   waitingFor k' s2 = 0%nat).
      { intros k' Hk'. assert (Hle : (nextAggregate s <= k')%nat) by lia.
        specialize (Hwait k' Hle).
        assert (E : (nextAggregate s =? k')%nat = false) by (apply Nat.eqb_neq; lia).
        rewrite E in Hwait. lia. }
      destruct (inFlight s) as [|a fl] eqn:Hfl.
      * split.
        -- intros k' Hk'. cbn [nextAggregate] in Hk'. unfold waitingFor.
           cbn [queue invocations]. rewrite queuedFor_app.
           specialize (Hfresh' k' Hk'). unfold waitingFor in Hfresh'.
           unfold queuedFor at 2. simpl. lia.
        -- unfold placeOK. cbn [main invocations]. split; [congruence|].
           intros j inv' Hj Hpending.
           destruct (Hentries _ _ Hj Hpending) as [[] _].
      * split.
        -- intros k' Hk'. cbn [nextAggregate] in Hk'. unfold waitingFor.
           cbn [queue invocations]. apply (Hfresh' k' Hk').
        -- unfold placeOK. cbn [main invocations]. split; [congruence|]. split.
           ++ specialize (Hwait (nextAggregate s) (Nat.le_refl _)).
              rewrite Nat.eqb_refl in Hwait. unfold waitingFor in *.
              cbn [queue invocations]. exact Hwait.
           ++ intros j inv' Hj Hpending. apply (Hentries _ _ Hj Hpending).
    + (* a launch *)
      destruct Hb as [Hfresh Hplace]. unfold placeOK in Hplace. rewrite Hmain in Hplace.
      cbv zeta. cbn [inFlight nextAggregate].
      set (s1 := mkState (invocations s ++ [mkInvocation x false None [OnFinally]])%list
                         (inFlight s ++ [List.length (invocations s)])%list
                         (queue s ++ [CallHandler (List.length (invocations s))])%list
                         (InLoop (x :: rest)) (nextAggregate s) (unhandledRejections s)).
      assert (Hwait1 : forall k, waitingFor k s1 = waitingFor k s).
      { intros k. unfold waitingFor. subst s1. cbn [queue invocations].
        rewrite queuedFor_app, registeredFor_app.
        unfold queuedFor at 2. unfold registeredFor at 2. simpl. lia. }
      assert (Hitems1 : (map (@item T) (invocations s1) ++ rest)%list = items).
      { subst s1. cbn [invocations]. rewrite map_app, <- app_assoc. exact Hplace. }
      match goal with
      | [ |- context [if ?b then _ else _] ] => destruct b
      end.
      * remember (subscribe (nextAggregate s) (inFlight s1) s1) as s2 eqn:Hs2.
        destruct (subscribe_frame (nextAggregate s) (inFlight s1) s1) as [_ [_ [_ Hitems]]].
        rewrite <- Hs2 in Hitems.
        replace (inFlight s ++ [List.length (invocations s)])%list with (inFlight s1)
          by reflexivity.
        fold s1. rewrite <- Hs2.
        split.
        -- intros k' Hk'. cbn [nextAggregate] in Hk'. unfold waitingFor.
           cbn [queue invocations].
           pose proof (subscribe_waiting (nextAggregate s) (inFlight s1) s1 k') as H.
           rewrite <- Hs2, Hwait1, (Hfresh k') in H by lia.
           assert (E : (nextAggregate s =? k')%nat = false) by (apply Nat.eqb_neq; lia).
           rewrite E in H. unfold waitingFor in H. lia.
        -- unfold placeOK. cbn [main invocations]. rewrite Hitems. exact Hitems1.
      * split.
        -- intros k' Hk'. cbn [nextAggregate withMain] in Hk'.
           fold s1. unfold waitingFor. cbn [queue invocations withMain].
           specialize (Hwait1 k'). unfold waitingFor in Hwait1. rewrite Hwait1.
           apply Hfresh. exact Hk'.
        -- fold s1. unfold placeOK. cbn [main invocations withMain]. exact Hitems1.
  - (* a job *)
    unfold jobStep. destruct (inSynchronousCode s); [exact Hb|].
    destruct (queue s) as [|j q] eqn:Hqueue; [exact Hb|].
    pose (popped := mkState (invocations s) (inFlight s) q (main s)
                           (nextAggregate s) (unhandledRejections s)).
    assert (Hcount : forall k, waitingFor k s
                               = (waitingFor k popped + (if isElementJob k j then 1 else 0))%nat).
    { intros k. unfold waitingFor. subst popped. cbn [queue invocations].
      rewrite Hqueue. unfold queuedFor. simpl. destruct (isElementJob k j); simpl; lia. }
    assert (Hpop : Barrier items popped).
    { apply (Barrier_same (s:=s)); try reflexivity; [exact Hb|].
      intros k. subst popped. cbn [queue]. rewrite Hqueue. unfold queuedFor. simpl.
      destruct (isElementJob k j); simpl; lia. }
    subst popped.
    destruct j as [i|i [|k] o|]; unfold runJob; cbn [invocations main].
    + destruct (nth_error (invocations s) i) as [inv|] eqn:Hi; [|exact Hpop].
      pose proof (@Barrier_update items _ i
                    (fun inv0 => mkInvocation (item inv0) true (settled inv0)
                                              (reactions inv0))
                    Hpop (fun inv0 => conj eq_refl (conj eq_refl eq_refl))) as Hs1.
      cbn [invocations] in Hs1.
      destruct (handler (item inv)).
      * apply settleInvocation_barrier. exact Hs1.
      * apply settleInvocation_barrier. exact Hs1.
      * exact Hs1.
    + apply (@Barrier_same items _ _ Hpop); reflexivity.
    + unfold aggregateReaction. cbn [main].
      destruct Hb as [Hfresh Hplace]. unfold placeOK in Hplace.
      destruct (main s) as [rest|k' raced rest|k' remaining|o' rest|o'] eqn:Hmain;
        try exact Hpop.
      * destruct (k =? k')%nat; [|exact Hpop].
        destruct Hpop as [Hfresh' _]. split.
        -- intros k0 Hk0. cbn [nextAggregate enqueue withMain] in Hk0.
           unfold waitingFor. cbn [queue invocations enqueue withMain].
           rewrite queuedFor_app. specialize (Hfresh' k0 Hk0).
           unfold waitingFor in Hfresh'. cbn [queue invocations] in Hfresh'.
           unfold queuedFor at 2. simpl. lia.
        -- unfold placeOK. cbn [main invocations enqueue withMain].
           destruct o; exact Hplace.
      * destruct (k =? k')%nat eqn:Hk; [|exact Hpop].
        apply Nat.eqb_eq in Hk. subst k'.
        destruct Hplace as [Hitems [Hwait Hreg]].
        pose proof (Hcount k) as Hck. cbn [isElementJob] in Hck.
        rewrite Nat.eqb_refl in Hck.
        destruct Hpop as [Hfresh' _].
        assert (Hfresh2 : forall (m : Main T) k0, (nextAggregate s <= k0)%nat ->
                  waitingFor k0
                    (enqueue [Resume]
                       (withMain m (mkState (invocations s) (inFlight s) q
                                            (AwaitAll k remaining) (nextAggregate s)
                                            (unhandledRejections s)))) = 0%nat).
        { intros m k0 Hk0. unfold waitingFor. cbn [queue invocations enqueue withMain].
          rewrite queuedFor_app. specialize (Hfresh' k0 Hk0).
          unfold waitingFor in Hfresh'. cbn [queue invocations] in Hfresh'.
          unfold queuedFor at 2. simpl. lia. }
        destruct o as [|e].
        -- destruct (remaining - 1)%nat as [|r] eqn:Hrem.
           ++ split; [intros k0 Hk0; apply Hfresh2; exact Hk0|].
              unfold placeOK. cbn [main invocations enqueue withMain].
              split; [exact Hitems|]. intros j inv Hj Hpending.
              assert (Hzero : registeredFor k (invocations s) = 0%nat).
              { unfold waitingFor in Hck, Hwait.
                cbn [queue invocations] in Hck. lia. }
              apply (@registeredFor_zero k (invocations s) j inv Hzero Hj).
              apply (Hreg j inv Hj Hpending).
           ++ split.
              ** intros k0 Hk0. cbn [nextAggregate withMain] in Hk0.
                 unfold waitingFor. cbn [queue invocations withMain].
                 apply (Hfresh' k0 Hk0).
              ** unfold placeOK. cbn [main invocations withMain].
                 split; [exact Hitems|]. split; [|exact Hreg].
                 unfold waitingFor in *. cbn [queue invocations withMain].
                 cbn [queue invocations] in Hck. lia.
        -- split; [intros k0 Hk0; apply Hfresh2; exact Hk0|].
           unfold placeOK. cbn [main invocations enqueue withMain]. exact I.
    + destruct (main s) as [rest|k' raced rest|k' remaining|[|e] [rest|]|o'] eqn:Hmain;
        try exact Hpop;
        destruct Hpop as [Hfresh' Hplace']; (split; [exact Hfresh'|]);
        unfold placeOK in *; cbn [main invocations withMain] in *;
        try exact Hplace'; exact I.
  - (* the promise of a handler is settled *)
    unfold settleStep. destruct (inSynchronousCode s); [exact Hb|].
    destruct (nth_error (invocations s) i) as [inv|]; [|exact Hb].
    destruct (started inv); [|exact Hb].
    destruct (settled inv); [exact Hb|].
    apply settleInvocation_barrier. exact Hb.
Qed.

Lemma run_barrier : forall items schedule (s : State),
  SoundState s -> Barrier items s -> Barrier items (run s schedule).
Proof.
  intros items. induction schedule as [|c schedule IH]; intros s Hs Hb; simpl; [exact Hb|].
  apply IH; [apply step_sound | apply step_barrier]; assumption.
Qed.


Lemma callsQueued_app : forall q q',
  callsQueued (q ++ q') = (callsQueued q ++ callsQueued q')%list.
Proof.
  intros q q'. induction q as [|j q IH]; [reflexivity|].
  destruct j; simpl; rewrite IH; reflexivity.
Qed.

Lemma callsQueued_reactions : forall i o rs,
  callsQueued (map (fun r => React i r o) rs) = [].
Proof.
  intros i o rs. induction rs as [|r rs IH]; [reflexivity | exact IH].
Qed.

Lemma increasing_snoc : forall l n,
  increasing l -> (forall i, In i l -> (i < n)%nat) -> increasing (l ++ [n]).
Proof.
  induction l as [|a l IH]; intros n Hinc Hlt; simpl.
  - split; [intros b [] | exact I].
  - destruct Hinc as [Ha Hl]. split.
    + intros b Hb. apply in_app_or in Hb. destruct Hb as [Hb|[<-|[]]].
      * apply Ha. exact Hb.
      * apply Hlt. left. reflexivity.
    + apply IH; [exact Hl|]. intros i Hi. apply Hlt. right. exact Hi.
Qed.

Lemma sameCalls_refl : forall invs : list Invocation, sameCalls invs invs.
Proof.
  intros invs. split; [reflexivity|]. intros j inv Hj. exists inv. split; [exact Hj | reflexivity].
Qed.

Lemma sameCalls_updateAt : forall i (f : Invocation -> Invocation) invs,
  (forall inv, started (f inv) = started inv) ->
  sameCalls invs (updateAt i f invs).
Proof.
  intros i f invs Hf. split; [apply updateAt_length|].
  intros j inv' Hj. destruct (updateAt_inv _ _ _ _ Hj) as [inv [Hinv [[-> ->]|[_ ->]]]].
  - exists inv. split; [exact Hinv | apply Hf].
  - exists inv. split; [exact Hinv | reflexivity].
Qed.

Lemma InOrder_same : forall (s s' : State),
  InOrder s ->
  callsQueued (queue s') = callsQueued (queue s) ->
  sameCalls (invocations s) (invocations s') ->
  InOrder s'.
Proof.
  intros s s' [H1 [H2 [H3 H4]]] Hq [Hlen Hsame]. unfold InOrder. rewrite Hq, Hlen.
  split; [exact H1|]. split; [exact H2|]. split.
  - intros i j inv' Hi Hj Hst. destruct (Hsame _ _ Hj) as [inv [Hinv Hs]].
    apply (H3 i j inv Hi Hinv). congruence.
  - intros j inv' Hj Hst. destruct (Hsame _ _ Hj) as [inv [Hinv Hs]].
    apply (H4 j inv Hinv). congruence.
Qed.

Lemma settleInvocation_order : forall (s : State) i o,
  InOrder s -> InOrder (settleInvocation i o s).
Proof.
  intros s i o Hs. unfold settleInvocation.
  destruct (nth_error (invocations s) i) as [inv|]; [|exact Hs].
  destruct (settled inv); [exact Hs|].
  apply (@InOrder_same s _ Hs).
  - cbn [queue enqueue withInvocations]. rewrite callsQueued_app, callsQueued_reactions.
    apply app_nil_r.
  - cbn [invocations enqueue withInvocations]. apply sameCalls_updateAt. reflexivity.
Qed.

Lemma subscribeOne_order : forall k (s : State) j,
  InOrder s -> InOrder (subscribeOne k s j).
Proof.
  intros k s j Hs. unfold subscribeOne.
  destruct (nth_error (invocations s) j) as [inv|]; [|exact Hs].
  destruct (settled inv).
  - apply (@InOrder_same s _ Hs).
    + cbn [queue enqueue]. rewrite callsQueued_app. apply app_nil_r.
    + apply sameCalls_refl.
  - apply (@InOrder_same s _ Hs).
    + reflexivity.
    + cbn [invocations withInvocations]. apply sameCalls_updateAt. reflexivity.
Qed.

Lemma subscribe_order : forall k ids (s : State),
  InOrder s -> InOrder (subscribe k ids s).
Proof.
  intros k ids. unfold subscribe.
  induction ids as [|j ids IH]; intros s Hs; simpl; [exact Hs|].
  apply IH. apply subscribeOne_order. exact Hs.
Qed.

Lemma InOrder_initial : forall items : list T, InOrder (initial items).
Proof.
  intros items. unfold InOrder. simpl. split; [exact I|]. split; [intros i []|].
  split; [intros i j inv []|]. intros [|j] inv Hj; discriminate.
Qed.

Lemma step_order : forall (s : State) c, InOrder s -> InOrder (step s c).
Proof.
  intros s c Hs. destruct c as [| |i o]; simpl.
  - (* the body *)
    unfold mainStep.
    destruct (main s) as [[|x rest]|k raced rest|k remaining|o rest|o] eqn:Hmain;
      try exact Hs.
    + pose proof (subscribe_order (nextAggregate s) (inFlight s) Hs) as Hsub.
      cbv zeta. destruct (inFlight s).
      * apply (@InOrder_same _ _ Hsub); [|apply sameCalls_refl].
        cbn [queue]. rewrite callsQueued_app. apply app_nil_r.
      * apply (@InOrder_same _ _ Hsub); [reflexivity | apply sameCalls_refl].
    + cbv zeta. cbn [inFlight nextAggregate].
      set (s1 := mkState (invocations s ++ [mkInvocation x false None [OnFinally]])%list
                         (inFlight s ++ [List.length (invocations s)])%list
                         (queue s ++ [CallHandler (List.length (invocations s))])%list
                         (InLoop (x :: rest)) (nextAggregate s) (unhandledRejections s)).
      assert (Hs1 : InOrder s1).
      { destruct Hs as [H1 [H2 [H3 H4]]]. subst s1. unfold InOrder.
        cbn [queue invocations]. rewrite callsQueued_app. simpl callsQueued.
        rewrite length_app. simpl List.length.
        assert (Hold : forall j inv,
                  nth_error (invocations s ++ [mkInvocation x false None [OnFinally]])%list j
                  = Some inv ->
                  nth_error (invocations s) j = Some inv
                  \/ (j = List.length (invocations s) /\ started inv = false)).
        { intros j inv Hj.
          destruct (Nat.lt_ge_cases j (List.length (invocations s))) as [Hlt|Hge].
          - left. rewrite nth_error_app1 in Hj by exact Hlt. exact Hj.
          - right. rewrite nth_error_app2 in Hj by exact Hge.
            destruct (j - List.length (invocations s))%nat as [|n] eqn:Hn; simpl in Hj.
            + injection Hj as <-. split; [lia | reflexivity].
            + destruct n; discriminate. }
        split; [apply increasing_snoc; assumption|]. split.
        - intros i Hi. apply in_app_or in Hi. destruct Hi as [Hi|[<-|[]]]; [|lia].
          specialize (H2 i Hi). lia.
        - split.
          + intros i j inv Hi Hj Hst. destruct (Hold _ _ Hj) as [Hj0|[_ Hns]]; [|congruence].
            apply in_app_or in Hi. destruct Hi as [Hi|[<-|[]]].
            * apply (H3 i j inv Hi Hj0 Hst).
            * apply nth_error_Some. congruence.
          + intros j inv Hj Hst. apply in_or_app.
            destruct (Hold _ _ Hj) as [Hj0|[-> _]].
            * left. apply (H4 j inv Hj0 Hst).
            * right. left. reflexivity. }
      match goal with
      | [ |- context [if ?b then _ else _] ] => destruct b
      end.
      * pose proof (subscribe_order (nextAggregate s) (inFlight s1) Hs1) as Hsub.
        apply (@InOrder_same _ _ Hsub); [reflexivity | apply sameCalls_refl].
      * apply (@InOrder_same _ _ Hs1); [reflexivity | apply sameCalls_refl].
  - (* a job *)
    unfold jobStep. destruct (inSynchronousCode s); [exact Hs|].
    destruct (queue s) as [|j q] eqn:Hqueue; [exact Hs|].
    assert (Hplain : match j with CallHandler _ => False | _ => True end ->
              InOrder (mkState (invocations s) (inFlight s) q (main s)
                               (nextAggregate s) (unhandledRejections s))).
    { intros Hj. apply (@InOrder_same _ _ Hs); [|apply sameCalls_refl].
      cbn [queue]. rewrite Hqueue. destruct j; [contradiction | reflexivity | reflexivity]. }
    destruct j as [i|i [|k] o|]; unfold runJob; cbn [invocations main].
    + destruct Hs as [H1 [H2 [H3 H4]]]. rewrite Hqueue in H1, H2, H3, H4.
      simpl callsQueued in H1, H2, H3, H4. destruct H1 as [Hfirst Hrest].
      destruct (nth_error (invocations s) i) as [inv|] eqn:Hi.
      2:{ exfalso. apply nth_error_None in Hi.
          specialize (H2 i (or_introl eq_refl)). lia. }
      set (s1 := withInvocations _ _).
      assert (Hs1 : InOrder s1).
      { subst s1. unfold InOrder. cbn [queue invocations withInvocations].
        rewrite updateAt_length.
        split; [exact Hrest|]. split; [intros i' Hi'; apply H2; right; exact Hi'|].
        split.
        - intros i' j inv' Hi' Hj Hst.
          destruct (updateAt_inv _ _ _ _ Hj) as [inv0 [Hinv [[-> ->]|[_ ->]]]].
          + apply Hfirst. exact Hi'.
          + apply (H3 i' j inv0 (or_intror Hi') Hinv Hst).
        - intros j inv' Hj Hst.
          destruct (updateAt_inv _ _ _ _ Hj) as [inv0 [Hinv [[-> ->]|[Hne ->]]]].
          + discriminate.
          + destruct (H4 j inv0 Hinv Hst) as [Heq|Hin]; [congruence | exact Hin]. }
      destruct (handler (item inv)).
      * apply settleInvocation_order. exact Hs1.
      * apply settleInvocation_order. exact Hs1.
      * exact Hs1.
    + apply (@InOrder_same _ _ (Hplain I)); [reflexivity | apply sameCalls_refl].
    + specialize (Hplain I). unfold aggregateReaction. cbn [main].
      assert (Hres : forall m, InOrder (enqueue [Resume]
                (withMain m (mkState (invocations s) (inFlight s) q (main s)
                                     (nextAggregate s) (unhandledRejections s))))).
      { intros m. apply (@InOrder_same _ _ Hplain); [|apply sameCalls_refl].
        cbn [queue enqueue withMain]. rewrite callsQueued_app. apply app_nil_r. }
      destruct (main s) as [rest|k' raced rest|k' remaining|o' rest|o'] eqn:Hmain;
        try exact Hplain.
      * destruct (k =? k')%nat; [apply Hres | exact Hplain].
      * destruct (k =? k')%nat; [|exact Hplain].
        destruct o as [|e]; [|apply Hres].
        destruct (remaining - 1)%nat; [apply Hres|].
        apply (@InOrder_same _ _ Hplain); [reflexivity | apply sameCalls_refl].
    + specialize (Hplain I).
      destruct (main s) as [rest|k' raced rest|k' remaining|[|e] [rest|]|o'] eqn:Hmain;
        try exact Hplain;
        apply (@InOrder_same _ _ Hplain); try reflexivity; apply sameCalls_refl.
  - (* the promise of a handler is settled *)
    unfold settleStep. destruct (inSynchronousCode s); [exact Hs|].
    destruct (nth_error (invocations s) i) as [inv|]; [|exact Hs].
    destruct (started inv); [|exact Hs].
    destruct (settled inv); [exact Hs|].
    apply settleInvocation_order. exact Hs.
Qed.

Lemma run_order : forall schedule (s : State), InOrder s -> InOrder (run s schedule).
Proof.
  induction schedule as [|c schedule IH]; intros s Hs; simpl; [exact Hs|].
  apply IH. apply step_order. exact Hs.
Qed.

(** X19: within a window the handlers are called in the order of the
    items: when the handler of an item has been called, the handler of
    every item before it has been called. *)
Theorem handlers_called_in_order : forall (items : list T) schedule i j invi invj,
  let s := run (initial items) schedule in
  nth_error (invocations s) i = Some invi ->
  nth_error (invocations s) j = Some invj ->
  (i < j)%nat ->
  started invj = true ->
  started invi = true.
Proof.
  intros items schedule i j invi invj s Hi Hj Hlt Hst.
  destruct (run_order schedule (InOrder_initial items)) as [_ [_ [H3 H4]]].
  fold s in H3, H4.
  destruct (started invi) eqn:Hsi; [reflexivity|].
  pose proof (H4 i invi Hi Hsi) as Hin.
  pose proof (H3 i j invj Hin Hj Hst). lia.
Qed.

End WindowExtras.

Section WindowResults.

Import BatchProcessor.

Variable handler : RowObject -> HandlerResult.
Variable schedule : nat -> list Choice.

(** X18: when the promise of [runBatch] resolves, every item of the window
    has been launched, the handler of every item has been called, and
    every invocation has completed (fulfilled, or rejected without the
    wait in progress seeing it): a window does not resolve while a handler
    is running. *)
Theorem window_resolves_after_all : forall concurrency w items,
  Processor.runBatch handler schedule concurrency w items = Resolves ->
  let s := run handler concurrency (initial items) (schedule w) in
  map (@item RowObject) (invocations s) = items
  /\ forall j inv, nth_error (invocations s) j = Some inv ->
        started inv = true /\ settled inv <> None.
Proof.
  intros concurrency w items Hrun s.
  assert (Hdone : main s = Done Fulfilled).
  { unfold Processor.runBatch in Hrun. fold s in Hrun.
    destruct (main s) as [rest|k raced rest|k remaining|o rest|[|e]];
      try discriminate. reflexivity. }
  pose proof (run_sound handler concurrency (schedule w) (SoundState_initial items))
    as Hsound. fold s in Hsound.
  pose proof (run_barrier handler concurrency (schedule w) (SoundState_initial items)
                (Barrier_initial items)) as [_ Hplace].
  fold s in Hplace. unfold placeOK in Hplace. rewrite Hdone in Hplace.
  destruct Hplace as [Hitems Hall]. split; [exact Hitems|].
  intros j inv Hj. split; [|apply (Hall j inv Hj)].
  apply (sound_started Hsound _ Hj). apply (Hall j inv Hj).
Qed.

End WindowResults.

(** ** Runs of the further properties on the sample inputs *)

Lemma toUtcMillis_utcParts_witness :
  TimeZoneClock.toUtcMillis (TimeZoneClock.utcPartsOf noonUtc2024) = Some noonUtc2024.
Proof.
  apply (@toUtcMillis_utcParts noonUtc2024). vm_compute. reflexivity.
Defined.

Lemma reinterpret_by_offset_witness :
  TimeZoneClock.reinterpretDateToTimeZone sampleIntl (ValidDate noonUtc2024) "Asia/Manila"
  = Return (ValidDate (noonUtc2024 - 8 * hourMs)).
Proof.
  apply (@reinterpret_by_offset sampleIntl "Asia/Manila" (8 * hourMs) noonUtc2024).
  - reflexivity.
  - reflexivity.
  - reflexivity.
  - reflexivity.
  - vm_compute. reflexivity.
  - vm_compute. reflexivity.
  - vm_compute. reflexivity.
Defined.

Lemma utcDateToExcelLocalDate_by_offset_witness :
  RowWriter.utcDateToExcelLocalDate sampleIntl sampleHost (ValidDate noonUtc2024)
    "Asia/Manila"
  = Return (newDate (Some (utcOfLocal sampleHost (noonUtc2024 + 8 * hourMs)))).
Proof.
  apply (@utcDateToExcelLocalDate_by_offset sampleIntl sampleHost "Asia/Manila"
           (8 * hourMs) noonUtc2024).
  - reflexivity.
  - reflexivity.
  - reflexivity.
  - vm_compute. reflexivity.
Defined.

Lemma write_read_round_trip_witness :
  (written <- RowWriter.utcDateToExcelLocalDate sampleIntl sampleHost
                (ValidDate noonUtc2024) "Asia/Manila" ;;
   TimeZoneClock.reinterpretDateToTimeZone sampleIntl written "Asia/Manila")
  = Return (ValidDate noonUtc2024).
Proof.
  apply (@write_read_round_trip sampleIntl sampleHost "Asia/Manila" (8 * hourMs)
           noonUtc2024).
  - reflexivity.
  - reflexivity.
  - reflexivity.
  - reflexivity.
  - intros l. reflexivity.
  - vm_compute. reflexivity.
  - vm_compute. reflexivity.
  - vm_compute. reflexivity.
Defined.

Lemma normalizeCellValue_serial_in_zone_witness :
  CellNormalizer.normalizeCellValue sampleIntl
    (mkCell (VNumber (numOfZ 45000)) (Some "yyyy-mm-dd")) true false (Some "Asia/Manila")
  = Return (VDate (ValidDate ((45000 - serialOfUnixEpoch false) * msPerDay - 8 * hourMs))).
Proof.
  apply (@normalizeCellValue_serial_in_zone sampleIntl "Asia/Manila" (8 * hourMs)
           45000 "yyyy-mm-dd" false).
  - reflexivity.
  - reflexivity.
  - reflexivity.
  - reflexivity.
  - discriminate.
  - reflexivity.
  - vm_compute. reflexivity.
  - vm_compute. reflexivity.
  - vm_compute. reflexivity.
Defined.


Lemma emitted_keys_in_header_order_witness :
  keysOf otherObject = ["id"; "name"]
  /\ map key (RowWriter.inferColumnsFromRow otherObject) = ["id"; "name"].
Proof.
  destruct (@emitted_keys_in_header_order sampleIntl sampleHost defaultReadOptions
              plainBook otherObject)
    as [worksheet [hs [hrow [Hws [Hhrow [Hnum [Hmap Horder]]]]]]].
  - vm_compute. left. reflexivity.
  - destruct Hws as [<-|[]].
    destruct Hhrow as [<-|[<-|[]]]; [|discriminate Hnum].
    vm_compute in Hmap. injection Hmap as <-.
    apply Horder.
    + repeat constructor; simpl; intuition discriminate.
    + repeat constructor.
    + simpl. intuition discriminate.
Defined.

Lemma array_columns_hold_arrays_witness :
  isArrayValue (VArray [VString "Ann"]) = true.
Proof.
  apply (@array_columns_hold_arrays sampleIntl sampleHost nameArrayOptions sampleBook
           [("id", VString "8"); ("name", VArray [VString "Ann"])] "name").
  - vm_compute. left. reflexivity.
  - right. left. reflexivity.
  - left. reflexivity.
  - discriminate.
Defined.

Lemma sheet_without_header_row_witness :
  RowMaterializer.sheetLoop sampleIntl sampleHost defaultReadOptions None [blankRow; dataRow]
  = ([], None).
Proof.
  apply (@sheet_without_header_row sampleIntl sampleHost defaultReadOptions
           [blankRow; dataRow]).
  intros row [<-|[<-|[]]]; left; vm_compute; reflexivity.
Defined.

Lemma only_named_sheet_is_read_witness :
  RowMaterializer.xlsxToObjects sampleIntl sampleHost otherSheetOptions sampleBook
  = ([], None).
Proof.
  apply (proj2 (@only_named_sheet_is_read sampleIntl sampleHost otherSheetOptions
                  "Other" sampleBook eq_refl ltac:(discriminate))).
  - reflexivity.
  - reflexivity.
Defined.

Lemma mapRowForExcelWrite_keeps_shape_witness :
  keysOf datedObjectInManila = keysOf datedObject
  /\ getProp "id" datedObjectInManila = Some (VString "8").
Proof.
  destruct (@mapRowForExcelWrite_keeps_shape sampleIntl sampleHost datedObject
              (Some "Asia/Manila") [] datedObjectInManila
              ltac:(vm_compute; reflexivity)) as [Hkeys Hvalues].
  split; [exact Hkeys|].
  apply (Hvalues ltac:(repeat constructor; simpl; intuition discriminate)
                 "id" (VString "8") eq_refl).
Defined.


Lemma windows_partition_rows_witness :
  Forall (fun b => 1 <= Z.of_nat (List.length b) <= 1)
         (batchesOf (fst (Processor.processXlsxLarge sampleIntl sampleHost quietHandler
                            (fun _ => calmSchedule) sampleBook oneRowBatches))).
Proof.
  apply (proj1 (proj2 (@windows_partition_rows sampleIntl sampleHost quietHandler
                         (fun _ => calmSchedule) sampleBook oneRowBatches 1
                         eq_refl ltac:(lia) eq_refl))).
Defined.

Lemma reader_failure_drops_open_batch_witness :
  snd (Processor.processXlsxLarge sampleIntl sampleHost quietHandler
         (fun _ => calmSchedule) brokenBook brokenOptions)
  = Rejects (PlainError "Invalid date")
  /\ batchesOf (fst (Processor.processXlsxLarge sampleIntl sampleHost quietHandler
                       (fun _ => calmSchedule) brokenBook brokenOptions)) = [].
Proof.
  destruct (@reader_failure_drops_open_batch sampleIntl sampleHost quietHandler
              (fun _ => calmSchedule) brokenBook brokenOptions 2
              (PlainError "Invalid date") eq_refl ltac:(lia) eq_refl)
    as [_ [Hrejects _]].
  - vm_compute. right. right. left. reflexivity.
  - split; [exact Hrejects | vm_compute; reflexivity].
Defined.

Lemma failure_is_unhandled_rejection_witness :
  let s := BatchProcessor.run failingHandler (numOfZ 8)
             (BatchProcessor.initial [sampleObject; otherObject]) wideSchedule in
  In (BatchProcessor.React 0 BatchProcessor.OnFinally (BatchProcessor.Rejected boom))
     (BatchProcessor.queue s)
  \/ In boom (BatchProcessor.unhandledRejections s).
Proof.
  cbv zeta.
  apply (@failure_is_unhandled_rejection RowObject failingHandler (numOfZ 8)
           [sampleObject; otherObject] wideSchedule 0%nat
           (BatchProcessor.mkInvocation sampleObject true
              (Some (BatchProcessor.Rejected boom)) [])
           boom).
  - vm_compute. reflexivity.
  - reflexivity.
Defined.

Lemma window_resolves_after_all_witness :
  map (@BatchProcessor.item RowObject)
      (BatchProcessor.invocations
         (BatchProcessor.run quietHandler (numOfZ 8)
            (BatchProcessor.initial [sampleObject]) calmSchedule))
  = [sampleObject].
Proof.
  apply (proj1 (@window_resolves_after_all quietHandler (fun _ => calmSchedule)
                  (numOfZ 8) 0%nat [sampleObject] ltac:(vm_compute; reflexivity))).
Defined.

Lemma handlers_called_in_order_witness :
  BatchProcessor.started
    (BatchProcessor.mkInvocation sampleObject true
       (Some (BatchProcessor.Rejected boom)) []) = true.
Proof.
  apply (@handlers_called_in_order RowObject failingHandler (numOfZ 8)
           [sampleObject; otherObject] wideSchedule 0%nat 1%nat
           (BatchProcessor.mkInvocation sampleObject true
              (Some (BatchProcessor.Rejected boom)) [])
           (BatchProcessor.mkInvocation otherObject true None
              [BatchProcessor.OnFinally; BatchProcessor.OnAggregate 0])).
  - vm_compute. reflexivity.
  - vm_compute. reflexivity.
  - lia.
  - reflexivity.
Defined.
